(** * af_local: the bounded one-way channel of an AF_LOCAL socket pair

    A shallow embedding of [libc/af_local.cc].  The channel object
    [af_local_buffer] is a record; its member functions are written in a small
    monad that threads the object, records the calls made to the collaborators
    (mutex, condition variables, [poll_wake]) as a trace, and has outcomes for
    a thread parked in a condition-variable wait, a thrown exception and a
    halted execution (failed assertion, wild pointer, exhausted fuel).  Every
    outcome carries the object as the execution left it. *)

From Stdlib Require Import ZArith List Bool Lia.
From Stdlib Require Import Strings.Byte.
Import ListNotations.
Open Scope Z_scope.

Set Implicit Arguments.

(** ** Constants of the headers *)

(** Modelled from the spec: the four flags of a readiness mask, declared in
    <osv/poll.h>, which is not part of the sources at hand.  The spec names
    them as four independent boolean flags (read-ready, write-ready,
    read-hangup, write-hangup); they are given the values of the Linux ABI. *)
Definition POLLIN : Z := 0x001.
Definition POLLOUT : Z := 0x004.
Definition POLLHUP : Z := 0x010.
Definition POLLRDHUP : Z := 0x2000.

(** Modelled from the spec: the error numbers of <errno.h> ([EPIPE] is
    BrokenPipe, [EINVAL] InvalidArgument, [ENFILE] and [EMFILE] the two
    exhausted tables of ResourceExhausted), the socket kinds of
    <sys/socket.h> ([SOCK_STREAM] is the stream kind, [SOCK_DGRAM] one that is
    not supported) and the [finit] arguments of <osv/file.h>, none of them
    part of the sources at hand, with their Linux / BSD values. *)
Definition EPIPE : Z := 32.
Definition EINVAL : Z := 22.
Definition ENFILE : Z := 23.
Definition EMFILE : Z := 24.
Definition SOCK_STREAM : Z := 1.
Definition SOCK_DGRAM : Z := 2.
Definition FREAD : Z := 1.
Definition FWRITE : Z := 2.
Definition DTYPE_UNSPEC : Z := 0.

(** Arithmetic of [size_t] and [ssize_t] (64 bits). *)
Definition size_t_wrap (z : Z) : Z := z mod 2 ^ 64.
Definition ssize_t_wrap (z : Z) : Z := (z + 2 ^ 63) mod 2 ^ 64 - 2 ^ 63.

(** ** Scatter/gather descriptors *)

(** Modelled from the spec: the scatter/gather descriptor, whose declaration
    (<osv/uio.h>) is not part of the sources at hand, with the fields the code
    uses.  [struct iovec]: [iov_base] points at user memory, held here as the
    bytes that start at the pointer; [iov_len] is the length the caller
    announces. *)
Record iovec : Type := mk_iovec {
  iov_base : list byte;
  iov_len : Z
}.

(** Modelled from the spec: [struct uio] (BSD), not part of the sources at
    hand: the segment array [uio_iov] and the signed residual count
    [uio_resid] of bytes still to transfer. *)
Record uio : Type := mk_uio {
  uio_iov : list iovec;
  uio_resid : Z
}.

Definition set_resid (data : uio) (r : Z) : uio :=
  mk_uio (uio_iov data) r.

Fixpoint store_at {A : Type} (i : nat) (x : A) (l : list A) : list A :=
  match l, i with
  | [], _ => []
  | _ :: tl, O => x :: tl
  | hd :: tl, S j => hd :: store_at j x tl
  end.

(** Writing through [iov[i].iov_base]: the memory behind segment [i] changes,
    the descriptor does not. *)
Definition store_base (i : nat) (mem : list byte) (data : uio) : uio :=
  match nth_error (uio_iov data) i with
  | Some v => mk_uio (store_at i (mk_iovec mem (iov_len v)) (uio_iov data))
                     (uio_resid data)
  | None => data
  end.

(** A descriptor as the system-call layer builds it: every segment announces
    the length of its memory, lengths are sizes, and the residual is their
    sum. *)
Definition wf_iovec (v : iovec) : bool :=
  (Z.of_nat (length (iov_base v)) =? iov_len v) && (iov_len v <? 2 ^ 63).

Definition total_len (l : list iovec) : Z :=
  fold_right (fun v acc => iov_len v + acc) 0 l.

Definition wf_uio (data : uio) : bool :=
  forallb wf_iovec (uio_iov data)
  && (uio_resid data =? total_len (uio_iov data))
  && (uio_resid data <? 2 ^ 63).

(** A descriptor of one segment over [mem]. *)
Definition uio_of (mem : list byte) : uio :=
  mk_uio [mk_iovec mem (Z.of_nat (length mem))] (Z.of_nat (length mem)).

(** ** The execution monad *)

(** [struct file *] as an address. *)
Definition file_ptr : Type := nat.

Inductive condvar : Type := may_read | may_write.

(** Calls to the collaborators, in program order. *)
Inductive event : Type :=
| MtxLock
| MtxUnlock
| PollWake (fp : option file_ptr) (events : Z)
| WakeAll (cv : condvar).

Inductive halt : Type := AssertionFailed | InvalidPointer | OutOfFuel.

Inductive result (S A : Type) : Type :=
| Done (a : A) (s : S) (t : list event)
| Blocked (cv : condvar) (s : S) (t : list event)
| Thrown (error : Z) (s : S) (t : list event)
| Halted (h : halt) (s : S) (t : list event).

Arguments Done {S A} a s t.
Arguments Blocked {S A} cv s t.
Arguments Thrown {S A} error s t.
Arguments Halted {S A} h s t.

Definition M (S A : Type) : Type := S -> result S A.

Definition after {S A : Type} (t0 : list event) (r : result S A) : result S A :=
  match r with
  | Done a s t => Done a s (t0 ++ t)
  | Blocked cv s t => Blocked cv s (t0 ++ t)
  | Thrown e s t => Thrown e s (t0 ++ t)
  | Halted h s t => Halted h s (t0 ++ t)
  end.

Definition ret {S A : Type} (a : A) : M S A := fun s => Done a s [].

Definition bind {S A B : Type} (m : M S A) (k : A -> M S B) : M S B :=
  fun s =>
    match m s with
    | Done a s' t => after t (k a s')
    | Blocked cv s' t => Blocked cv s' t
    | Thrown e s' t => Thrown e s' t
    | Halted h s' t => Halted h s' t
    end.

Declare Scope exec_scope.
Delimit Scope exec_scope with exec.
Notation "x <- m ;; k" := (bind m (fun x => k))
  (at level 61, m at next level, right associativity) : exec_scope.
Notation "m ;; k" := (bind m (fun _ => k))
  (at level 61, right associativity) : exec_scope.
Open Scope exec_scope.

Definition gets {S A : Type} (f : S -> A) : M S A := fun s => Done (f s) s [].
Definition modify {S : Type} (f : S -> S) : M S unit := fun s => Done tt (f s) [].
Definition emit {S : Type} (e : event) : M S unit := fun s => Done tt s [e].
Definition stop {S A : Type} (h : halt) : M S A := fun s => Halted h s [].
Definition throw {S A : Type} (error : Z) : M S A := fun s => Thrown error s [].

(** [assert(c)]. *)
Definition assert {S : Type} (c : bool) : M S unit :=
  if c then ret tt else stop AssertionFailed.

(** [try { m } catch (int error) { h error }]. *)
Definition try_catch {S A : Type} (m : M S A) (h : Z -> M S A) : M S A :=
  fun s =>
    match m s with
    | Thrown e s' t => after t (h e s')
    | r => r
    end.

(** [with_lock(mtx, body)] and [std::lock_guard<mutex>]. *)
Definition with_lock {S A : Type} (body : M S A) : M S A :=
  emit MtxLock ;; a <- body ;; emit MtxUnlock ;; ret a.

(** [cv.wait(&mtx)]: the thread is parked with the mutex released; it runs
    again only when another thread wakes [cv]. *)
Definition wait {S A : Type} (cv : condvar) : M S A := fun s => Blocked cv s [].

Definition wake_all {S : Type} (cv : condvar) : M S unit := emit (WakeAll cv).
Definition poll_wake {S : Type} (fp : option file_ptr) (events : Z) : M S unit :=
  emit (PollWake fp events).

(** C's truth value of an integer. *)
Definition truthy (z : Z) : bool := negb (z =? 0).

(** ** The bounded channel *)

Record af_local_buffer : Type := mk_buffer {
  q : list byte;
  receiver : option file_ptr;
  sender : option file_ptr;
  refs : Z
}.

Definition max_buf : Z := 8192.

(** [af_local_buffer() = default]. *)
Definition af_local_buffer_new : af_local_buffer := mk_buffer [] None None 0.

Definition set_q (l : list byte) (b : af_local_buffer) : af_local_buffer :=
  mk_buffer l (receiver b) (sender b) (refs b).
Definition set_receiver (f : option file_ptr) (b : af_local_buffer) : af_local_buffer :=
  mk_buffer (q b) f (sender b) (refs b).
Definition set_sender (f : option file_ptr) (b : af_local_buffer) : af_local_buffer :=
  mk_buffer (q b) (receiver b) f (refs b).
Definition set_refs (n : Z) (b : af_local_buffer) : af_local_buffer :=
  mk_buffer (q b) (receiver b) (sender b) n.

Definition q_size (b : af_local_buffer) : Z := Z.of_nat (length (q b)).
Definition q_empty (b : af_local_buffer) : bool :=
  match q b with [] => true | _ => false end.
Definition is_null {A : Type} (p : option A) : bool :=
  match p with None => true | Some _ => false end.

Definition detach_sender : M af_local_buffer unit :=
  with_lock (
    s <- gets sender ;;
    if negb (is_null s) then
      modify (set_sender None) ;;
      r <- gets receiver ;;
      (if negb (is_null r) then poll_wake r POLLRDHUP else ret tt) ;;
      wake_all may_read
    else ret tt).

Definition detach_receiver : M af_local_buffer unit :=
  with_lock (
    r <- gets receiver ;;
    if negb (is_null r) then
      modify (set_receiver None) ;;
      s <- gets sender ;;
      (if negb (is_null s) then poll_wake s POLLHUP else ret tt) ;;
      wake_all may_write
    else ret tt).

Definition attach_sender (f : file_ptr) : M af_local_buffer unit :=
  s <- gets sender ;;
  assert (is_null s) ;;
  modify (set_sender (Some f)).

Definition attach_receiver (f : file_ptr) : M af_local_buffer unit :=
  r <- gets receiver ;;
  assert (is_null r) ;;
  modify (set_receiver (Some f)).

Definition read_events_unlocked (b : af_local_buffer) : Z :=
  let ret := 0 in
  let ret := Z.lor ret (if negb (q_empty b) then POLLIN else 0) in
  let ret := Z.lor ret (if is_null (sender b) then POLLRDHUP else 0) in
  ret.

Definition write_events_unlocked (b : af_local_buffer) : Z :=
  if is_null (receiver b) then POLLHUP
  else
    let ret := 0 in
    let ret := Z.lor ret (if q_size b <? max_buf then POLLOUT else 0) in
    ret.

Definition read_events : M af_local_buffer Z :=
  with_lock (gets read_events_unlocked).

Definition write_events : M af_local_buffer Z :=
  with_lock (gets write_events_unlocked).

(** [while ((r = events()) == 0) cv.wait(&mtx);]  A thread that finds the
    mask zero is parked, which ends the execution with [Blocked] and the
    channel untouched; once woken it makes the same test on the channel as it
    is then, which is what running the call on that channel does. *)
Definition wait_for (events : af_local_buffer -> Z) (cv : condvar)
  : M af_local_buffer Z :=
  r <- gets events ;;
  if r =? 0 then wait cv else ret r.

(** [*iov] for [iov = data->uio_iov + i]. *)
Definition deref (i : nat) (data : uio) : M af_local_buffer iovec :=
  match nth_error (uio_iov data) i with
  | Some v => ret v
  | None => stop InvalidPointer
  end.

(** [std::copy(first, last, p)]: the copied bytes replace the front of the
    memory at [p]. *)
Definition copy_to (src mem : list byte) : list byte :=
  src ++ skipn (length src) mem.

(** The copy loop of [read]; [iov] stays at the segment it was set to before
    the loop. *)
Fixpoint read_loop (fuel : nat) (iov : nat) (data : uio) : M af_local_buffer uio :=
  match fuel with
  | O => stop OutOfFuel
  | S fuel' =>
    ev <- gets read_events_unlocked ;;
    if truthy (uio_resid data) && truthy (Z.land ev POLLIN) then
      v <- deref iov data ;;
      sz <- gets q_size ;;
      let n := Z.min sz (iov_len v) in
      let p := iov_base v in
      l <- gets q ;;
      let data := store_base iov (copy_to (firstn (Z.to_nat n) l) p) data in
      modify (set_q (skipn (Z.to_nat n) l)) ;;
      let data := set_resid data (ssize_t_wrap (uio_resid data - n)) in
      read_loop fuel' iov data
    else ret data
  end.

Definition read (fuel : nat) (data : uio) : M af_local_buffer (Z * uio) :=
  if negb (truthy (uio_resid data)) then ret (0, data)
  else
    data <- with_lock (
      r <- wait_for read_events_unlocked may_read ;;
      if negb (truthy (Z.land r POLLIN)) then
        assert (truthy (Z.land r POLLRDHUP)) ;;
        ret data
      else
        let iov := O in
        data <- read_loop fuel iov data ;;
        ev <- gets write_events_unlocked ;;
        (if truthy ev && truthy POLLOUT then
           s <- gets sender ;; poll_wake s POLLOUT
         else ret tt) ;;
        ret data) ;;
    wake_all may_write ;;
    ret (0, data).

(** The copy loop of [write]. *)
Fixpoint write_loop (fuel : nat) (iov : nat) (data : uio) : M af_local_buffer uio :=
  match fuel with
  | O => stop OutOfFuel
  | S fuel' =>
    ev <- gets write_events_unlocked ;;
    if truthy (uio_resid data) && truthy (Z.land ev POLLOUT) then
      v <- deref iov data ;;
      sz <- gets q_size ;;
      let n := Z.min (size_t_wrap (max_buf - sz)) (iov_len v) in
      let p := iov_base v in
      l <- gets q ;;
      modify (set_q (l ++ firstn (Z.to_nat n) p)) ;;
      let data := set_resid data (ssize_t_wrap (uio_resid data - n)) in
      write_loop fuel' iov data
    else ret data
  end.

Definition write (fuel : nat) (data : uio) : M af_local_buffer (Z * uio) :=
  if negb (truthy (uio_resid data)) then ret (0, data)
  else
    let err := 0 in
    r <- with_lock (
      r <- wait_for write_events_unlocked may_write ;;
      if negb (truthy (Z.land r POLLOUT)) then
        assert (truthy (Z.land r POLLHUP)) ;;
        let err := EPIPE in
        ret (err, data)
      else
        let iov := O in
        data <- write_loop fuel iov data ;;
        ev <- gets read_events_unlocked ;;
        (if truthy ev && truthy POLLIN then
           rc <- gets receiver ;; poll_wake rc POLLIN
         else ret tt) ;;
        ret (err, data)) ;;
    wake_all may_read ;;
    ret r.

(** [intrusive_ptr_add_ref]: [refs] is an [unsigned]. *)
Definition unsigned_wrap (z : Z) : Z := z mod 2 ^ 32.

Definition intrusive_ptr_add_ref : M af_local_buffer unit :=
  old <- gets refs ;;
  modify (set_refs (unsigned_wrap (old + 1))).

(** [refs.fetch_add(-1)]: the value before the decrement. *)
Definition refs_fetch_sub : M af_local_buffer Z :=
  old <- gets refs ;;
  modify (set_refs (unsigned_wrap (old - 1))) ;;
  ret old.

(** ** The duplex pair and the file layer *)

(** [struct af_local]: two channel references, as addresses in the heap of
    channels. *)
Record af_local : Type := mk_af_local {
  send : nat;
  receive : nat
}.

(** Modelled from the spec: the file object of the endpoint layer
    ("allocateEndpointHandle", "installOperations"), whose code in
    osv/file.h and fs/ is not part of the sources at hand: the flags, the
    type and the opaque state that [finit] records. *)
Record file : Type := mk_file {
  f_flags : Z;
  f_type : Z;
  f_data : option nat
}.

(** The heaps of channels, pairs and files (a deleted object leaves [None]),
    the descriptor table, the limits of the two allocators and [errno]. *)
Record world : Type := mk_world {
  buffers : list (option af_local_buffer);
  pairs : list (option af_local);
  files : list (option file);
  fdtable : list (option file_ptr);
  file_limit : nat;
  fd_limit : nat;
  errno : Z
}.

Definition set_buffers (l : list (option af_local_buffer)) (w : world) : world :=
  mk_world l (pairs w) (files w) (fdtable w) (file_limit w) (fd_limit w) (errno w).
Definition set_pairs (l : list (option af_local)) (w : world) : world :=
  mk_world (buffers w) l (files w) (fdtable w) (file_limit w) (fd_limit w) (errno w).
Definition set_files (l : list (option file)) (w : world) : world :=
  mk_world (buffers w) (pairs w) l (fdtable w) (file_limit w) (fd_limit w) (errno w).
Definition set_fdtable (l : list (option file_ptr)) (w : world) : world :=
  mk_world (buffers w) (pairs w) (files w) l (file_limit w) (fd_limit w) (errno w).
Definition set_errno (e : Z) (w : world) : world :=
  mk_world (buffers w) (pairs w) (files w) (fdtable w) (file_limit w) (fd_limit w) e.

(** Number of live objects of a heap. *)
Definition live {A : Type} (heap : list (option A)) : nat :=
  length (filter (fun o => negb (is_null o)) heap).

(** A member function of the channel at address [p]. *)
Definition at_buffer {A : Type} (p : nat) (m : M af_local_buffer A) : M world A :=
  fun w =>
    match nth_error (buffers w) p with
    | Some (Some b) =>
      let put b' := set_buffers (store_at p (Some b') (buffers w)) w in
      match m b with
      | Done a b' t => Done a (put b') t
      | Blocked cv b' t => Blocked cv (put b') t
      | Thrown e b' t => Thrown e (put b') t
      | Halted h b' t => Halted h (put b') t
      end
    | _ => Halted InvalidPointer w []
    end.

(** [new af_local_buffer]. *)
Definition af_local_buffer_alloc : M world nat :=
  l <- gets buffers ;;
  modify (set_buffers (l ++ [Some af_local_buffer_new])) ;;
  ret (length l).

(** [intrusive_ptr_release]. *)
Definition intrusive_ptr_release (p : nat) : M world unit :=
  old <- at_buffer p refs_fetch_sub ;;
  if old =? 1 then
    l <- gets buffers ;; modify (set_buffers (store_at p None l))
  else ret tt.

(** [new af_local(s, r)]: the two [intrusive_ptr] members take a reference
    each. *)
Definition af_local_alloc (s r : nat) : M world nat :=
  at_buffer s intrusive_ptr_add_ref ;;
  at_buffer r intrusive_ptr_add_ref ;;
  l <- gets pairs ;;
  modify (set_pairs (l ++ [Some (mk_af_local s r)])) ;;
  ret (length l).

Definition the_pair (p : nat) : M world af_local :=
  fun w =>
    match nth_error (pairs w) p with
    | Some (Some afl) => Done afl w []
    | _ => Halted InvalidPointer w []
    end.

Definition the_file (f : file_ptr) : M world file :=
  fun w =>
    match nth_error (files w) f with
    | Some (Some fl) => Done fl w []
    | _ => Halted InvalidPointer w []
    end.

(** [static_cast<af_local*>(f->f_data)], dereferenced. *)
Definition afl_of (f : file_ptr) : M world af_local :=
  fl <- the_file f ;;
  match f_data fl with
  | Some p => the_pair p
  | None => stop InvalidPointer
  end.

(** [delete afl]: the destructor body, then the members in reverse order of
    declaration. *)
Definition af_local_delete (p : nat) : M world unit :=
  afl <- the_pair p ;;
  at_buffer (send afl) detach_sender ;;
  at_buffer (receive afl) detach_receiver ;;
  intrusive_ptr_release (receive afl) ;;
  intrusive_ptr_release (send afl) ;;
  l <- gets pairs ;;
  modify (set_pairs (store_at p None l)).

Definition af_local_init (f : file_ptr) : M world Z :=
  afl <- afl_of f ;;
  at_buffer (send afl) (attach_sender f) ;;
  at_buffer (receive afl) (attach_receiver f) ;;
  ret 0.

Definition af_local_read (fuel : nat) (f : file_ptr) (data : uio) (flags : Z)
  : M world (Z * uio) :=
  afl <- afl_of f ;;
  at_buffer (receive afl) (read fuel data).

Definition af_local_write (fuel : nat) (f : file_ptr) (data : uio) (flags : Z)
  : M world (Z * uio) :=
  afl <- afl_of f ;;
  at_buffer (send afl) (write fuel data).

Definition af_local_poll (f : file_ptr) (events : Z) : M world Z :=
  afl <- afl_of f ;;
  let revents := 0 in
  revents <- (if truthy (Z.land events POLLIN) then
                r <- at_buffer (receive afl) read_events ;; ret (Z.lor revents r)
              else ret revents) ;;
  revents <- (if truthy (Z.land events POLLOUT) then
                r <- at_buffer (send afl) write_events ;; ret (Z.lor revents r)
              else ret revents) ;;
  ret revents.

Definition af_local_close (f : file_ptr) : M world Z :=
  fl <- the_file f ;;
  match f_data fl with
  | Some p =>
    af_local_delete p ;;
    l <- gets files ;;
    modify (set_files (store_at f (Some (mk_file (f_flags fl) (f_type fl) None)) l)) ;;
    ret 0
  | None => stop InvalidPointer
  end.

(** Modelled from the spec: [falloc_noinstall] ("allocateEndpointHandle"),
    absent from the sources at hand: a new, uninstalled file, or the
    exception of an exhausted file table (ResourceExhausted). *)
Definition falloc_noinstall : M world file_ptr :=
  l <- gets files ;;
  lim <- gets file_limit ;;
  if (live l <? lim)%nat then
    modify (set_files (l ++ [Some (mk_file 0 0 None)])) ;;
    ret (length l)
  else throw ENFILE.

(** Modelled from the spec: [finit] ("installOperations"), absent from the
    sources at hand: records the flags, the type and the opaque state and
    activates the endpoint through the [init] entry of [af_local_ops]. *)
Definition finit (f : file_ptr) (flags type : Z) (opaque : nat) : M world unit :=
  l <- gets files ;;
  modify (set_files (store_at f (Some (mk_file flags type (Some opaque))) l)) ;;
  af_local_init f ;;
  ret tt.

(** Modelled from the spec: dropping the last reference to a file that never
    reached the caller, absent from the sources at hand: an installed file is
    closed through the [close] entry of [af_local_ops], then it is freed. *)
Definition fdrop (f : file_ptr) : M world unit :=
  fl <- the_file f ;;
  (if is_null (f_data fl) then ret 0 else af_local_close f) ;;
  l <- gets files ;;
  modify (set_files (store_at f None l)).

(** Modelled from the spec: the descriptor holder [fdesc]
    ("releaseHandleIntoCallerOwnership"), absent from the sources at hand: its
    constructor takes a free slot of the descriptor table or throws, its
    destructor gives an unreleased slot back. *)
Definition fdesc_alloc (f : file_ptr) : M world Z :=
  l <- gets fdtable ;;
  lim <- gets fd_limit ;;
  if (live l <? lim)%nat then
    modify (set_fdtable (l ++ [Some f])) ;;
    ret (Z.of_nat (length l))
  else throw EMFILE.

(** Modelled from the spec: the destructor of an [fdesc] that was not
    released, absent from the sources at hand. *)
Definition fdesc_free (fd : Z) : M world unit :=
  l <- gets fdtable ;;
  modify (set_fdtable (store_at (Z.to_nat fd) None l)).

(** Modelled from the spec: [libc_error] of libc.hh, absent from the sources
    at hand: sets [errno] and yields -1. *)
Definition libc_error (error : Z) : M world Z :=
  modify (set_errno error) ;;
  ret (-1).

(** Stack unwinding: [dtor] runs when an exception leaves [m]. *)
Definition unwinding {S A : Type} (m : M S A) (dtor : M S unit) : M S A :=
  try_catch m (fun error => dtor ;; throw error).

(** [socketpair_af_local(type, proto, sv)].  The [try] block is written in
    two parts, because what the exit of the function destroys depends on how
    far the block came: until [s1.release()] and [s2.release()] the two
    [unique_ptr]s own their pairs and delete them, afterwards the files do. *)
Definition socketpair_af_local (type proto : Z) (sv : Z * Z)
  : M world (Z * (Z * Z)) :=
  assert (type =? SOCK_STREAM) ;;
  assert (proto =? 0) ;;
  b1 <- af_local_buffer_alloc ;;
  b2 <- af_local_buffer_alloc ;;
  s1 <- af_local_alloc b1 b2 ;;
  s2 <- af_local_alloc b2 b1 ;;
  fs <- try_catch
          (f1 <- falloc_noinstall ;;
           f2 <- unwinding falloc_noinstall (fdrop f1) ;;
           ret (inl (f1, f2)))
          (fun error =>
             r <- libc_error error ;;
             af_local_delete s2 ;;
             af_local_delete s1 ;;
             ret (inr r)) ;;
  match fs with
  | inr r => ret (r, sv)
  | inl (f1, f2) =>
    try_catch
      (finit f1 (Z.lor FREAD FWRITE) DTYPE_UNSPEC s1 ;;
       finit f2 (Z.lor FREAD FWRITE) DTYPE_UNSPEC s2 ;;
       unwinding
         (fd1 <- fdesc_alloc f1 ;;
          unwinding
            (fd2 <- fdesc_alloc f2 ;;
             ret (0, (fd1, fd2)))
            (fdesc_free fd1))
         (fdrop f2 ;; fdrop f1))
      (fun error => r <- libc_error error ;; ret (r, sv))
  end.

(** An empty system with room for [nf] files and [nd] descriptors. *)
Definition boot (nf nd : nat) : world := mk_world [] [] [] [] nf nd 0.

(** ** Sequences of calls on one channel *)

(** One call made on a channel by one of its two endpoints. *)
Inductive op : Type :=
| OpAttachSender (f : file_ptr)
| OpAttachReceiver (f : file_ptr)
| OpDetachSender
| OpDetachReceiver
| OpReadEvents
| OpWriteEvents
| OpRead (fuel : nat) (data : uio)
| OpWrite (fuel : nat) (data : uio).

Definition state_of {S A : Type} (r : result S A) : S :=
  match r with
  | Done _ s _ | Blocked _ s _ | Thrown _ s _ | Halted _ s _ => s
  end.

Definition trace_of {S A : Type} (r : result S A) : list event :=
  match r with
  | Done _ _ t | Blocked _ _ t | Thrown _ _ t | Halted _ _ t => t
  end.

(** What an execution that ran to its end returned. *)
Definition value_of {S A : Type} (r : result S A) : option A :=
  match r with
  | Done a _ _ => Some a
  | _ => None
  end.

(** The channel as the call leaves it. *)
Definition exec_op (o : op) (b : af_local_buffer) : af_local_buffer :=
  match o with
  | OpAttachSender f => state_of (attach_sender f b)
  | OpAttachReceiver f => state_of (attach_receiver f b)
  | OpDetachSender => state_of (detach_sender b)
  | OpDetachReceiver => state_of (detach_receiver b)
  | OpReadEvents => state_of (read_events b)
  | OpWriteEvents => state_of (write_events b)
  | OpRead fuel data => state_of (read fuel data b)
  | OpWrite fuel data => state_of (write fuel data b)
  end.

Definition run (ops : list op) (b : af_local_buffer) : af_local_buffer :=
  fold_left (fun b o => exec_op o b) ops b.

(** What the caller of [read] or [write] sees of a call that returned: the
    count is the fall of [uio_resid], the bytes are that many from the front
    of the scatter/gather memory. *)
Definition memory (data : uio) : list byte := concat (map iov_base (uio_iov data)).

Definition count (before after_ : uio) : Z := uio_resid before - uio_resid after_.

Definition transferred (before after_ : uio) : list byte :=
  firstn (Z.to_nat (count before after_)) (memory after_).

(** The caller's running account of a conversation: the bytes its writes were
    told were accepted and the bytes its reads were told were delivered. *)
Definition io_op (o : op) (b : af_local_buffer) : list byte * list byte :=
  match o with
  | OpRead fuel data =>
    match read fuel data b with
    | Done (_, data') _ _ => ([], transferred data data')
    | _ => ([], [])
    end
  | OpWrite fuel data =>
    match write fuel data b with
    | Done (_, data') _ _ => (transferred data data', [])
    | _ => ([], [])
    end
  | _ => ([], [])
  end.

Fixpoint run_io (ops : list op) (b : af_local_buffer)
  : af_local_buffer * (list byte * list byte) :=
  match ops with
  | [] => (b, ([], []))
  | o :: rest =>
    let '(w, r) := io_op o b in
    let '(b', (ws, rs)) := run_io rest (exec_op o b) in
    (b', (w ++ ws, r ++ rs))
  end.

(** A call that passes one segment, as [read(2)] and [write(2)] do. *)
Definition one_segment (o : op) : bool :=
  match o with
  | OpRead fuel data | OpWrite fuel data =>
    match uio_iov data with
    | [v] => wf_uio data && (2 <=? fuel)%nat
    | _ => false
    end
  | _ => true
  end.

(** Whether a trace holds a notification of [events] to a polling observer. *)
Definition notified (events : Z) (t : list event) : bool :=
  existsb (fun e => match e with
                    | PollWake _ ev => ev =? events
                    | _ => false
                    end) t.

(** The two readiness bits as predicates of the channel. *)
Definition read_ready (b : af_local_buffer) : bool :=
  truthy (Z.land (read_events_unlocked b) POLLIN).
Definition write_ready (b : af_local_buffer) : bool :=
  truthy (Z.land (write_events_unlocked b) POLLOUT).

(** The capacity invariant. *)
Definition within_capacity (b : af_local_buffer) : Prop := q_size b <= max_buf.

(** One pass of each copy loop, as a function of the descriptor and the
    channel. *)
Definition read_pass (iov : nat) (v : iovec) (data : uio) (b : af_local_buffer)
  : uio * af_local_buffer :=
  let n := Z.min (q_size b) (iov_len v) in
  let data := store_base iov (copy_to (firstn (Z.to_nat n) (q b)) (iov_base v)) data in
  (set_resid data (ssize_t_wrap (uio_resid data - n)),
   set_q (skipn (Z.to_nat n) (q b)) b).

Definition write_pass (v : iovec) (data : uio) (b : af_local_buffer)
  : uio * af_local_buffer :=
  let n := Z.min (size_t_wrap (max_buf - q_size b)) (iov_len v) in
  (set_resid data (ssize_t_wrap (uio_resid data - n)),
   set_q (q b ++ firstn (Z.to_nat n) (iov_base v)) b).

(** What a copy loop leaves alone in the channel. *)
Definition same_ends (b b' : af_local_buffer) : Prop :=
  receiver b' = receiver b /\ sender b' = sender b /\ refs b' = refs b.

(** The calls that end [read] and [write] once the copy loop is over. *)
Definition read_tail (b : af_local_buffer) : list event :=
  (if truthy (write_events_unlocked b) && truthy POLLOUT
   then [PollWake (sender b) POLLOUT] else [])
  ++ [MtxUnlock; WakeAll may_write].

Definition write_tail (b : af_local_buffer) : list event :=
  (if truthy (read_events_unlocked b) && truthy POLLIN
   then [PollWake (receiver b) POLLIN] else [])
  ++ [MtxUnlock; WakeAll may_read].

(** An execution that ran to its end or halted, neither parked nor thrown
    out of. *)
Definition settled {S A : Type} (r : result S A) : Prop :=
  match r with
  | Done _ _ _ | Halted _ _ _ => True
  | Blocked _ _ _ | Thrown _ _ _ => False
  end.

(** A call other than the two made once, when the pair is constructed. *)
Definition no_attach (o : op) : bool :=
  match o with
  | OpAttachSender _ | OpAttachReceiver _ => false
  | _ => true
  end.

(** Channels and descriptors used as examples: a pair of attached endpoints
    (files 1 and 2) around a given queue, and a destination of [n] zero
    bytes. *)
Definition channel (l : list byte) : af_local_buffer :=
  mk_buffer l (Some 2%nat) (Some 1%nat) 2.

Definition blank (n : nat) : list byte := repeat x00 n.

(** A queue filled to capacity. *)
Definition full_queue : list byte := repeat x61 (Z.to_nat max_buf).

(** A queue three bytes short of capacity, and a source of 10000 bytes: 8192
    of one letter, then 1808 of another. *)
Definition nearly_full_queue : list byte := repeat x61 (Z.to_nat (max_buf - 3)).

Definition ten_thousand : list byte :=
  repeat x61 (Z.to_nat max_buf) ++ repeat x62 (Z.to_nat (10000 - max_buf)).

(** A gathered write of two segments, "ab" then "cd", and one whose first
    segment is empty. *)
Definition ab_cd : uio :=
  mk_uio [mk_iovec [x61; x62] 2; mk_iovec [x63; x64] 2] 4.

Definition empty_then_c : uio :=
  mk_uio [mk_iovec [] 0; mk_iovec [x63] 1] 1.

(** A scattered read into two segments of two bytes. *)
Definition two_by_two : uio :=
  mk_uio [mk_iovec (blank 2) 2; mk_iovec (blank 2) 2] 4.

(** Fuel that outlasts any copy loop on a queue within capacity. *)
Definition ample : nat := S (Z.to_nat max_buf).

(** The five bytes of "hello". *)
Definition hello : list byte := [x68; x65; x6c; x6c; x6f].

(** ** Proof automation *)

(** Runs the calls that follow a copy loop and compares the traces. *)
Ltac run_tail :=
  unfold bind, gets, poll_wake, wake_all, emit, ret; cbn [after app];
  rewrite ?app_nil_r, <- ?app_assoc; reflexivity.

(** Closes the cases in which a call left the queue as it was. *)
Ltac queue_kept :=
  first [ now exists 0%nat | exists []; now rewrite app_nil_r ].

Create HintDb channel.

(** What [intrusive_ptr_release] leaves of a channel in the heap: nothing when
    the reference released was the last one. *)
Definition released (b : af_local_buffer) : option af_local_buffer :=
  if refs b =? 1 then None else Some (set_refs (unsigned_wrap (refs b - 1)) b).

(** File [f] is an endpoint of [w] whose pair is at [p], sends on the channel
    at [s] and receives on the channel at [r]. *)
Definition endpoint (w : world) (f : file_ptr) (p s r : nat) : Prop :=
  exists fl : file,
    nth_error (files w) f = Some (Some fl)
    /\ f_data fl = Some p
    /\ nth_error (pairs w) p = Some (Some (mk_af_local s r)).

(** The channel at [c] of [w]. *)
Definition channel_at (w : world) (c : nat) (b : af_local_buffer) : Prop :=
  nth_error (buffers w) c = Some (Some b).

(** Files [fa] and [fb] are the endpoints of one connected pair of [w], as
    [socketpair_af_local] builds it: [fa], with its pair at [pa], sends on the
    channel at [c1] and receives on the channel at [c2], [fb], with its pair
    at [pb], the other way round; both channels have their two roles attached
    and are referenced by the two pairs; [q1] and [q2] are the bytes in
    flight from [fa] to [fb] and from [fb] to [fa]. *)
Definition connected (w : world) (fa fb : file_ptr) (pa pb c1 c2 : nat)
           (q1 q2 : list byte) : Prop :=
  fa <> fb /\ pa <> pb /\ c1 <> c2
  /\ endpoint w fa pa c1 c2
  /\ endpoint w fb pb c2 c1
  /\ channel_at w c1 (mk_buffer q1 (Some fb) (Some fa) 2)
  /\ channel_at w c2 (mk_buffer q2 (Some fa) (Some fb) 2).

(** A connected pair in a system that was empty: files 0 and 1, channels 0
    and 1. *)
Definition a_pair : world :=
  state_of (socketpair_af_local SOCK_STREAM 0 (0, 0) (boot 2 2)).

(** ** Basic facts *)

Unset Implicit Arguments.

Lemma after_nil {S A : Type} (r : result S A) : after [] r = r.
Proof. destruct r; reflexivity. Qed.

Lemma truthy_true (z : Z) : truthy z = true <-> z <> 0.
Proof. unfold truthy. destruct (Z.eqb_spec z 0); simpl; split; intros; congruence. Qed.

Lemma truthy_false (z : Z) : truthy z = false <-> z = 0.
Proof. unfold truthy. destruct (Z.eqb_spec z 0); simpl; split; intros; congruence. Qed.

Lemma q_empty_nil (b : af_local_buffer) : q_empty b = true <-> q b = [].
Proof. unfold q_empty. destruct (q b); split; intros; congruence. Qed.

Lemma q_empty_size (b : af_local_buffer) : q_empty b = true <-> q_size b = 0.
Proof.
  unfold q_empty, q_size. destruct (q b); simpl length; split; intros; try congruence; lia.
Qed.

Lemma q_size_nonneg (b : af_local_buffer) : 0 <= q_size b.
Proof. unfold q_size. lia. Qed.

(** The masks, case by case. *)
Lemma read_events_cases (b : af_local_buffer) :
  read_events_unlocked b =
  match q_empty b, is_null (sender b) with
  | false, false => POLLIN
  | false, true => Z.lor POLLIN POLLRDHUP
  | true, false => 0
  | true, true => POLLRDHUP
  end.
Proof.
  unfold read_events_unlocked.
  destruct (q_empty b), (is_null (sender b)); reflexivity.
Qed.

Lemma write_events_cases (b : af_local_buffer) :
  write_events_unlocked b =
  if is_null (receiver b) then POLLHUP
  else if q_size b <? max_buf then POLLOUT else 0.
Proof.
  unfold write_events_unlocked.
  destruct (is_null (receiver b)), (q_size b <? max_buf); reflexivity.
Qed.

Lemma read_ready_iff (b : af_local_buffer) : read_ready b = negb (q_empty b).
Proof.
  unfold read_ready. rewrite read_events_cases.
  destruct (q_empty b), (is_null (sender b)); reflexivity.
Qed.

Lemma write_ready_iff (b : af_local_buffer) :
  write_ready b = negb (is_null (receiver b)) && (q_size b <? max_buf).
Proof.
  unfold write_ready. rewrite write_events_cases.
  destruct (is_null (receiver b)), (q_size b <? max_buf); reflexivity.
Qed.

(** ** The copy loops, pass by pass *)

Lemma read_loop_S (fuel iov : nat) (data : uio) (b : af_local_buffer) :
  read_loop (S fuel) iov data b =
  if truthy (uio_resid data) && read_ready b then
    match nth_error (uio_iov data) iov with
    | Some v => read_loop fuel iov (fst (read_pass iov v data b))
                          (snd (read_pass iov v data b))
    | None => Halted InvalidPointer b []
    end
  else Done data b [].
Proof.
  cbn [read_loop]. unfold bind at 1. cbn [gets after app]. unfold read_ready.
  destruct (truthy (uio_resid data) && truthy (Z.land (read_events_unlocked b) POLLIN)).
  - unfold bind at 1, deref. destruct (nth_error (uio_iov data) iov) as [v|].
    + cbn [ret after]. unfold bind, gets, modify. cbn [after].
      rewrite !after_nil. reflexivity.
    + reflexivity.
  - rewrite after_nil. reflexivity.
Qed.

Lemma write_loop_S (fuel iov : nat) (data : uio) (b : af_local_buffer) :
  write_loop (S fuel) iov data b =
  if truthy (uio_resid data) && write_ready b then
    match nth_error (uio_iov data) iov with
    | Some v => write_loop fuel iov (fst (write_pass v data b))
                           (snd (write_pass v data b))
    | None => Halted InvalidPointer b []
    end
  else Done data b [].
Proof.
  cbn [write_loop]. unfold bind at 1. cbn [gets after app]. unfold write_ready.
  destruct (truthy (uio_resid data) && truthy (Z.land (write_events_unlocked b) POLLOUT)).
  - unfold bind at 1, deref. destruct (nth_error (uio_iov data) iov) as [v|].
    + cbn [ret after]. unfold bind, gets, modify. cbn [after].
      rewrite !after_nil. reflexivity.
    + reflexivity.
  - rewrite after_nil. reflexivity.
Qed.

Lemma same_ends_refl (b : af_local_buffer) : same_ends b b.
Proof. repeat split. Qed.

Lemma same_ends_trans (b1 b2 b3 : af_local_buffer) :
  same_ends b1 b2 -> same_ends b2 b3 -> same_ends b1 b3.
Proof. unfold same_ends. intuition congruence. Qed.

Lemma same_ends_set_q (l : list byte) (b : af_local_buffer) : same_ends b (set_q l b).
Proof. repeat split. Qed.

#[local] Hint Resolve same_ends_refl same_ends_set_q q_size_nonneg : channel.

(** ** The two transfers, branch by branch *)

Lemma read_nonzero (fuel : nat) (data : uio) (b : af_local_buffer) :
  uio_resid data <> 0 ->
  read fuel data b =
  if read_events_unlocked b =? 0 then Blocked may_read b [MtxLock]
  else if read_ready b then
    match read_loop fuel 0 data b with
    | Done d b' t => Done (0, d) b' (MtxLock :: t ++ read_tail b')
    | Blocked cv b' t => Blocked cv b' (MtxLock :: t)
    | Thrown e b' t => Thrown e b' (MtxLock :: t)
    | Halted h b' t => Halted h b' (MtxLock :: t)
    end
  else if truthy (Z.land (read_events_unlocked b) POLLRDHUP)
       then Done (0, data) b [MtxLock; MtxUnlock; WakeAll may_write]
       else Halted AssertionFailed b [MtxLock].
Proof.
  intros Hr. apply truthy_true in Hr. unfold read. rewrite Hr. cbn [negb].
  unfold with_lock, wait_for, read_ready.
  unfold bind at 1. unfold bind at 1. cbn [emit after app].
  unfold bind at 1. unfold bind at 1. unfold bind at 1. cbn [gets after app].
  destruct (read_events_unlocked b =? 0).
  - reflexivity.
  - cbn [ret after app]. 
    destruct (truthy (Z.land (read_events_unlocked b) POLLIN)); cbn [negb].
    + unfold bind at 1.
      destruct (read_loop fuel 0 data b) as [d b' t|cv b' t|e b' t|h b' t]; cbn [after app]; try reflexivity.
      unfold bind at 1. cbn [gets after app].
      unfold read_tail.
      destruct (truthy (write_events_unlocked b') && truthy POLLOUT).
      * run_tail.
      * run_tail.
    + unfold assert.
      destruct (truthy (Z.land (read_events_unlocked b) POLLRDHUP)).
      * reflexivity.
      * reflexivity.
Qed.

Lemma write_nonzero (fuel : nat) (data : uio) (b : af_local_buffer) :
  uio_resid data <> 0 ->
  write fuel data b =
  if write_events_unlocked b =? 0 then Blocked may_write b [MtxLock]
  else if write_ready b then
    match write_loop fuel 0 data b with
    | Done d b' t => Done (0, d) b' (MtxLock :: t ++ write_tail b')
    | Blocked cv b' t => Blocked cv b' (MtxLock :: t)
    | Thrown e b' t => Thrown e b' (MtxLock :: t)
    | Halted h b' t => Halted h b' (MtxLock :: t)
    end
  else if truthy (Z.land (write_events_unlocked b) POLLHUP)
       then Done (EPIPE, data) b [MtxLock; MtxUnlock; WakeAll may_read]
       else Halted AssertionFailed b [MtxLock].
Proof.
  intros Hr. apply truthy_true in Hr. unfold write. rewrite Hr. cbn [negb].
  unfold with_lock, wait_for, write_ready.
  unfold bind at 1. unfold bind at 1. cbn [emit after app].
  unfold bind at 1. unfold bind at 1. unfold bind at 1. cbn [gets after app].
  destruct (write_events_unlocked b =? 0).
  - reflexivity.
  - cbn [ret after app]. 
    destruct (truthy (Z.land (write_events_unlocked b) POLLOUT)); cbn [negb].
    + unfold bind at 1.
      destruct (write_loop fuel 0 data b) as [d b' t|cv b' t|e b' t|h b' t]; cbn [after app]; try reflexivity.
      unfold bind at 1. cbn [gets after app].
      unfold write_tail.
      destruct (truthy (read_events_unlocked b') && truthy POLLIN).
      * run_tail.
      * run_tail.
    + unfold assert.
      destruct (truthy (Z.land (write_events_unlocked b) POLLHUP)).
      * reflexivity.
      * reflexivity.
Qed.

(** ** What the copy loops preserve *)

Lemma size_t_wrap_small (z : Z) : 0 <= z < 2 ^ 64 -> size_t_wrap z = z.
Proof. intros H. unfold size_t_wrap. apply Z.mod_small. exact H. Qed.

Lemma ssize_t_wrap_small (z : Z) : - 2 ^ 63 <= z < 2 ^ 63 -> ssize_t_wrap z = z.
Proof.
  intros H. unfold ssize_t_wrap. rewrite Z.mod_small; lia.
Qed.

Lemma room_wrap (b : af_local_buffer) :
  within_capacity b -> size_t_wrap (max_buf - q_size b) = max_buf - q_size b.
Proof.
  unfold within_capacity, max_buf. intros H. apply size_t_wrap_small.
  pose proof (q_size_nonneg b). lia.
Qed.

Lemma q_size_set_q (l : list byte) (b : af_local_buffer) :
  q_size (set_q l b) = Z.of_nat (length l).
Proof. reflexivity. Qed.

Lemma read_loop_shape (fuel : nat) :
  forall (iov : nat) (data : uio) (b : af_local_buffer),
    let r := read_loop fuel iov data b in
    settled r /\ trace_of r = [] /\ same_ends b (state_of r)
    /\ exists n : nat, q (state_of r) = skipn n (q b).
Proof.
  induction fuel as [|fuel IH]; intros iov data b.
  - cbn. repeat split. queue_kept.
  - cbv zeta. rewrite read_loop_S.
    destruct (truthy (uio_resid data) && read_ready b).
    + destruct (nth_error (uio_iov data) iov) as [v|].
      * specialize (IH iov (fst (read_pass iov v data b)) (snd (read_pass iov v data b))).
        cbv zeta in IH. destruct IH as (Hs & Ht & He & n & Hq).
        repeat split; try assumption.
        -- apply He.
        -- apply He.
        -- apply He.
        -- cbn [read_pass snd set_q q] in Hq. rewrite skipn_skipn in Hq.
           eexists. exact Hq.
      * cbn. repeat split. queue_kept.
    + cbn. repeat split. queue_kept.
Qed.

Lemma write_pass_capacity (v : iovec) (data : uio) (b : af_local_buffer) :
  within_capacity b -> within_capacity (snd (write_pass v data b)).
Proof.
  intros H. unfold within_capacity in *. cbn [write_pass snd].
  rewrite q_size_set_q, room_wrap by exact H.
  rewrite length_app, length_firstn. unfold q_size in *. lia.
Qed.

Lemma write_loop_shape (fuel : nat) :
  forall (iov : nat) (data : uio) (b : af_local_buffer),
    let r := write_loop fuel iov data b in
    settled r /\ trace_of r = [] /\ same_ends b (state_of r)
    /\ (exists w : list byte, q (state_of r) = q b ++ w)
    /\ (within_capacity b -> within_capacity (state_of r)).
Proof.
  induction fuel as [|fuel IH]; intros iov data b.
  - cbn. repeat split; auto. queue_kept.
  - cbv zeta. rewrite write_loop_S.
    destruct (truthy (uio_resid data) && write_ready b).
    + destruct (nth_error (uio_iov data) iov) as [v|].
      * specialize (IH iov (fst (write_pass v data b)) (snd (write_pass v data b))).
        cbv zeta in IH. destruct IH as (Hs & Ht & He & (w & Hq) & Hc).
        repeat split; try assumption; try apply He.
        -- cbn [write_pass snd set_q q] in Hq. rewrite <- app_assoc in Hq.
           eexists. exact Hq.
        -- intros H. apply Hc. now apply write_pass_capacity.
      * cbn. repeat split; auto. queue_kept.
    + cbn. repeat split; auto. queue_kept.
Qed.

Lemma write_loop_iov (fuel : nat) :
  forall (iov : nat) (data d : uio) (b b' : af_local_buffer) (t : list event),
    write_loop fuel iov data b = Done d b' t -> uio_iov d = uio_iov data.
Proof.
  induction fuel as [|fuel IH]; intros iov data d b b' t H.
  - discriminate H.
  - rewrite write_loop_S in H.
    destruct (truthy (uio_resid data) && write_ready b).
    + destruct (nth_error (uio_iov data) iov) as [v|]; [|discriminate H].
      apply IH in H. exact H.
    + now inversion H.
Qed.

Lemma read_zero (fuel : nat) (data : uio) (b : af_local_buffer) :
  uio_resid data = 0 -> read fuel data b = Done (0, data) b [].
Proof.
  intros H. apply truthy_false in H. unfold read. rewrite H. reflexivity.
Qed.

Lemma write_zero (fuel : nat) (data : uio) (b : af_local_buffer) :
  uio_resid data = 0 -> write fuel data b = Done (0, data) b [].
Proof.
  intros H. apply truthy_false in H. unfold write. rewrite H. reflexivity.
Qed.

(** ** The channel after a call *)

Lemma read_state (fuel : nat) (data : uio) (b : af_local_buffer) :
  let r := read fuel data b in
  same_ends b (state_of r) /\ exists n : nat, q (state_of r) = skipn n (q b).
Proof.
  cbv zeta. destruct (Z.eq_dec (uio_resid data) 0) as [Hz|Hz].
  - rewrite read_zero by exact Hz. split; [auto with channel | queue_kept].
  - rewrite read_nonzero by exact Hz.
    destruct (read_events_unlocked b =? 0);
      [split; [auto with channel | queue_kept]|].
    destruct (read_ready b).
    + destruct (read_loop_shape fuel 0 data b) as (Hs & _ & He & Hq).
      destruct (read_loop fuel 0 data b); cbn in *; now split.
    + destruct (truthy (Z.land (read_events_unlocked b) POLLRDHUP));
        (split; [auto with channel | queue_kept]).
Qed.

Lemma write_state (fuel : nat) (data : uio) (b : af_local_buffer) :
  let r := write fuel data b in
  same_ends b (state_of r)
  /\ (exists w : list byte, q (state_of r) = q b ++ w)
  /\ (within_capacity b -> within_capacity (state_of r)).
Proof.
  assert (Hid : same_ends b b /\ (exists w : list byte, q b = q b ++ w)
                /\ (within_capacity b -> within_capacity b)).
  { split; [auto with channel|]. split; [queue_kept|auto]. }
  cbv zeta. destruct (Z.eq_dec (uio_resid data) 0) as [Hz|Hz].
  - rewrite write_zero by exact Hz. exact Hid.
  - rewrite write_nonzero by exact Hz.
    destruct (write_events_unlocked b =? 0); [exact Hid|].
    destruct (write_ready b).
    + destruct (write_loop_shape fuel 0 data b) as (Hs & _ & He & Hq & Hc).
      destruct (write_loop fuel 0 data b); cbn in *; auto.
    + destruct (truthy (Z.land (write_events_unlocked b) POLLHUP)); exact Hid.
Qed.

Lemma detach_sender_run (b : af_local_buffer) :
  detach_sender b =
  match sender b with
  | Some _ =>
    Done tt (set_sender None b)
         (MtxLock :: (if is_null (receiver b) then []
                      else [PollWake (receiver b) POLLRDHUP])
                  ++ [WakeAll may_read; MtxUnlock])
  | None => Done tt b [MtxLock; MtxUnlock]
  end.
Proof.
  destruct b as [l [r|] [s|] n]; reflexivity.
Qed.

Lemma detach_receiver_run (b : af_local_buffer) :
  detach_receiver b =
  match receiver b with
  | Some _ =>
    Done tt (set_receiver None b)
         (MtxLock :: (if is_null (sender b) then []
                      else [PollWake (sender b) POLLHUP])
                  ++ [WakeAll may_write; MtxUnlock])
  | None => Done tt b [MtxLock; MtxUnlock]
  end.
Proof.
  destruct b as [l [r|] [s|] n]; reflexivity.
Qed.

Lemma exec_op_q (o : op) (b : af_local_buffer) :
  (exists n : nat, q (exec_op o b) = skipn n (q b))
  \/ ((exists w : list byte, q (exec_op o b) = q b ++ w)
      /\ (within_capacity b -> within_capacity (exec_op o b))).
Proof.
  destruct o as [f|f| | | | |fuel data|fuel data]; cbn [exec_op];
    try (left; exists 0%nat; destruct b as [l [r|] [s|] n]; reflexivity).
  - left. apply read_state.
  - right. apply write_state.
Qed.

Lemma exec_op_capacity (o : op) (b : af_local_buffer) :
  within_capacity b -> within_capacity (exec_op o b).
Proof.
  intros H. destruct (exec_op_q o b) as [[n Hq]|[_ Hc]].
  - unfold within_capacity, q_size in *. rewrite Hq, length_skipn. lia.
  - auto.
Qed.

Lemma run_capacity (ops : list op) :
  forall b : af_local_buffer, within_capacity b -> within_capacity (run ops b).
Proof.
  induction ops as [|o ops IH]; intros b H.
  - exact H.
  - cbn [run fold_left]. apply IH. now apply exec_op_capacity.
Qed.

(** ** Termination of the copy loops *)

Lemma nth_error_store_at {A : Type} (l : list A) :
  forall (i : nat) (x y : A), nth_error l i = Some y -> nth_error (store_at i x l) i = Some x.
Proof.
  induction l as [|a l IH]; intros [|i] x y H; try discriminate H.
  - reflexivity.
  - cbn in *. eapply IH. exact H.
Qed.

Lemma write_ready_true (b : af_local_buffer) :
  write_ready b = true <-> receiver b <> None /\ q_size b < max_buf.
Proof.
  rewrite write_ready_iff, andb_true_iff, negb_true_iff, Z.ltb_lt.
  destruct (receiver b); cbn; intuition congruence.
Qed.

Lemma read_ready_true (b : af_local_buffer) : read_ready b = true <-> q b <> [].
Proof.
  rewrite read_ready_iff, negb_true_iff. unfold q_empty.
  destruct (q b); split; intros; congruence.
Qed.

(** The bytes one pass of [write] appends, when the segment holds what it
    announces. *)
Lemma write_pass_size (v : iovec) (data : uio) (b : af_local_buffer) :
  within_capacity b ->
  0 <= iov_len v <= Z.of_nat (length (iov_base v)) ->
  q_size (snd (write_pass v data b)) =
  q_size b + Z.min (max_buf - q_size b) (iov_len v).
Proof.
  intros Hc Hv. cbn [write_pass snd]. rewrite q_size_set_q, room_wrap by exact Hc.
  rewrite length_app, length_firstn. unfold within_capacity, q_size in *. lia.
Qed.

Lemma write_loop_total (fuel : nat) :
  forall (iov : nat) (data : uio) (b : af_local_buffer) (v : iovec),
    nth_error (uio_iov data) iov = Some v ->
    0 < iov_len v <= Z.of_nat (length (iov_base v)) ->
    within_capacity b ->
    (Z.to_nat (max_buf - q_size b) < fuel)%nat ->
    exists (d : uio) (b' : af_local_buffer), write_loop fuel iov data b = Done d b' [].
Proof.
  induction fuel as [|fuel IH]; intros iov data b v Hn Hv Hc Hf; [lia|].
  rewrite write_loop_S.
  destruct (truthy (uio_resid data) && write_ready b) eqn:Hgo; [|eauto].
  apply andb_true_iff in Hgo. destruct Hgo as [_ Hw].
  apply write_ready_true in Hw. destruct Hw as [_ Hw].
  rewrite Hn. eapply IH.
  - exact Hn.
  - exact Hv.
  - now apply write_pass_capacity.
  - rewrite write_pass_size by (try assumption; lia). lia.
Qed.

Lemma read_loop_total (fuel : nat) :
  forall (iov : nat) (data : uio) (b : af_local_buffer) (v : iovec),
    nth_error (uio_iov data) iov = Some v ->
    0 < iov_len v ->
    (length (q b) < fuel)%nat ->
    exists (d : uio) (b' : af_local_buffer), read_loop fuel iov data b = Done d b' [].
Proof.
  induction fuel as [|fuel IH]; intros iov data b v Hn Hv Hf; [lia|].
  rewrite read_loop_S.
  destruct (truthy (uio_resid data) && read_ready b) eqn:Hgo; [|eauto].
  apply andb_true_iff in Hgo. destruct Hgo as [_ Hr].
  apply read_ready_true in Hr.
  rewrite Hn.
  eapply IH with (v := mk_iovec _ (iov_len v)).
  - cbn [read_pass fst set_resid uio_iov]. unfold store_base. rewrite Hn.
    cbn [uio_iov]. eapply nth_error_store_at. exact Hn.
  - exact Hv.
  - cbn [read_pass snd set_q q]. rewrite length_skipn. unfold q_size.
    destruct (q b) as [|x l]; [congruence|]. cbn [length] in *. lia.
Qed.

(** A write whose source exceeds the room left fills the queue to the brim
    and takes exactly the room off the residual. *)
Lemma write_loop_fills (fuel : nat) :
  forall (iov : nat) (data d : uio) (b b' : af_local_buffer) (t : list event)
         (v : iovec),
    write_loop fuel iov data b = Done d b' t ->
    nth_error (uio_iov data) iov = Some v ->
    0 <= iov_len v <= Z.of_nat (length (iov_base v)) ->
    within_capacity b ->
    receiver b <> None ->
    max_buf - q_size b < uio_resid data < 2 ^ 63 ->
    q_size b' = max_buf /\ uio_resid d = uio_resid data - (max_buf - q_size b).
Proof.
  induction fuel as [|fuel IH]; intros iov data d b b' t v H Hn Hv Hc Hrc Hr;
    [discriminate H|].
  rewrite write_loop_S in H.
  destruct (truthy (uio_resid data) && write_ready b) eqn:Hgo.
  - apply andb_true_iff in Hgo. destruct Hgo as [_ Hw].
    apply write_ready_true in Hw. destruct Hw as [_ Hw].
    rewrite Hn in H.
    pose proof (write_pass_size v data b Hc Hv) as Hsz.
    pose proof (q_size_nonneg b) as Hq0.
    assert (Hres : uio_resid (fst (write_pass v data b)) =
                   uio_resid data - Z.min (max_buf - q_size b) (iov_len v)).
    { cbn [write_pass fst set_resid uio_resid]. rewrite room_wrap by exact Hc.
      apply ssize_t_wrap_small. unfold max_buf in *. lia. }
    eapply IH in H.
    + destruct H as [H1 H2]. split; [exact H1|]. rewrite H2, Hres, Hsz. lia.
    + exact Hn.
    + exact Hv.
    + now apply write_pass_capacity.
    + exact Hrc.
    + rewrite Hres, Hsz. lia.
  - inversion H; subst d b' t. clear H.
    apply andb_false_iff in Hgo. destruct Hgo as [Hz|Hw].
    + apply truthy_false in Hz. pose proof (q_size_nonneg b).
      unfold within_capacity in Hc. lia.
    + assert (Hq : ~ q_size b < max_buf).
      { intros Hlt. assert (write_ready b = true) by (apply write_ready_true; auto).
        congruence. }
      unfold within_capacity in Hc. lia.
Qed.

(** ** Calls that pass one segment *)

Lemma one_segment_uio (data : uio) (v : iovec) :
  uio_iov data = [v] -> wf_uio data = true -> data = uio_of (iov_base v).
Proof.
  destruct data as [l r], v as [mem len]. cbn [uio_iov]. intros -> H.
  unfold wf_uio, wf_iovec in H. cbn in H.
  rewrite !andb_true_iff, !Z.eqb_eq in H.
  destruct H as [[[[H1 _] _] H2] _]. unfold uio_of. cbn [iov_base].
  subst len. f_equal. lia.
Qed.

Lemma write_loop_one (fuel : nat) (mem : list byte) (b : af_local_buffer) :
  (2 <= fuel)%nat ->
  mem <> [] ->
  Z.of_nat (length mem) < 2 ^ 63 ->
  within_capacity b ->
  write_ready b = true ->
  let n := Z.min (max_buf - q_size b) (Z.of_nat (length mem)) in
  write_loop fuel 0 (uio_of mem) b =
  Done (set_resid (uio_of mem) (Z.of_nat (length mem) - n))
       (set_q (q b ++ firstn (Z.to_nat n) mem) b) [].
Proof.
  intros Hf Hm Hl Hc Hw n.
  destruct fuel as [|[|fuel]]; try lia.
  assert (Hlen : 0 < Z.of_nat (length mem)) by (destruct mem; [congruence|cbn; lia]).
  pose proof (proj1 (write_ready_true b) Hw) as [Hrc Hq].
  pose proof (q_size_nonneg b) as Hq0.
  rewrite write_loop_S, Hw.
  replace (truthy (uio_resid (uio_of mem))) with true
    by (symmetry; apply truthy_true; cbn; lia).
  cbn [andb nth_error]. change (uio_iov (uio_of mem)) with [mk_iovec mem (Z.of_nat (length mem))].
  cbn [nth_error].
  assert (Hpass : write_pass (mk_iovec mem (Z.of_nat (length mem))) (uio_of mem) b
                  = (set_resid (uio_of mem) (Z.of_nat (length mem) - n),
                     set_q (q b ++ firstn (Z.to_nat n) mem) b)).
  { unfold write_pass. cbn [iov_len iov_base uio_resid uio_of]. rewrite room_wrap by exact Hc.
    fold n. rewrite ssize_t_wrap_small by (unfold max_buf in *; lia). reflexivity. }
  rewrite Hpass. cbn [fst snd]. rewrite write_loop_S.
  replace (truthy (uio_resid (set_resid (uio_of mem) (Z.of_nat (length mem) - n)))
           && write_ready (set_q (q b ++ firstn (Z.to_nat n) mem) b)) with false;
    [reflexivity|].
  symmetry. apply andb_false_iff. cbn [set_resid uio_resid].
  destruct (Z.eq_dec n (Z.of_nat (length mem))) as [He|Hne].
  - left. apply truthy_false. lia.
  - right. rewrite write_ready_iff, q_size_set_q, length_app, length_firstn.
    apply andb_false_iff. right. apply Z.ltb_ge. unfold q_size in *. lia.
Qed.

Lemma read_loop_one (fuel : nat) (mem : list byte) (b : af_local_buffer) :
  (2 <= fuel)%nat ->
  mem <> [] ->
  Z.of_nat (length mem) < 2 ^ 63 ->
  read_ready b = true ->
  let n := Z.min (q_size b) (Z.of_nat (length mem)) in
  read_loop fuel 0 (uio_of mem) b =
  Done (set_resid (uio_of (copy_to (firstn (Z.to_nat n) (q b)) mem))
                  (Z.of_nat (length mem) - n))
       (set_q (skipn (Z.to_nat n) (q b)) b) [].
Proof.
  intros Hf Hm Hl Hr n.
  destruct fuel as [|[|fuel]]; try lia.
  assert (Hlen : 0 < Z.of_nat (length mem)) by (destruct mem; [congruence|cbn; lia]).
  pose proof (q_size_nonneg b) as Hq0.
  rewrite read_loop_S, Hr.
  replace (truthy (uio_resid (uio_of mem))) with true
    by (symmetry; apply truthy_true; cbn; lia).
  cbn [andb nth_error]. change (uio_iov (uio_of mem)) with [mk_iovec mem (Z.of_nat (length mem))].
  cbn [nth_error].
  assert (Hcopy : length (copy_to (firstn (Z.to_nat n) (q b)) mem) = length mem).
  { unfold copy_to. rewrite length_app, length_skipn, length_firstn.
    unfold q_size in *. lia. }
  assert (Hpass : read_pass 0 (mk_iovec mem (Z.of_nat (length mem))) (uio_of mem) b
                  = (set_resid (uio_of (copy_to (firstn (Z.to_nat n) (q b)) mem))
                               (Z.of_nat (length mem) - n),
                     set_q (skipn (Z.to_nat n) (q b)) b)).
  { unfold read_pass. cbn [iov_len iov_base]. fold n.
    unfold store_base. cbn [uio_of uio_iov nth_error store_at iov_len uio_resid].
    rewrite ssize_t_wrap_small by lia.
    unfold uio_of, set_resid. cbn [uio_iov]. rewrite Hcopy. reflexivity. }
  rewrite Hpass. cbn [fst snd]. rewrite read_loop_S.
  replace (truthy (uio_resid (set_resid (uio_of (copy_to (firstn (Z.to_nat n) (q b)) mem))
                                        (Z.of_nat (length mem) - n)))
           && read_ready (set_q (skipn (Z.to_nat n) (q b)) b)) with false;
    [reflexivity|].
  symmetry. apply andb_false_iff. cbn [set_resid uio_resid].
  destruct (Z.eq_dec n (Z.of_nat (length mem))) as [He|Hne].
  - left. apply truthy_false. lia.
  - right. rewrite read_ready_iff. apply negb_false_iff, q_empty_nil.
    cbn [set_q q]. apply skipn_all2. unfold q_size in *. lia.
Qed.

Lemma write_ready_events (b : af_local_buffer) :
  write_ready b = true -> (write_events_unlocked b =? 0) = false.
Proof.
  intros H. apply write_ready_true in H. destruct H as [Hr Hq].
  rewrite write_events_cases. destruct (receiver b); [|congruence].
  cbn [is_null]. apply Z.ltb_lt in Hq. rewrite Hq. reflexivity.
Qed.

Lemma read_ready_events (b : af_local_buffer) :
  read_ready b = true -> (read_events_unlocked b =? 0) = false.
Proof.
  intros H. rewrite read_ready_iff in H. apply negb_true_iff in H.
  rewrite read_events_cases, H. destruct (is_null (sender b)); reflexivity.
Qed.

(** After bytes were appended the receiver is notified. *)
Lemma write_tail_nonempty (b : af_local_buffer) :
  q b <> [] ->
  write_tail b = [PollWake (receiver b) POLLIN; MtxUnlock; WakeAll may_read].
Proof.
  intros H. unfold write_tail. rewrite read_events_cases.
  replace (q_empty b) with false
    by (symmetry; unfold q_empty; destruct (q b); congruence).
  destruct (is_null (sender b)); reflexivity.
Qed.

(** After bytes were removed from a queue within capacity the sender is
    notified. *)
Lemma read_tail_room (b : af_local_buffer) :
  q_size b < max_buf ->
  read_tail b = [PollWake (sender b) POLLOUT; MtxUnlock; WakeAll may_write].
Proof.
  intros H. unfold read_tail. rewrite write_events_cases.
  apply Z.ltb_lt in H. rewrite H. destruct (is_null (receiver b)); reflexivity.
Qed.

Lemma write_one (fuel : nat) (mem : list byte) (b : af_local_buffer) :
  (2 <= fuel)%nat ->
  mem <> [] ->
  Z.of_nat (length mem) < 2 ^ 63 ->
  write_ready b = true ->
  let n := Z.min (max_buf - q_size b) (Z.of_nat (length mem)) in
  write fuel (uio_of mem) b =
  Done (0, set_resid (uio_of mem) (Z.of_nat (length mem) - n))
       (set_q (q b ++ firstn (Z.to_nat n) mem) b)
       [MtxLock; PollWake (receiver b) POLLIN; MtxUnlock; WakeAll may_read].
Proof.
  intros Hf Hm Hl Hw n.
  assert (Hlen : 0 < Z.of_nat (length mem)) by (destruct mem; [congruence|cbn; lia]).
  pose proof (proj1 (write_ready_true b) Hw) as [Hrc Hq].
  assert (Hc : within_capacity b) by (unfold within_capacity; lia).
  rewrite write_nonzero by (cbn; lia).
  rewrite write_ready_events, Hw by exact Hw.
  rewrite write_loop_one by assumption. fold n. cbn [app].
  rewrite write_tail_nonempty; [reflexivity|].
  cbn [set_q q]. intros He. apply (f_equal (@length byte)) in He.
  rewrite length_app, length_firstn in He. cbn [length] in He.
  pose proof (q_size_nonneg b). unfold q_size in *. lia.
Qed.

Lemma read_one (fuel : nat) (mem : list byte) (b : af_local_buffer) :
  (2 <= fuel)%nat ->
  mem <> [] ->
  Z.of_nat (length mem) < 2 ^ 63 ->
  within_capacity b ->
  read_ready b = true ->
  let n := Z.min (q_size b) (Z.of_nat (length mem)) in
  read fuel (uio_of mem) b =
  Done (0, set_resid (uio_of (copy_to (firstn (Z.to_nat n) (q b)) mem))
                     (Z.of_nat (length mem) - n))
       (set_q (skipn (Z.to_nat n) (q b)) b)
       [MtxLock; PollWake (sender b) POLLOUT; MtxUnlock; WakeAll may_write].
Proof.
  intros Hf Hm Hl Hc Hr n.
  assert (Hlen : 0 < Z.of_nat (length mem)) by (destruct mem; [congruence|cbn; lia]).
  pose proof (proj1 (read_ready_true b) Hr) as Hq.
  rewrite read_nonzero by (cbn; lia).
  rewrite read_ready_events, Hr by exact Hr.
  rewrite read_loop_one by assumption. fold n. cbn [app].
  rewrite read_tail_room; [reflexivity|].
  rewrite q_size_set_q, length_skipn. unfold within_capacity, q_size in *.
  destruct (q b) as [|x l]; [congruence|]. cbn [length] in *. lia.
Qed.

(** ** Hang-up and waiting *)

Lemma read_eof (fuel : nat) (data : uio) (b : af_local_buffer) :
  uio_resid data <> 0 -> q b = [] -> sender b = None ->
  read fuel data b = Done (0, data) b [MtxLock; MtxUnlock; WakeAll may_write].
Proof.
  intros Hr Hq Hs. rewrite read_nonzero by exact Hr.
  unfold read_ready. rewrite read_events_cases.
  replace (q_empty b) with true by (symmetry; now apply q_empty_nil).
  rewrite Hs. reflexivity.
Qed.

Lemma read_blocks (fuel : nat) (data : uio) (b : af_local_buffer) :
  uio_resid data <> 0 -> q b = [] -> sender b <> None ->
  read fuel data b = Blocked may_read b [MtxLock].
Proof.
  intros Hr Hq Hs. rewrite read_nonzero by exact Hr.
  rewrite read_events_cases.
  replace (q_empty b) with true by (symmetry; now apply q_empty_nil).
  destruct (sender b); [reflexivity|congruence].
Qed.

Lemma write_epipe (fuel : nat) (data : uio) (b : af_local_buffer) :
  uio_resid data <> 0 -> receiver b = None ->
  write fuel data b = Done (EPIPE, data) b [MtxLock; MtxUnlock; WakeAll may_read].
Proof.
  intros Hr Hrc. rewrite write_nonzero by exact Hr.
  unfold write_ready. rewrite write_events_cases, Hrc. reflexivity.
Qed.

Lemma write_blocks (fuel : nat) (data : uio) (b : af_local_buffer) :
  uio_resid data <> 0 -> receiver b <> None -> max_buf <= q_size b ->
  write fuel data b = Blocked may_write b [MtxLock].
Proof.
  intros Hr Hrc Hq. rewrite write_nonzero by exact Hr.
  rewrite write_events_cases.
  destruct (receiver b); [|congruence]. cbn [is_null].
  apply Z.ltb_ge in Hq. rewrite Hq. reflexivity.
Qed.

(** ** First in, first out, one segment per call *)

Lemma uio_of_nil_resid (mem : list byte) : uio_resid (uio_of mem) = 0 <-> mem = [].
Proof.
  cbn. destruct mem; cbn [length]; split; intros; try congruence; lia.
Qed.

Lemma transferred_none (data : uio) : transferred data data = [].
Proof. unfold transferred, count. now rewrite Z.sub_diag. Qed.

Lemma io_op_fifo (o : op) (b : af_local_buffer) :
  one_segment o = true ->
  within_capacity b ->
  q b ++ fst (io_op o b) = snd (io_op o b) ++ q (exec_op o b).
Proof.
  intros Ho Hc.
  destruct o as [f|f| | | | |fuel data|fuel data];
    try (cbn [io_op fst snd app]; rewrite app_nil_r;
         destruct b as [l [r|] [s|] n]; reflexivity).
  - (* read *)
    cbn [one_segment] in Ho. destruct (uio_iov data) as [|v [|]] eqn:Hv; try discriminate Ho.
    apply andb_true_iff in Ho. destruct Ho as [Hwf Hf]. apply Nat.leb_le in Hf.
    pose proof (one_segment_uio data v Hv Hwf) as ->.
    assert (Hl : Z.of_nat (length (iov_base v)) < 2 ^ 63).
    { unfold wf_uio in Hwf. rewrite !andb_true_iff in Hwf.
      destruct Hwf as [_ Hlt]. apply Z.ltb_lt in Hlt. exact Hlt. }
    set (mem := iov_base v) in *. cbn [io_op exec_op].
    destruct mem as [|m0 mem'] eqn:Hm.
    { rewrite read_zero by reflexivity. cbn. now rewrite app_nil_r. }
    rewrite <- Hm in *. assert (Hne : mem <> []) by (rewrite Hm; congruence).
    destruct (q b) as [|x l] eqn:Hq.
    + destruct (sender b) eqn:Hs.
      * rewrite read_blocks; [|rewrite uio_of_nil_resid; exact Hne|exact Hq|congruence].
        cbn [fst snd state_of app]. now rewrite Hq.
      * rewrite read_eof; [|rewrite uio_of_nil_resid; exact Hne|exact Hq|exact Hs].
        cbn [fst snd state_of]. rewrite transferred_none, Hq. reflexivity.
    + assert (Hr : read_ready b = true) by (apply read_ready_true; congruence).
      rewrite read_one by assumption. cbn [fst snd state_of set_q q app].
      rewrite app_nil_r. unfold transferred, count, memory.
      cbn [set_resid uio_resid uio_of uio_iov map iov_base concat].
      rewrite app_nil_r. rewrite <- Hq.
      set (n := Z.min (q_size b) (Z.of_nat (length mem))).
      replace (Z.of_nat (length mem) - (Z.of_nat (length mem) - n)) with n by lia.
      unfold copy_to. rewrite firstn_app.
      replace (Z.to_nat n - length (firstn (Z.to_nat n) (q b)))%nat with 0%nat
        by (rewrite length_firstn; unfold n, q_size; lia).
      cbn [firstn]. rewrite app_nil_r, firstn_firstn, Nat.min_id.
      symmetry. apply firstn_skipn.
  - (* write *)
    cbn [one_segment] in Ho. destruct (uio_iov data) as [|v [|]] eqn:Hv; try discriminate Ho.
    apply andb_true_iff in Ho. destruct Ho as [Hwf Hf]. apply Nat.leb_le in Hf.
    pose proof (one_segment_uio data v Hv Hwf) as ->.
    assert (Hl : Z.of_nat (length (iov_base v)) < 2 ^ 63).
    { unfold wf_uio in Hwf. rewrite !andb_true_iff in Hwf.
      destruct Hwf as [_ Hlt]. apply Z.ltb_lt in Hlt. exact Hlt. }
    set (mem := iov_base v) in *. cbn [io_op exec_op].
    destruct mem as [|m0 mem'] eqn:Hm.
    { rewrite write_zero by reflexivity. cbn. now rewrite app_nil_r. }
    rewrite <- Hm in *. assert (Hne : mem <> []) by (rewrite Hm; congruence).
    assert (Hnz : uio_resid (uio_of mem) <> 0) by (rewrite uio_of_nil_resid; exact Hne).
    destruct (receiver b) eqn:Hrc.
    + destruct (Z_lt_le_dec (q_size b) max_buf) as [Hlt|Hge].
      * assert (Hw : write_ready b = true) by (apply write_ready_true; split; congruence).
        rewrite write_one by assumption. cbn [fst snd state_of set_q q app].
        unfold transferred, count, memory.
        cbn [set_resid uio_resid uio_of uio_iov map iov_base concat].
        rewrite app_nil_r.
        set (n := Z.min (max_buf - q_size b) (Z.of_nat (length mem))).
        replace (Z.of_nat (length mem) - (Z.of_nat (length mem) - n)) with n by lia.
        reflexivity.
      * rewrite write_blocks; [|exact Hnz|congruence|exact Hge].
        cbn. now rewrite app_nil_r.
    + rewrite write_epipe by assumption.
      cbn [fst snd state_of]. rewrite transferred_none. cbn. now rewrite app_nil_r.
Qed.

Lemma run_io_state (ops : list op) :
  forall b : af_local_buffer, fst (run_io ops b) = run ops b.
Proof.
  induction ops as [|o ops IH]; intros b; [reflexivity|].
  cbn [run_io run fold_left]. destruct (io_op o b) as [w r].
  specialize (IH (exec_op o b)).
  destruct (run_io ops (exec_op o b)) as [b' [ws rs]]. exact IH.
Qed.


(** ** Transfers of any shape *)

Lemma read_loop_shrinks (fuel iov : nat) (data d : uio) (b b' : af_local_buffer)
      (t : list event) (v : iovec) :
  read_loop fuel iov data b = Done d b' t ->
  uio_resid data <> 0 ->
  q b <> [] ->
  nth_error (uio_iov data) iov = Some v ->
  0 < iov_len v ->
  (length (q b') < length (q b))%nat.
Proof.
  intros H Hr Hq Hn Hv. destruct fuel as [|fuel]; [discriminate H|].
  rewrite read_loop_S in H.
  replace (truthy (uio_resid data)) with true in H by (symmetry; now apply truthy_true).
  replace (read_ready b) with true in H by (symmetry; now apply read_ready_true).
  cbn [andb] in H. rewrite Hn in H.
  destruct (read_loop_shape fuel iov (fst (read_pass iov v data b))
                            (snd (read_pass iov v data b))) as (_ & _ & _ & n & Hs).
  rewrite H in Hs. cbn [state_of read_pass snd set_q q] in Hs.
  rewrite Hs, !length_skipn. unfold q_size.
  destruct (q b) as [|x l]; [congruence|]. cbn [length]. lia.
Qed.

Lemma write_loop_grows (fuel iov : nat) (data d : uio) (b b' : af_local_buffer)
      (t : list event) (v : iovec) :
  write_loop fuel iov data b = Done d b' t ->
  uio_resid data <> 0 ->
  write_ready b = true ->
  nth_error (uio_iov data) iov = Some v ->
  0 < iov_len v <= Z.of_nat (length (iov_base v)) ->
  (length (q b) < length (q b'))%nat.
Proof.
  intros H Hr Hw Hn Hv. destruct fuel as [|fuel]; [discriminate H|].
  rewrite write_loop_S in H.
  replace (truthy (uio_resid data)) with true in H by (symmetry; now apply truthy_true).
  rewrite Hw in H. cbn [andb] in H. rewrite Hn in H.
  apply write_ready_true in Hw. destruct Hw as [_ Hw].
  assert (Hc : within_capacity b) by (unfold within_capacity; lia).
  destruct (write_loop_shape fuel iov (fst (write_pass v data b))
                             (snd (write_pass v data b))) as (_ & _ & _ & (w & Hs) & _).
  rewrite H in Hs. cbn [state_of] in Hs.
  pose proof (@write_pass_size v data b Hc) as Hsz.
  rewrite Hs, length_app. unfold q_size in *. lia.
Qed.

Lemma read_transfer (fuel : nat) (data : uio) (b : af_local_buffer) (v : iovec) :
  within_capacity b ->
  uio_resid data <> 0 ->
  q b <> [] ->
  nth_error (uio_iov data) 0 = Some v ->
  0 < iov_len v ->
  (length (q b) < fuel)%nat ->
  exists (d : uio) (b' : af_local_buffer),
    read fuel data b =
    Done (0, d) b' [MtxLock; PollWake (sender b) POLLOUT; MtxUnlock; WakeAll may_write]
    /\ same_ends b b' /\ q_size b' < q_size b.
Proof.
  intros Hc Hr Hq Hn Hv Hf.
  assert (Hrr : read_ready b = true) by now apply read_ready_true.
  destruct (@read_loop_total fuel 0 data b v Hn Hv Hf) as (d & b' & Hl).
  pose proof (read_loop_shrinks _ _ _ _ _ _ _ _ Hl Hr Hq Hn Hv) as Hlt.
  destruct (read_loop_shape fuel 0 data b) as (_ & _ & He & _).
  rewrite Hl in He. cbn [state_of] in He.
  exists d, b'. rewrite read_nonzero by exact Hr.
  rewrite read_ready_events, Hrr, Hl by exact Hrr. cbn [app].
  assert (Hsz : q_size b' < q_size b) by (unfold q_size; lia).
  rewrite read_tail_room by (unfold within_capacity in Hc; lia).
  assert (Hs : sender b' = sender b) by apply He.
  rewrite Hs. split; [reflexivity|]. split; assumption.
Qed.

Lemma write_transfer (fuel : nat) (data : uio) (b : af_local_buffer) (v : iovec) :
  write_ready b = true ->
  uio_resid data <> 0 ->
  nth_error (uio_iov data) 0 = Some v ->
  0 < iov_len v <= Z.of_nat (length (iov_base v)) ->
  (Z.to_nat (max_buf - q_size b) < fuel)%nat ->
  exists (d : uio) (b' : af_local_buffer),
    write fuel data b =
    Done (0, d) b' [MtxLock; PollWake (receiver b) POLLIN; MtxUnlock; WakeAll may_read]
    /\ same_ends b b' /\ q_size b < q_size b' <= max_buf
    /\ (exists w : list byte, q b' = q b ++ w)
    /\ uio_iov d = uio_iov data.
Proof.
  intros Hw Hr Hn Hv Hf.
  pose proof (proj1 (write_ready_true b) Hw) as [Hrc Hq].
  assert (Hc : within_capacity b) by (unfold within_capacity; lia).
  destruct (@write_loop_total fuel 0 data b v Hn Hv Hc Hf) as (d & b' & Hl).
  pose proof (write_loop_grows _ _ _ _ _ _ _ _ Hl Hr Hw Hn Hv) as Hlt.
  destruct (write_loop_shape fuel 0 data b) as (_ & _ & He & Happ & Hcap).
  rewrite Hl in He, Happ, Hcap. cbn [state_of] in He, Happ, Hcap.
  exists d, b'. rewrite write_nonzero by exact Hr.
  rewrite write_ready_events, Hw, Hl by exact Hw. cbn [app].
  rewrite write_tail_nonempty
    by (intros Hnil; rewrite Hnil in Hlt; cbn [length] in Hlt; lia).
  assert (Hs : receiver b' = receiver b) by apply He.
  rewrite Hs. split; [reflexivity|]. split; [exact He|].
  split; [|split; [exact Happ|exact (write_loop_iov _ _ _ _ _ _ _ Hl)]].
  specialize (Hcap Hc). unfold within_capacity, q_size in *. lia.
Qed.

(** ** Detachment is for good *)

Lemma exec_op_ends (o : op) (b : af_local_buffer) :
  no_attach o = true ->
  (sender b = None -> sender (exec_op o b) = None)
  /\ (receiver b = None -> receiver (exec_op o b) = None).
Proof.
  intros Ho.
  destruct o as [f|f| | | | |fuel data|fuel data]; try discriminate Ho; cbn [exec_op].
  - rewrite detach_sender_run. destruct (sender b) eqn:Es; cbn [state_of]; split; auto.
  - rewrite detach_receiver_run. destruct (receiver b) eqn:Er; cbn [state_of]; split; auto.
  - split; auto.
  - split; auto.
  - destruct (read_state fuel data b) as [(Hr & Hs & _) _]. rewrite Hr, Hs. auto.
  - destruct (write_state fuel data b) as [(Hr & Hs & _) _]. rewrite Hr, Hs. auto.
Qed.

Lemma run_ends (ops : list op) :
  forall b : af_local_buffer,
    forallb no_attach ops = true ->
    (sender b = None -> sender (run ops b) = None)
    /\ (receiver b = None -> receiver (run ops b) = None).
Proof.
  induction ops as [|o ops IH]; intros b Hops; [cbn; auto|].
  cbn [forallb] in Hops. apply andb_true_iff in Hops. destruct Hops as [Ho Hops].
  cbn [run fold_left]. destruct (exec_op_ends o b Ho) as [Hs Hr].
  destruct (IH (exec_op o b) Hops) as [Hs' Hr']. split; auto.
Qed.

Lemma write_loop_halt (fuel : nat) :
  forall (iov : nat) (data : uio) (b b' : af_local_buffer) (h : halt)
         (t : list event),
    write_loop fuel iov data b = Halted h b' t -> h <> AssertionFailed.
Proof.
  induction fuel as [|fuel IH]; intros iov data b b' h t H.
  - inversion H. discriminate.
  - rewrite write_loop_S in H.
    destruct (truthy (uio_resid data) && write_ready b); [|discriminate H].
    destruct (nth_error (uio_iov data) iov) as [v|].
    + eapply IH. exact H.
    + inversion H. discriminate.
Qed.

Lemma read_loop_halt (fuel : nat) :
  forall (iov : nat) (data : uio) (b b' : af_local_buffer) (h : halt)
         (t : list event),
    read_loop fuel iov data b = Halted h b' t -> h <> AssertionFailed.
Proof.
  induction fuel as [|fuel IH]; intros iov data b b' h t H.
  - inversion H. discriminate.
  - rewrite read_loop_S in H.
    destruct (truthy (uio_resid data) && read_ready b); [|discriminate H].
    destruct (nth_error (uio_iov data) iov) as [v|].
    + eapply IH. exact H.
    + inversion H. discriminate.
Qed.

(** ** Every way [write] can end *)

Lemma write_outcomes (fuel : nat) (data : uio) (b : af_local_buffer) :
  match write fuel data b with
  | Done (err, d) b' t =>
    (err = 0 /\ (uio_resid data = 0 \/ write_ready b = true))
    \/ (err = EPIPE /\ d = data /\ b' = b /\ uio_resid data <> 0 /\ receiver b = None)
  | Blocked cv b' t =>
    cv = may_write /\ b' = b /\ t = [MtxLock] /\ uio_resid data <> 0
    /\ receiver b <> None /\ max_buf <= q_size b
  | Thrown _ _ _ => False
  | Halted h _ _ => h <> AssertionFailed
  end.
Proof.
  destruct (Z.eq_dec (uio_resid data) 0) as [Hz|Hz].
  - rewrite write_zero by exact Hz. left. auto.
  - rewrite write_nonzero by exact Hz. unfold write_ready.
    rewrite write_events_cases.
    destruct (receiver b) as [f|] eqn:Hrc; cbn [is_null].
    + destruct (q_size b <? max_buf) eqn:Hq.
      * change (truthy (Z.land POLLOUT POLLOUT)) with true. cbv iota.
        change (POLLOUT =? 0) with false. cbv iota.
        assert (Hw : write_ready b = true).
        { apply write_ready_true. rewrite Hrc. apply Z.ltb_lt in Hq. split; congruence. }
        destruct (write_loop_shape fuel 0 data b) as (Hs & _).
        destruct (write_loop fuel 0 data b) as [d b' t|cv b' t|e b' t|h b' t] eqn:Hl;
          cbn in Hs; try contradiction.
        -- left. auto.
        -- eapply write_loop_halt. exact Hl.
      * change (0 =? 0) with true. cbv iota.
        apply Z.ltb_ge in Hq. repeat split; congruence.
    + change (POLLHUP =? 0) with false. cbv iota.
      change (truthy (Z.land POLLHUP POLLOUT)) with false. cbv iota.
      change (truthy (Z.land POLLHUP POLLHUP)) with true. cbv iota.
      right. auto.
Qed.

(** ** The bits of the masks *)

Lemma read_events_pollin (b : af_local_buffer) :
  Z.land (read_events_unlocked b) POLLIN <> 0 <-> q b <> [].
Proof.
  unfold read_events_unlocked, q_empty.
  destruct (q b), (sender b); cbn; split; intros; congruence.
Qed.

Lemma read_events_pollrdhup (b : af_local_buffer) :
  Z.land (read_events_unlocked b) POLLRDHUP <> 0 <-> sender b = None.
Proof.
  unfold read_events_unlocked, q_empty.
  destruct (q b), (sender b); cbn; split; intros; congruence.
Qed.

Lemma write_events_pollout (b : af_local_buffer) :
  Z.land (write_events_unlocked b) POLLOUT <> 0
  <-> receiver b <> None /\ q_size b < max_buf.
Proof.
  unfold write_events_unlocked.
  destruct (receiver b); cbn [is_null].
  - destruct (Z.ltb_spec (q_size b) max_buf); cbn; split.
    + intros _. split; [congruence|assumption].
    + intros _. discriminate.
    + congruence.
    + intros [_ Hq]. lia.
  - cbn. split; [congruence|]. intros [H _]. congruence.
Qed.

Lemma write_events_pollhup (b : af_local_buffer) :
  Z.land (write_events_unlocked b) POLLHUP <> 0 <-> receiver b = None.
Proof.
  unfold write_events_unlocked.
  destruct (receiver b); cbn [is_null].
  - destruct (q_size b <? max_buf); cbn; split; intros; congruence.
  - cbn. split; intros; congruence.
Qed.

(** ** The short write *)

(** A write that finds room, but less than its source: it returns, with the
    queue filled to capacity by exactly the room it found. *)
Lemma write_short (fuel : nat) (data : uio) (b : af_local_buffer) (v : iovec) :
  write_ready b = true ->
  nth_error (uio_iov data) 0 = Some v ->
  0 < iov_len v <= Z.of_nat (length (iov_base v)) ->
  max_buf - q_size b < uio_resid data < 2 ^ 63 ->
  (Z.to_nat (max_buf - q_size b) < fuel)%nat ->
  exists (d : uio) (b' : af_local_buffer) (w : list byte),
    write fuel data b =
    Done (0, d) b' [MtxLock; PollWake (receiver b) POLLIN; MtxUnlock; WakeAll may_read]
    /\ q b' = q b ++ w
    /\ q_size b' = max_buf
    /\ Z.of_nat (length w) = max_buf - q_size b
    /\ count data d = max_buf - q_size b
    /\ 0 < uio_resid d.
Proof.
  intros Hw Hn Hv Hr Hf.
  pose proof (proj1 (write_ready_true b) Hw) as [Hrc Hq].
  assert (Hc : within_capacity b) by (unfold within_capacity; lia).
  assert (Hnz : uio_resid data <> 0) by lia.
  destruct (@write_loop_total fuel 0 data b v Hn Hv Hc Hf) as (d & b' & Hl).
  destruct (@write_transfer fuel data b v Hw Hnz Hn Hv Hf)
    as (d2 & b2 & Hwr & _ & _ & (w & Happ) & _).
  assert (Hv' : 0 <= iov_len v <= Z.of_nat (length (iov_base v))) by lia.
  destruct (write_loop_fills _ _ _ _ _ _ _ _ Hl Hn Hv' Hc Hrc Hr) as [Hfull Hres].
  assert (Hsame : d2 = d /\ b2 = b').
  { rewrite write_nonzero in Hwr by exact Hnz.
    rewrite write_ready_events, Hw, Hl in Hwr by exact Hw.
    inversion Hwr. auto. }
  destruct Hsame as [-> ->].
  exists d, b', w. split; [exact Hwr|]. split; [exact Happ|]. split; [exact Hfull|].
  assert (Hlen : Z.of_nat (length w) = max_buf - q_size b).
  { unfold q_size in *. rewrite Happ, length_app in Hfull. lia. }
  unfold count. repeat split; lia.
Qed.

(** ** A first segment of length zero *)

Lemma set_q_same (b : af_local_buffer) : set_q (q b ++ []) b = b.
Proof. destruct b. unfold set_q. cbn. now rewrite app_nil_r. Qed.

(** The copy loop of [write] makes no progress on an empty segment it never
    leaves: whatever the fuel, it is still running when the fuel is out. *)
Lemma write_loop_spins (fuel : nat) :
  forall (data : uio) (b : af_local_buffer) (v : iovec),
    nth_error (uio_iov data) 0 = Some v ->
    iov_len v = 0 ->
    0 < uio_resid data < 2 ^ 63 ->
    write_ready b = true ->
    write_loop fuel 0 data b = Halted OutOfFuel b [].
Proof.
  induction fuel as [|fuel IH]; intros data b v Hn Hv Hr Hw; [reflexivity|].
  rewrite write_loop_S, Hw, Hn.
  replace (truthy (uio_resid data)) with true by (symmetry; apply truthy_true; lia).
  cbn [andb].
  apply write_ready_true in Hw as Hw'. destruct Hw' as [_ Hq].
  assert (Hc : within_capacity b) by (unfold within_capacity; lia).
  assert (Hpass : write_pass v data b = (data, b)).
  { unfold write_pass. rewrite room_wrap, Hv by exact Hc.
    rewrite Z.min_r by lia. cbn [Z.to_nat firstn].
    rewrite set_q_same, Z.sub_0_r, ssize_t_wrap_small by lia.
    destruct data; reflexivity. }
  rewrite Hpass. cbn [fst snd]. now apply IH with (v := v).
Qed.

(** Whatever the shape of the source, a write that returns from a channel
    with less room than the source holds has filled the queue to the brim. *)
Lemma write_fills (fuel : nat) (data d : uio) (b b' : af_local_buffer)
      (err : Z) (t : list event) (v : iovec) :
  write fuel data b = Done (err, d) b' t ->
  write_ready b = true ->
  nth_error (uio_iov data) 0 = Some v ->
  0 <= iov_len v <= Z.of_nat (length (iov_base v)) ->
  max_buf - q_size b < uio_resid data < 2 ^ 63 ->
  err = 0 /\ q_size b' = max_buf /\ count data d = max_buf - q_size b.
Proof.
  intros H Hw Hn Hv Hr.
  pose proof (proj1 (write_ready_true b) Hw) as [Hrc Hq].
  assert (Hc : within_capacity b) by (unfold within_capacity; lia).
  rewrite write_nonzero in H by lia.
  rewrite write_ready_events, Hw in H by exact Hw.
  destruct (write_loop fuel 0 data b) as [d0 b0 t0| | |] eqn:Hl; try discriminate H.
  inversion H; subst err d b' t. clear H.
  destruct (write_loop_fills _ _ _ _ _ _ _ _ Hl Hn Hv Hc Hrc Hr) as [Hfull Hres].
  unfold count. repeat split; lia.
Qed.

(** ** One segment against the room, and against the queue *)

Lemma write_one_fills (fuel : nat) (mem : list byte) (b : af_local_buffer) :
  (2 <= fuel)%nat ->
  write_ready b = true ->
  max_buf - q_size b <= Z.of_nat (length mem) < 2 ^ 63 ->
  write fuel (uio_of mem) b =
  Done (0, set_resid (uio_of mem) (Z.of_nat (length mem) - (max_buf - q_size b)))
       (set_q (q b ++ firstn (Z.to_nat (max_buf - q_size b)) mem) b)
       [MtxLock; PollWake (receiver b) POLLIN; MtxUnlock; WakeAll may_read].
Proof.
  intros Hf Hw Hl.
  pose proof (proj1 (write_ready_true b) Hw) as [_ Hq].
  assert (Hm : mem <> []) by (intros ->; cbn [length] in Hl; lia).
  pose proof (write_one fuel mem b Hf Hm (proj2 Hl) Hw) as H.
  cbv zeta in H. rewrite Z.min_l in H by lia. exact H.
Qed.

Lemma write_one_fits (fuel : nat) (mem : list byte) (b : af_local_buffer) :
  (2 <= fuel)%nat ->
  write_ready b = true ->
  mem <> [] ->
  Z.of_nat (length mem) <= max_buf - q_size b ->
  write fuel (uio_of mem) b =
  Done (0, set_resid (uio_of mem) 0) (set_q (q b ++ mem) b)
       [MtxLock; PollWake (receiver b) POLLIN; MtxUnlock; WakeAll may_read].
Proof.
  intros Hf Hw Hm Hl.
  pose proof (q_size_nonneg b) as Hq0.
  assert (Hlt : Z.of_nat (length mem) < 2 ^ 63) by (unfold max_buf in Hl; lia).
  pose proof (write_one fuel mem b Hf Hm Hlt Hw) as H.
  cbv zeta in H. rewrite Z.min_r, Z.sub_diag, Nat2Z.id, firstn_all in H by lia.
  exact H.
Qed.

Lemma read_one_drains (fuel : nat) (mem : list byte) (b : af_local_buffer) :
  (2 <= fuel)%nat ->
  within_capacity b ->
  q b <> [] ->
  q_size b <= Z.of_nat (length mem) < 2 ^ 63 ->
  exists d : uio,
    read fuel (uio_of mem) b =
    Done (0, d) (set_q [] b)
         [MtxLock; PollWake (sender b) POLLOUT; MtxUnlock; WakeAll may_write]
    /\ count (uio_of mem) d = q_size b
    /\ transferred (uio_of mem) d = q b.
Proof.
  intros Hf Hc Hq Hl.
  assert (Hr : read_ready b = true) by now apply read_ready_true.
  assert (Hm : mem <> []).
  { intros ->. unfold q_size in Hl. destruct (q b); [congruence|].
    cbn [length] in Hl. lia. }
  pose proof (read_one fuel mem b Hf Hm (proj2 Hl) Hc Hr) as H.
  cbv zeta in H. rewrite Z.min_l in H by lia.
  assert (Hn : Z.to_nat (q_size b) = length (q b))
    by (unfold q_size; apply Nat2Z.id).
  rewrite Hn, firstn_all, skipn_all in H.
  eexists. split; [exact H|].
  unfold transferred, count, memory, copy_to.
  cbn [set_resid uio_resid uio_of uio_iov map iov_base concat].
  split; [lia|].
  replace (Z.of_nat (length mem) - (Z.of_nat (length mem) - q_size b))
    with (q_size b) by lia.
  rewrite Hn, app_nil_r, firstn_app, Nat.sub_diag, firstn_all.
  cbn [firstn]. apply app_nil_r.
Qed.

Lemma write_into_empty (fuel : nat) (mem : list byte) (b : af_local_buffer) :
  (2 <= fuel)%nat ->
  q b = [] ->
  receiver b <> None ->
  max_buf <= Z.of_nat (length mem) < 2 ^ 63 ->
  write fuel (uio_of mem) b =
  Done (0, set_resid (uio_of mem) (Z.of_nat (length mem) - max_buf))
       (set_q (firstn (Z.to_nat max_buf) mem) b)
       [MtxLock; PollWake (receiver b) POLLIN; MtxUnlock; WakeAll may_read].
Proof.
  intros Hf Hq Hrc Hl.
  assert (Hqs : q_size b = 0) by (unfold q_size; now rewrite Hq).
  assert (Hw : write_ready b = true).
  { apply write_ready_true. split; [exact Hrc|]. rewrite Hqs. reflexivity. }
  rewrite write_one_fills.
  - rewrite Hqs, Z.sub_0_r, Hq. reflexivity.
  - exact Hf.
  - exact Hw.
  - rewrite Hqs, Z.sub_0_r. exact Hl.
Qed.

(** The steps of the scenario of a 10000-byte write, for a capacity given as
    a number of list elements. *)
Lemma short_write_steps (fuel M : nat) (mem : list byte) (b : af_local_buffer) :
  (2 <= fuel)%nat ->
  Z.of_nat M = max_buf ->
  Z.of_nat (length mem) = 10000 ->
  q b = [] ->
  receiver b <> None ->
  exists (d1 d2 d3 : uio) (b1 b2 b3 : af_local_buffer),
    write fuel (uio_of mem) b
    = Done (0, d1) b1 [MtxLock; PollWake (receiver b) POLLIN; MtxUnlock; WakeAll may_read]
    /\ count (uio_of mem) d1 = 8192
    /\ uio_resid d1 = 1808
    /\ transferred (uio_of mem) d1 = firstn M mem
    /\ q b1 = firstn M mem
    /\ write fuel (uio_of (skipn M mem)) b1 = Blocked may_write b1 [MtxLock]
    /\ read fuel (uio_of (blank M)) b1
       = Done (0, d2) b2 [MtxLock; PollWake (sender b) POLLOUT; MtxUnlock; WakeAll may_write]
    /\ transferred (uio_of (blank M)) d2 = firstn M mem
    /\ q b2 = []
    /\ write fuel (uio_of (skipn M mem)) b2
       = Done (0, d3) b3 [MtxLock; PollWake (receiver b) POLLIN; MtxUnlock; WakeAll may_read]
    /\ count (uio_of (skipn M mem)) d3 = 1808
    /\ q b3 = skipn M mem.
Proof.
  intros Hf HM Hlen Hq Hrc.
  assert (Hmax : max_buf = 8192) by reflexivity.
  assert (Hsrc : max_buf <= Z.of_nat (length mem) < 2 ^ 63)
    by (rewrite Hlen; split; [discriminate|reflexivity]).
  assert (HM' : Z.to_nat max_buf = M) by (rewrite <- HM; apply Nat2Z.id).
  assert (Hl1 : length (firstn M mem) = M) by (rewrite length_firstn; lia).
  assert (Hl2 : Z.of_nat (length (skipn M mem)) = 1808) by (rewrite length_skipn; lia).
  assert (Hrest : skipn M mem <> [])
    by (intros E; rewrite E in Hl2; discriminate Hl2).
  assert (Hq1 : q_size (set_q (firstn M mem) b) = max_buf)
    by (rewrite q_size_set_q, Hl1; exact HM).
  assert (Hc1 : within_capacity (set_q (firstn M mem) b))
    by (unfold within_capacity; rewrite Hq1; apply Z.le_refl).
  assert (Hne1 : q (set_q (firstn M mem) b) <> []).
  { cbn [set_q q]. intros E. rewrite E in Hl1. cbn [length] in Hl1. lia. }
  assert (Hbl : length (blank M) = M) by apply repeat_length.
  assert (Hdst : q_size (set_q (firstn M mem) b) <= Z.of_nat (length (blank M)) < 2 ^ 63).
  { rewrite Hbl, Hq1, HM, Hmax. split; [discriminate|reflexivity]. }
  destruct (read_one_drains fuel (blank M) (set_q (firstn M mem) b) Hf Hc1 Hne1 Hdst)
    as (d2 & H2 & _ & H2t).
  assert (Hw2 : write_ready (set_q [] b) = true).
  { apply write_ready_true. split; [exact Hrc|reflexivity]. }
  assert (Hfit : Z.of_nat (length (skipn M mem)) <= max_buf - q_size (set_q [] b)).
  { rewrite Hl2. discriminate. }
  exists (set_resid (uio_of mem) (Z.of_nat (length mem) - max_buf)), d2,
         (set_resid (uio_of (skipn M mem)) 0),
         (set_q (firstn M mem) b), (set_q [] b), (set_q (skipn M mem) b).
  split; [rewrite <- HM'; now apply write_into_empty|].
  split; [unfold count; cbn [uio_of set_resid uio_resid]; lia|].
  split; [cbn [set_resid uio_resid]; lia|].
  split.
  { unfold transferred, count, memory.
    cbn [uio_of set_resid uio_resid uio_iov map iov_base concat]. rewrite app_nil_r.
    replace (Z.of_nat (length mem) - (Z.of_nat (length mem) - max_buf))
      with (Z.of_nat M) by lia.
    now rewrite Nat2Z.id. }
  split; [reflexivity|].
  split.
  { apply write_blocks.
    - cbn [uio_of uio_resid]. lia.
    - exact Hrc.
    - rewrite Hq1. apply Z.le_refl. }
  split; [exact H2|].
  split; [exact H2t|].
  split; [reflexivity|].
  split; [exact (write_one_fits fuel (skipn M mem) (set_q [] b) Hf Hw2 Hrest Hfit)|].
  split; [unfold count; cbn [uio_of set_resid uio_resid]; lia|].
  reflexivity.
Qed.

(** ** Every way [read] can end *)

Lemma read_outcomes (fuel : nat) (data : uio) (b : af_local_buffer) :
  match read fuel data b with
  | Done (r, d) b' t =>
    r = 0
    /\ (uio_resid data = 0 \/ read_ready b = true
        \/ (d = data /\ b' = b /\ q b = [] /\ sender b = None))
  | Blocked cv b' t =>
    cv = may_read /\ b' = b /\ t = [MtxLock] /\ uio_resid data <> 0
    /\ q b = [] /\ sender b <> None
  | Thrown _ _ _ => False
  | Halted h _ _ => h <> AssertionFailed
  end.
Proof.
  destruct (Z.eq_dec (uio_resid data) 0) as [Hz|Hz].
  - rewrite read_zero by exact Hz. auto.
  - rewrite read_nonzero by exact Hz.
    destruct (q b) as [|x l] eqn:Hq.
    + destruct (sender b) as [f|] eqn:Hs.
      * rewrite read_events_cases.
        replace (q_empty b) with true by (symmetry; now apply q_empty_nil).
        rewrite Hs. cbn. repeat split; congruence.
      * pose proof (read_eof fuel data b Hz Hq Hs) as He.
        rewrite read_nonzero in He by exact Hz. rewrite He. auto 7.
    + assert (Hr : read_ready b = true) by (apply read_ready_true; congruence).
      rewrite read_ready_events, Hr by exact Hr.
      destruct (read_loop_shape fuel 0 data b) as (Hs & _).
      destruct (read_loop fuel 0 data b) as [d b' t|cv b' t|e b' t|h b' t] eqn:Hl;
        cbn in Hs; try contradiction.
      * auto.
      * eapply read_loop_halt. exact Hl.
Qed.

(** The trace of a call, whatever its outcome. *)
Lemma read_trace (fuel : nat) (data : uio) (b : af_local_buffer) :
  match read fuel data b with
  | Done _ _ t =>
    (uio_resid data = 0 /\ t = [])
    \/ (uio_resid data <> 0
        /\ (t = [MtxLock; MtxUnlock; WakeAll may_write]
            \/ t = [MtxLock; PollWake (sender b) POLLOUT; MtxUnlock; WakeAll may_write]))
  | Blocked _ _ t | Halted _ _ t | Thrown _ _ t => t = [MtxLock]
  end.
Proof.
  destruct (Z.eq_dec (uio_resid data) 0) as [Hz|Hz].
  - rewrite read_zero by exact Hz. auto.
  - rewrite read_nonzero by exact Hz.
    destruct (read_events_unlocked b =? 0); [reflexivity|].
    destruct (read_ready b).
    + destruct (read_loop_shape fuel 0 data b) as (_ & Ht & He & _).
      destruct (read_loop fuel 0 data b) as [d b' t|cv b' t|e b' t|h b' t];
        cbn in Ht, He; subst t; try reflexivity.
      right. split; [exact Hz|]. cbn [app]. unfold read_tail.
      destruct He as (_ & -> & _).
      destruct (truthy (write_events_unlocked b') && truthy POLLOUT); auto.
    + destruct (truthy (Z.land (read_events_unlocked b) POLLRDHUP)); auto.
Qed.

Lemma write_trace (fuel : nat) (data : uio) (b : af_local_buffer) :
  match write fuel data b with
  | Done _ _ t =>
    (uio_resid data = 0 /\ t = [])
    \/ (uio_resid data <> 0
        /\ (t = [MtxLock; MtxUnlock; WakeAll may_read]
            \/ t = [MtxLock; PollWake (receiver b) POLLIN; MtxUnlock; WakeAll may_read]))
  | Blocked _ _ t | Halted _ _ t | Thrown _ _ t => t = [MtxLock]
  end.
Proof.
  destruct (Z.eq_dec (uio_resid data) 0) as [Hz|Hz].
  - rewrite write_zero by exact Hz. auto.
  - rewrite write_nonzero by exact Hz.
    destruct (write_events_unlocked b =? 0); [reflexivity|].
    destruct (write_ready b).
    + destruct (write_loop_shape fuel 0 data b) as (_ & Ht & He & _).
      destruct (write_loop fuel 0 data b) as [d b' t|cv b' t|e b' t|h b' t];
        cbn in Ht, He; subst t; try reflexivity.
      right. split; [exact Hz|]. cbn [app]. unfold write_tail.
      destruct He as (-> & _).
      destruct (truthy (read_events_unlocked b') && truthy POLLIN); auto.
    + destruct (truthy (Z.land (write_events_unlocked b) POLLHUP)); auto.
Qed.

(** ** The heaps of the file layer *)

Lemma nth_error_app_here {A : Type} (l r : list A) (x : A) :
  nth_error (l ++ x :: r) (length l) = Some x.
Proof. induction l as [|a l IH]; [reflexivity|exact IH]. Qed.

Lemma nth_error_app_next {A : Type} (l r : list A) (x y : A) :
  nth_error (l ++ x :: y :: r) (S (length l)) = Some y.
Proof. induction l as [|a l IH]; [reflexivity|exact IH]. Qed.

Lemma store_at_app_here {A : Type} (l r : list A) (x z : A) :
  store_at (length l) z (l ++ x :: r) = l ++ z :: r.
Proof.
  induction l as [|a l IH]; [reflexivity|].
  change (a :: store_at (length l) z (l ++ x :: r) = a :: l ++ z :: r).
  now rewrite IH.
Qed.

Lemma store_at_app_next {A : Type} (l r : list A) (x y z : A) :
  store_at (S (length l)) z (l ++ x :: y :: r) = l ++ x :: z :: r.
Proof.
  induction l as [|a l IH]; [reflexivity|].
  change (a :: store_at (S (length l)) z (l ++ x :: y :: r) = a :: l ++ x :: z :: r).
  now rewrite IH.
Qed.

Lemma nth_error_store_at_other {A : Type} (l : list A) :
  forall (i j : nat) (x : A), i <> j -> nth_error (store_at i x l) j = nth_error l j.
Proof.
  induction l as [|a l IH]; intros [|i] [|j] x H; try reflexivity.
  - congruence.
  - cbn. apply IH. congruence.
Qed.

Lemma length_store_at {A : Type} (l : list A) :
  forall (i : nat) (x : A), length (store_at i x l) = length l.
Proof.
  induction l as [|a l IH]; intros [|i] x; try reflexivity.
  cbn. now rewrite IH.
Qed.

Lemma length_snoc {A : Type} (l : list A) (x : A) : length (l ++ [x]) = S (length l).
Proof. rewrite length_app. cbn. lia. Qed.

Lemma app_snoc {A : Type} (l : list A) (x y : A) : (l ++ [x]) ++ [y] = l ++ [x; y].
Proof. now rewrite <- app_assoc. Qed.

Lemma live_app {A : Type} (l r : list (option A)) :
  live (l ++ r) = (live l + live r)%nat.
Proof. unfold live. now rewrite filter_app, length_app. Qed.

(** ** Running the file layer *)

Lemma bind_done {S A B : Type} (m : M S A) (k : A -> M S B) (s s' : S) (a : A)
      (t : list event) :
  m s = Done a s' t -> bind m k s = after t (k a s').
Proof. intros H. unfold bind. now rewrite H. Qed.

Lemma bind_thrown {S A B : Type} (m : M S A) (k : A -> M S B) (s s' : S) (e : Z)
      (t : list event) :
  m s = Thrown e s' t -> bind m k s = Thrown e s' t.
Proof. intros H. unfold bind. now rewrite H. Qed.

Lemma at_buffer_done {A : Type} (p : nat) (m : M af_local_buffer A) (w : world)
      (b b' : af_local_buffer) (a : A) (t : list event) :
  nth_error (buffers w) p = Some (Some b) ->
  m b = Done a b' t ->
  at_buffer p m w = Done a (set_buffers (store_at p (Some b') (buffers w)) w) t.
Proof. intros Hp Hm. unfold at_buffer. now rewrite Hp, Hm. Qed.

Lemma af_local_alloc_run (s r : nat) (w : world) (bs br : af_local_buffer) :
  nth_error (buffers w) s = Some (Some bs) ->
  nth_error (buffers w) r = Some (Some br) ->
  s <> r ->
  af_local_alloc s r w
  = Done (length (pairs w))
         (set_pairs (pairs w ++ [Some (mk_af_local s r)])
            (set_buffers
               (store_at r (Some (set_refs (unsigned_wrap (refs br + 1)) br))
                  (store_at s (Some (set_refs (unsigned_wrap (refs bs + 1)) bs))
                     (buffers w))) w)) [].
Proof.
  intros Hs Hr Hne. unfold af_local_alloc.
  rewrite (bind_done _ _ _ _ _ _ (at_buffer_done s _ w bs _ tt [] Hs eq_refl)).
  cbn [after app].
  erewrite bind_done; [|apply at_buffer_done with (b := br); [|reflexivity]].
  - destruct w; reflexivity.
  - cbn [buffers set_buffers]. rewrite nth_error_store_at_other by exact Hne. exact Hr.
Qed.

Lemma afl_of_run (f : file_ptr) (w : world) (fl : file) (p : nat) (afl : af_local) :
  nth_error (files w) f = Some (Some fl) ->
  f_data fl = Some p ->
  nth_error (pairs w) p = Some (Some afl) ->
  afl_of f w = Done afl w [].
Proof.
  intros Hf Hd Hp. unfold afl_of, bind, the_file. rewrite Hf, Hd.
  unfold the_pair. now rewrite Hp.
Qed.

Lemma af_local_init_run (f : file_ptr) (w : world) (fl : file) (p : nat)
      (afl : af_local) (bs br : af_local_buffer) :
  nth_error (files w) f = Some (Some fl) ->
  f_data fl = Some p ->
  nth_error (pairs w) p = Some (Some afl) ->
  nth_error (buffers w) (send afl) = Some (Some bs) ->
  nth_error (buffers w) (receive afl) = Some (Some br) ->
  send afl <> receive afl ->
  sender bs = None ->
  receiver br = None ->
  af_local_init f w
  = Done 0
         (set_buffers
            (store_at (receive afl) (Some (set_receiver (Some f) br))
               (store_at (send afl) (Some (set_sender (Some f) bs)) (buffers w))) w)
         [].
Proof.
  intros Hf Hd Hp Hs Hr Hne Hsn Hrn. unfold af_local_init.
  rewrite (bind_done _ _ _ _ _ _ (afl_of_run f w fl p afl Hf Hd Hp)). cbn [after app].
  erewrite bind_done; [|apply at_buffer_done with (b := bs); [exact Hs|]].
  2: { unfold attach_sender, bind, gets. rewrite Hsn. reflexivity. }
  cbn [after app].
  erewrite bind_done.
  2: { apply at_buffer_done with (b := br).
       - cbn [buffers set_buffers].
         rewrite nth_error_store_at_other by exact Hne. exact Hr.
       - unfold attach_receiver, bind, gets. rewrite Hrn. reflexivity. }
  destruct w; reflexivity.
Qed.

Lemma falloc_run (w : world) :
  (live (files w) < file_limit w)%nat ->
  falloc_noinstall w
  = Done (length (files w)) (set_files (files w ++ [Some (mk_file 0 0 None)]) w) [].
Proof.
  intros H. apply Nat.ltb_lt in H. unfold falloc_noinstall, bind, gets.
  cbn [after app]. rewrite H. reflexivity.
Qed.

Lemma falloc_fails (w : world) :
  (file_limit w <= live (files w))%nat -> falloc_noinstall w = Thrown ENFILE w [].
Proof.
  intros H. apply Nat.ltb_ge in H. unfold falloc_noinstall, bind, gets.
  cbn [after app]. rewrite H. reflexivity.
Qed.

Lemma fdesc_run (f : file_ptr) (w : world) :
  (live (fdtable w) < fd_limit w)%nat ->
  fdesc_alloc f w
  = Done (Z.of_nat (length (fdtable w))) (set_fdtable (fdtable w ++ [Some f]) w) [].
Proof.
  intros H. apply Nat.ltb_lt in H. unfold fdesc_alloc, bind, gets.
  cbn [after app]. rewrite H. reflexivity.
Qed.

Lemma fdesc_fails (f : file_ptr) (w : world) :
  (fd_limit w <= live (fdtable w))%nat -> fdesc_alloc f w = Thrown EMFILE w [].
Proof.
  intros H. apply Nat.ltb_ge in H. unfold fdesc_alloc, bind, gets.
  cbn [after app]. rewrite H. reflexivity.
Qed.

Lemma finit_run (f : file_ptr) (flags type : Z) (p : nat) (w : world) (old : option file)
      (afl : af_local) (bs br : af_local_buffer) :
  nth_error (files w) f = Some old ->
  nth_error (pairs w) p = Some (Some afl) ->
  nth_error (buffers w) (send afl) = Some (Some bs) ->
  nth_error (buffers w) (receive afl) = Some (Some br) ->
  send afl <> receive afl ->
  sender bs = None ->
  receiver br = None ->
  finit f flags type p w
  = Done tt
         (set_buffers
            (store_at (receive afl) (Some (set_receiver (Some f) br))
               (store_at (send afl) (Some (set_sender (Some f) bs)) (buffers w)))
            (set_files (store_at f (Some (mk_file flags type (Some p))) (files w)) w))
         [].
Proof.
  intros Hf Hp Hs Hr Hne Hsn Hrn. unfold finit.
  unfold bind at 1. cbn [gets after app]. unfold bind at 1. cbn [modify after app].
  erewrite bind_done.
  2: { eapply af_local_init_run with (fl := mk_file flags type (Some p)) (p := p);
       try eassumption; try reflexivity.
       cbn [files set_files]. eapply nth_error_store_at. exact Hf. }
  reflexivity.
Qed.

Lemma store_at_twice {A : Type} (l : list A) :
  forall (i : nat) (x y : A), store_at i x (store_at i y l) = store_at i x l.
Proof.
  induction l as [|a l IH]; intros [|i] x y; try reflexivity.
  cbn. now rewrite IH.
Qed.

Lemma store_at_swap {A : Type} (l : list A) :
  forall (i j : nat) (x y : A),
    i <> j -> store_at i x (store_at j y l) = store_at j y (store_at i x l).
Proof.
  induction l as [|a l IH]; intros [|i] [|j] x y H; try reflexivity.
  - congruence.
  - cbn. rewrite IH by congruence. reflexivity.
Qed.

Lemma store_at_same {A : Type} (l : list A) :
  forall (i : nat) (x : A), nth_error l i = Some x -> store_at i x l = l.
Proof.
  induction l as [|a l IH]; intros [|i] x H; try reflexivity.
  - cbn in H. now inversion H.
  - cbn in *. now rewrite IH.
Qed.

Lemma set_buffers_same (w : world) : set_buffers (buffers w) w = w.
Proof. destruct w; reflexivity. Qed.

Lemma detach_sender_done (b : af_local_buffer) :
  detach_sender b
  = Done tt (state_of (detach_sender b)) (trace_of (detach_sender b)).
Proof. rewrite detach_sender_run. destruct (sender b); reflexivity. Qed.

Lemma detach_receiver_done (b : af_local_buffer) :
  detach_receiver b
  = Done tt (state_of (detach_receiver b)) (trace_of (detach_receiver b)).
Proof. rewrite detach_receiver_run. destruct (receiver b); reflexivity. Qed.

Lemma intrusive_ptr_release_run (p : nat) (w : world) (b : af_local_buffer) :
  nth_error (buffers w) p = Some (Some b) ->
  intrusive_ptr_release p w
  = Done tt (set_buffers (store_at p (released b) (buffers w)) w) [].
Proof.
  intros Hp. unfold intrusive_ptr_release.
  erewrite bind_done.
  2: { apply at_buffer_done with (b := b); [exact Hp|reflexivity]. }
  cbn [after app]. unfold released.
  destruct (refs b =? 1).
  - unfold bind, gets, modify. cbn [after app buffers set_buffers].
    rewrite store_at_twice. destruct w; reflexivity.
  - reflexivity.
Qed.

Lemma af_local_delete_run (p : nat) (w : world) (afl : af_local)
      (bs br : af_local_buffer) :
  nth_error (pairs w) p = Some (Some afl) ->
  nth_error (buffers w) (send afl) = Some (Some bs) ->
  nth_error (buffers w) (receive afl) = Some (Some br) ->
  send afl <> receive afl ->
  af_local_delete p w
  = Done tt
         (set_pairs (store_at p None (pairs w))
            (set_buffers
               (store_at (send afl) (released (state_of (detach_sender bs)))
                  (store_at (receive afl) (released (state_of (detach_receiver br)))
                     (buffers w))) w))
         (trace_of (detach_sender bs) ++ trace_of (detach_receiver br)).
Proof.
  intros Hp Hs Hr Hne. unfold af_local_delete.
  erewrite bind_done; [|unfold the_pair; rewrite Hp; reflexivity]. cbn [after app].
  erewrite bind_done.
  2: { apply at_buffer_done with (b := bs); [exact Hs|apply detach_sender_done]. }
  erewrite bind_done.
  2: { apply at_buffer_done with (b := br); [|apply detach_receiver_done].
       cbn [buffers set_buffers]. rewrite nth_error_store_at_other by exact Hne.
       exact Hr. }
  erewrite bind_done.
  2: { apply intrusive_ptr_release_run with (b := state_of (detach_receiver br)).
       cbn [buffers set_buffers]. eapply nth_error_store_at.
       rewrite nth_error_store_at_other by exact Hne. exact Hr. }
  erewrite bind_done.
  2: { apply intrusive_ptr_release_run with (b := state_of (detach_sender bs)).
       cbn [buffers set_buffers].
       rewrite !nth_error_store_at_other by congruence.
       eapply nth_error_store_at. exact Hs. }
  destruct w as [B P F D fl dl e].
  cbn [after app buffers pairs set_buffers set_pairs bind gets modify ret].
  rewrite store_at_twice.
  rewrite (store_at_swap _ (receive afl) (send afl)) by congruence.
  rewrite store_at_twice, !app_nil_r.
  rewrite (store_at_swap _ (send afl) (receive afl)) by exact Hne.
  reflexivity.
Qed.

Lemma at_buffer_on {A : Type} (p : nat) (m : M af_local_buffer A) (w : world)
      (b : af_local_buffer) :
  nth_error (buffers w) p = Some (Some b) ->
  state_of (at_buffer p m w)
  = set_buffers (store_at p (Some (state_of (m b))) (buffers w)) w
  /\ trace_of (at_buffer p m w) = trace_of (m b)
  /\ value_of (at_buffer p m w) = value_of (m b).
Proof.
  intros Hp. unfold at_buffer. rewrite Hp. destruct (m b); repeat split.
Qed.

Lemma at_buffer_kept {A : Type} (p : nat) (m : M af_local_buffer A) (w : world)
      (b : af_local_buffer) (a : A) (t : list event) :
  nth_error (buffers w) p = Some (Some b) ->
  m b = Done a b t ->
  at_buffer p m w = Done a w t.
Proof.
  intros Hp Hm. rewrite (at_buffer_done p m w b b a t Hp Hm).
  rewrite store_at_same by exact Hp. now rewrite set_buffers_same.
Qed.

Lemma afl_of_endpoint (w : world) (f : file_ptr) (p s r : nat) :
  endpoint w f p s r -> afl_of f w = Done (mk_af_local s r) w [].
Proof.
  intros [fl [Hf [Hd Hp]]]. exact (afl_of_run f w fl p _ Hf Hd Hp).
Qed.

Lemma af_local_write_endpoint (fuel : nat) (f : file_ptr) (data : uio) (flags : Z)
      (w : world) (p s r : nat) :
  endpoint w f p s r ->
  af_local_write fuel f data flags w = at_buffer s (write fuel data) w.
Proof.
  intros H. unfold af_local_write.
  erewrite bind_done; [|apply (afl_of_endpoint _ _ _ _ _ H)].
  cbn [send]. apply after_nil.
Qed.

Lemma af_local_read_endpoint (fuel : nat) (f : file_ptr) (data : uio) (flags : Z)
      (w : world) (p s r : nat) :
  endpoint w f p s r ->
  af_local_read fuel f data flags w = at_buffer r (read fuel data) w.
Proof.
  intros H. unfold af_local_read.
  erewrite bind_done; [|apply (afl_of_endpoint _ _ _ _ _ H)].
  cbn [receive]. apply after_nil.
Qed.

Lemma endpoint_set_buffers (w : world) (l : list (option af_local_buffer))
      (f : file_ptr) (p s r : nat) :
  endpoint w f p s r -> endpoint (set_buffers l w) f p s r.
Proof. intros H. exact H. Qed.

Lemma connected_sym (w : world) (fa fb : file_ptr) (pa pb c1 c2 : nat)
      (q1 q2 : list byte) :
  connected w fa fb pa pb c1 c2 q1 q2 -> connected w fb fa pb pa c2 c1 q2 q1.
Proof.
  intros (Hf & Hp & Hc & Ha & Hb & H1 & H2).
  repeat split; try assumption; congruence.
Qed.

Lemma connected_put (w : world) (fa fb : file_ptr) (pa pb c1 c2 : nat)
      (q1 q2 : list byte) (b : af_local_buffer) :
  connected w fa fb pa pb c1 c2 q1 q2 ->
  same_ends (mk_buffer q1 (Some fb) (Some fa) 2) b ->
  connected (set_buffers (store_at c1 (Some b) (buffers w)) w)
            fa fb pa pb c1 c2 (q b) q2.
Proof.
  intros (Hf & Hp & Hc & Ha & Hb & H1 & H2) (Hr & Hs & Hn).
  repeat split; try assumption.
  - unfold channel_at. cbn [buffers set_buffers].
    erewrite nth_error_store_at by exact H1.
    destruct b as [l r s n]. cbn in *. now subst.
  - unfold channel_at. cbn [buffers set_buffers].
    rewrite nth_error_store_at_other by exact Hc. exact H2.
Qed.

Lemma read_exactly (fuel : nat) (b : af_local_buffer) :
  (2 <= fuel)%nat ->
  q b <> [] ->
  within_capacity b ->
  read fuel (uio_of (blank (length (q b)))) b
  = Done (0, mk_uio [mk_iovec (q b) (q_size b)] 0) (set_q [] b)
         [MtxLock; PollWake (sender b) POLLOUT; MtxUnlock; WakeAll may_write].
Proof.
  intros Hfuel Hq Hcap.
  assert (Hlen : length (blank (length (q b))) = length (q b))
    by apply repeat_length.
  rewrite (read_one fuel (blank (length (q b))) b Hfuel).
  - rewrite Hlen. unfold q_size.
    rewrite Z.min_id, Nat2Z.id, Z.sub_diag, firstn_all, skipn_all.
    unfold copy_to. rewrite skipn_all2 by (rewrite Hlen; lia).
    rewrite app_nil_r. reflexivity.
  - intros E. rewrite E in Hlen. destruct (q b); [congruence|discriminate].
  - rewrite Hlen. unfold within_capacity, q_size, max_buf in Hcap. lia.
  - exact Hcap.
  - apply read_ready_true. exact Hq.
Qed.

Lemma af_local_close_run (f : file_ptr) (w : world) (fl : file) (p : nat)
      (afl : af_local) (bs br : af_local_buffer) :
  nth_error (files w) f = Some (Some fl) ->
  f_data fl = Some p ->
  nth_error (pairs w) p = Some (Some afl) ->
  nth_error (buffers w) (send afl) = Some (Some bs) ->
  nth_error (buffers w) (receive afl) = Some (Some br) ->
  send afl <> receive afl ->
  af_local_close f w
  = Done 0
         (set_files (store_at f (Some (mk_file (f_flags fl) (f_type fl) None)) (files w))
            (set_pairs (store_at p None (pairs w))
               (set_buffers
                  (store_at (send afl) (released (state_of (detach_sender bs)))
                     (store_at (receive afl) (released (state_of (detach_receiver br)))
                        (buffers w))) w)))
         (trace_of (detach_sender bs) ++ trace_of (detach_receiver br)).
Proof.
  intros Hf Hd Hp Hs Hr Hne. unfold af_local_close.
  erewrite bind_done; [|unfold the_file; rewrite Hf; reflexivity].
  rewrite Hd, after_nil.
  erewrite bind_done; [|exact (af_local_delete_run p w afl bs br Hp Hs Hr Hne)].
  destruct w as [B P F D l1 l2 e].
  cbn [bind gets modify ret after app files set_files set_pairs set_buffers
       buffers pairs fdtable file_limit fd_limit errno].
  now rewrite !app_nil_r.
Qed.

Lemma af_local_poll_run (f : file_ptr) (events : Z) (w : world) (p s r : nat)
      (bs br : af_local_buffer) :
  endpoint w f p s r ->
  channel_at w s bs ->
  channel_at w r br ->
  af_local_poll f events w
  = Done (Z.lor (if truthy (Z.land events POLLIN) then read_events_unlocked br else 0)
                (if truthy (Z.land events POLLOUT) then write_events_unlocked bs else 0))
         w
         ((if truthy (Z.land events POLLIN) then [MtxLock; MtxUnlock] else [])
          ++ (if truthy (Z.land events POLLOUT) then [MtxLock; MtxUnlock] else [])).
Proof.
  intros He Hs Hr. unfold af_local_poll.
  erewrite bind_done; [|exact (afl_of_endpoint w f p s r He)].
  cbn [send receive]. rewrite after_nil.
  assert (R : at_buffer r read_events w
              = Done (read_events_unlocked br) w [MtxLock; MtxUnlock])
    by (apply (at_buffer_kept r _ w br); [exact Hr|reflexivity]).
  assert (W : at_buffer s write_events w
              = Done (write_events_unlocked bs) w [MtxLock; MtxUnlock])
    by (apply (at_buffer_kept s _ w bs); [exact Hs|reflexivity]).
  destruct (truthy (Z.land events POLLIN)), (truthy (Z.land events POLLOUT)).
  - erewrite bind_done; [|erewrite bind_done; [|exact R]; reflexivity].
    erewrite bind_done; [|erewrite bind_done; [|exact W]; reflexivity].
    reflexivity.
  - erewrite bind_done; [|erewrite bind_done; [|exact R]; reflexivity].
    cbn [bind ret after app]. now rewrite Z.lor_0_r.
  - erewrite bind_done; [|reflexivity].
    erewrite bind_done; [|erewrite bind_done; [|exact W]; reflexivity].
    reflexivity.
  - reflexivity.
Qed.

Lemma try_catch_done {S A : Type} (m : M S A) (h : Z -> M S A) (s s' : S) (a : A)
      (t : list event) :
  m s = Done a s' t -> try_catch m h s = Done a s' t.
Proof. intros H. unfold try_catch. now rewrite H. Qed.

Lemma try_catch_thrown {S A : Type} (m : M S A) (h : Z -> M S A) (s s' : S) (e : Z)
      (t : list event) :
  m s = Thrown e s' t -> try_catch m h s = after t (h e s').
Proof. intros H. unfold try_catch. now rewrite H. Qed.

Lemma unwinding_done {S A : Type} (m : M S A) (dtor : M S unit) (s s' : S) (a : A)
      (t : list event) :
  m s = Done a s' t -> unwinding m dtor s = Done a s' t.
Proof. apply try_catch_done. Qed.

Lemma unwinding_thrown {S A : Type} (m : M S A) (dtor : M S unit) (s s' s'' : S)
      (e : Z) (t t' : list event) :
  m s = Thrown e s' t ->
  dtor s' = Done tt s'' t' ->
  unwinding m dtor s = Thrown e s'' (t ++ t').
Proof.
  intros Hm Hd. unfold unwinding. rewrite (try_catch_thrown _ _ _ _ _ _ Hm).
  unfold bind. rewrite Hd. unfold throw. cbn [after]. now rewrite app_nil_r.
Qed.

Lemma fdrop_fresh (f : file_ptr) (w : world) (fl : file) :
  nth_error (files w) f = Some (Some fl) ->
  f_data fl = None ->
  fdrop f w = Done tt (set_files (store_at f None (files w)) w) [].
Proof.
  intros Hf Hd. unfold fdrop.
  erewrite bind_done; [|unfold the_file; rewrite Hf; reflexivity].
  rewrite Hd. reflexivity.
Qed.

Lemma fdrop_run (f : file_ptr) (w : world) (fl : file) (p : nat)
      (afl : af_local) (bs br : af_local_buffer) :
  nth_error (files w) f = Some (Some fl) ->
  f_data fl = Some p ->
  nth_error (pairs w) p = Some (Some afl) ->
  nth_error (buffers w) (send afl) = Some (Some bs) ->
  nth_error (buffers w) (receive afl) = Some (Some br) ->
  send afl <> receive afl ->
  fdrop f w
  = Done tt
         (set_files (store_at f None (files w))
            (set_pairs (store_at p None (pairs w))
               (set_buffers
                  (store_at (send afl) (released (state_of (detach_sender bs)))
                     (store_at (receive afl) (released (state_of (detach_receiver br)))
                        (buffers w))) w)))
         (trace_of (detach_sender bs) ++ trace_of (detach_receiver br)).
Proof.
  intros Hf Hd Hp Hs Hr Hne. unfold fdrop.
  erewrite bind_done; [|unfold the_file; rewrite Hf; reflexivity].
  rewrite Hd. cbn [is_null]. rewrite after_nil.
  erewrite bind_done; [|exact (af_local_close_run f w fl p afl bs br Hf Hd Hp Hs Hr Hne)].
  destruct w as [B P F D l1 l2 e].
  cbn [bind gets modify ret after app files set_files set_pairs set_buffers
       buffers pairs fdtable file_limit fd_limit errno].
  rewrite store_at_twice. now rewrite !app_nil_r.
Qed.

(** Normalising the heaps after a step of the file layer. *)
Ltac heaps :=
  cbv beta iota delta [buffers pairs files fdtable file_limit fd_limit errno
                       set_buffers set_pairs set_files set_fdtable set_errno
                       send receive f_flags f_type f_data];
  rewrite ?after_nil, ?length_snoc, ?app_snoc;
  repeat first [ rewrite store_at_app_here | rewrite store_at_app_next ].

Ltac here :=
  cbv beta iota delta [buffers pairs files fdtable file_limit fd_limit errno
                       send receive];
  first [ apply nth_error_app_here | apply nth_error_app_next ].

(** ** Building a pair *)

Lemma socketpair_run (sv : Z * Z) (w : world) :
  (live (files w) + 2 <= file_limit w)%nat ->
  (live (fdtable w) + 2 <= fd_limit w)%nat ->
  socketpair_af_local SOCK_STREAM 0 sv w
  = Done (0, (Z.of_nat (length (fdtable w)), Z.of_nat (S (length (fdtable w)))))
         (mk_world
            (buffers w
             ++ [Some (mk_buffer [] (Some (S (length (files w))))
                                 (Some (length (files w))) 2);
                 Some (mk_buffer [] (Some (length (files w)))
                                 (Some (S (length (files w)))) 2)])
            (pairs w
             ++ [Some (mk_af_local (length (buffers w)) (S (length (buffers w))));
                 Some (mk_af_local (S (length (buffers w))) (length (buffers w)))])
            (files w
             ++ [Some (mk_file (Z.lor FREAD FWRITE) DTYPE_UNSPEC
                               (Some (length (pairs w))));
                 Some (mk_file (Z.lor FREAD FWRITE) DTYPE_UNSPEC
                               (Some (S (length (pairs w)))))])
            (fdtable w ++ [Some (length (files w)); Some (S (length (files w)))])
            (file_limit w) (fd_limit w) (errno w))
         [].
Proof.
  intros Hf Hd. destruct w as [B P F D fl dl e].
  cbn [buffers pairs files fdtable file_limit fd_limit errno] in *.
  unfold socketpair_af_local.
  unfold bind at 1. cbn [assert Z.eqb SOCK_STREAM Pos.eqb ret after app].
  unfold bind at 1. cbn [assert Z.eqb ret after app].
  rewrite !after_nil.
  (* the two channels *)
  erewrite bind_done; [|reflexivity]. heaps.
  erewrite bind_done; [|reflexivity]. heaps.
  (* the two pairs *)
  erewrite bind_done;
    [|eapply af_local_alloc_run; [here|here|apply Nat.neq_succ_diag_r]]. heaps.
  erewrite bind_done;
    [|eapply af_local_alloc_run; [here|here|apply Nat.neq_succ_diag_l]]. heaps.
  (* the two files *)
  erewrite bind_done.
  2: { unfold try_catch. erewrite bind_done; [|apply falloc_run; cbn [files file_limit]; lia]. heaps.
       erewrite bind_done.
       2: { unfold unwinding, try_catch. rewrite falloc_run; [reflexivity|].
            cbn [files file_limit]. rewrite live_app. cbn [live filter is_null negb length]. lia. }
       heaps. reflexivity. }
  heaps.
  (* installation and activation *)
  unfold try_catch.
  erewrite bind_done.
  2: { eapply finit_run; try here; try reflexivity. cbn. apply Nat.neq_succ_diag_r. }
  heaps.
  erewrite bind_done.
  2: { eapply finit_run; try here; try reflexivity. cbn. apply Nat.neq_succ_diag_l. }
  heaps.
  (* the two descriptors *)
  unfold unwinding, try_catch.
  erewrite bind_done; [|apply fdesc_run; cbn [fdtable fd_limit]; lia]. heaps.
  erewrite bind_done.
  2: { apply fdesc_run. cbn [fdtable fd_limit]. rewrite live_app. cbn [live filter is_null negb length]. lia. }
  heaps. cbn [ret after app set_refs set_sender set_receiver unsigned_wrap refs q
              receiver sender af_local_buffer_new].
  reflexivity.
Qed.

Lemma socketpair_leaves_connected (sv : Z * Z) (w : world) :
  (live (files w) + 2 <= file_limit w)%nat ->
  (live (fdtable w) + 2 <= fd_limit w)%nat ->
  connected (state_of (socketpair_af_local SOCK_STREAM 0 sv w))
            (length (files w)) (S (length (files w)))
            (length (pairs w)) (S (length (pairs w)))
            (length (buffers w)) (S (length (buffers w))) [] [].
Proof.
  intros Hf Hd. rewrite socketpair_run by assumption.
  unfold connected, endpoint, channel_at, state_of.
  cbn [buffers pairs files].
  repeat split; try apply nth_error_app_here; try apply nth_error_app_next;
    try apply Nat.neq_succ_diag_r.
  - eexists. split; [apply nth_error_app_here|]. split; [reflexivity|].
    apply nth_error_app_here.
  - eexists. split; [apply nth_error_app_next|]. split; [reflexivity|].
    apply nth_error_app_next.
Qed.

Lemma a_pair_connected : connected a_pair 0%nat 1%nat 0%nat 1%nat 0%nat 1%nat [] [].
Proof.
  apply (socketpair_leaves_connected (0, 0) (boot 2 2)); cbn; lia.
Qed.

(** ** Closing the endpoints of a pair *)

Lemma close_one_end (w : world) (fa fb : file_ptr) (pa pb c1 c2 : nat)
      (q1 q2 : list byte) :
  connected w fa fb pa pb c1 c2 q1 q2 ->
  exists w1 : world,
    af_local_close fa w
    = Done 0 w1 [MtxLock; PollWake (Some fb) POLLRDHUP; WakeAll may_read; MtxUnlock;
                 MtxLock; PollWake (Some fb) POLLHUP; WakeAll may_write; MtxUnlock]
    /\ channel_at w1 c1 (mk_buffer q1 (Some fb) None 1)
    /\ channel_at w1 c2 (mk_buffer q2 None (Some fb) 1)
    /\ nth_error (pairs w1) pa = Some None
    /\ endpoint w1 fb pb c2 c1
    /\ (forall c : nat, c <> c1 -> c <> c2 ->
                        nth_error (buffers w1) c = nth_error (buffers w) c)
    /\ (forall p : nat, p <> pa -> nth_error (pairs w1) p = nth_error (pairs w) p)
    /\ (forall f : file_ptr, f <> fa -> nth_error (files w1) f = nth_error (files w) f)
    /\ fdtable w1 = fdtable w.
Proof.
  intros (Hf & Hp & Hc & (fla & Hfa & Hda & Hpa) & (flb & Hfb & Hdb & Hpb) & H1 & H2).
  unfold channel_at in *.
  pose proof (af_local_close_run fa w fla pa (mk_af_local c1 c2) _ _
                Hfa Hda Hpa H1 H2 Hc) as E1.
  cbn [send receive] in E1.
  eexists. split; [exact E1|].
  unfold endpoint.
  cbn [buffers pairs files fdtable set_files set_pairs set_buffers].
  split.
  { apply (nth_error_store_at _ c1 _ (Some (mk_buffer q1 (Some fb) (Some fa) 2))).
    rewrite nth_error_store_at_other by congruence. exact H1. }
  split.
  { rewrite nth_error_store_at_other by congruence.
    exact (nth_error_store_at _ c2 _ _ H2). }
  split; [exact (nth_error_store_at _ pa _ _ Hpa)|].
  split.
  { exists flb. rewrite !nth_error_store_at_other by congruence. auto. }
  split.
  { intros c Hc1 Hc2. rewrite !nth_error_store_at_other by congruence. reflexivity. }
  split.
  { intros p Hp1. rewrite !nth_error_store_at_other by congruence. reflexivity. }
  split; [|reflexivity].
  intros f Hf1. rewrite !nth_error_store_at_other by congruence. reflexivity.
Qed.

Lemma close_other_end (w : world) (fb : file_ptr) (pb c1 c2 : nat)
      (q1 q2 : list byte) :
  c1 <> c2 ->
  endpoint w fb pb c2 c1 ->
  channel_at w c1 (mk_buffer q1 (Some fb) None 1) ->
  channel_at w c2 (mk_buffer q2 None (Some fb) 1) ->
  exists w2 : world,
    af_local_close fb w
    = Done 0 w2 [MtxLock; WakeAll may_read; MtxUnlock;
                 MtxLock; WakeAll may_write; MtxUnlock]
    /\ nth_error (buffers w2) c1 = Some None
    /\ nth_error (buffers w2) c2 = Some None
    /\ nth_error (pairs w2) pb = Some None
    /\ (forall c : nat, c <> c1 -> c <> c2 ->
                        nth_error (buffers w2) c = nth_error (buffers w) c)
    /\ (forall p : nat, p <> pb -> nth_error (pairs w2) p = nth_error (pairs w) p)
    /\ (forall f : file_ptr, f <> fb -> nth_error (files w2) f = nth_error (files w) f)
    /\ fdtable w2 = fdtable w.
Proof.
  intros Hc (flb & Hfb & Hdb & Hpb) H1 H2. unfold channel_at in *.
  pose proof (af_local_close_run fb w flb pb (mk_af_local c2 c1) _ _
                Hfb Hdb Hpb H2 H1 (not_eq_sym Hc)) as E2.
  cbn [send receive] in E2.
  eexists. split; [exact E2|].
  cbn [buffers pairs files fdtable set_files set_pairs set_buffers].
  split.
  { rewrite nth_error_store_at_other by congruence.
    exact (nth_error_store_at _ c1 _ _ H1). }
  split.
  { apply (nth_error_store_at _ c2 _ (Some (mk_buffer q2 None (Some fb) 1))).
    rewrite nth_error_store_at_other by congruence. exact H2. }
  split; [exact (nth_error_store_at _ pb _ _ Hpb)|].
  split.
  { intros c Hc1 Hc2. rewrite !nth_error_store_at_other by congruence. reflexivity. }
  split.
  { intros p Hp1. rewrite !nth_error_store_at_other by congruence. reflexivity. }
  split; [|reflexivity].
  intros f Hf1. rewrite !nth_error_store_at_other by congruence. reflexivity.
Qed.

(** ** A pair that cannot be completed *)

Ltac settle :=
  repeat match goal with
         | |- context [released ?b] =>
           let v := eval cbn in (released b) in
           progress change (released b) with v
         | |- context [trace_of (?m ?b)] =>
           let v := eval cbn in (trace_of (m b)) in
           progress change (trace_of (m b)) with v
         end.

Ltac counted :=
  cbn [set_refs set_sender set_receiver unsigned_wrap refs q receiver sender
       af_local_buffer_new Z.add Z.modulo Z.pow].

Ltac allocs :=
  unfold socketpair_af_local;
  unfold bind at 1; cbn [assert Z.eqb SOCK_STREAM Pos.eqb ret after app];
  unfold bind at 1; cbn [assert Z.eqb ret after app];
  rewrite !after_nil;
  (erewrite bind_done; [|reflexivity]); heaps;
  (erewrite bind_done; [|reflexivity]); heaps;
  (erewrite bind_done;
   [|eapply af_local_alloc_run; [here|here|apply Nat.neq_succ_diag_r]]); heaps;
  (erewrite bind_done;
   [|eapply af_local_alloc_run; [here|here|apply Nat.neq_succ_diag_l]]); heaps;
  counted.

Ltac deletes :=
  (erewrite bind_done; [|reflexivity]); heaps;
  (erewrite bind_done;
   [|eapply af_local_delete_run; [here|here|here|apply Nat.neq_succ_diag_l]]);
  heaps; settle;
  (erewrite bind_done;
   [|eapply af_local_delete_run; [here|here|here|apply Nat.neq_succ_diag_r]]);
  heaps; settle.

Lemma socketpair_no_file (sv : Z * Z) (w : world) :
  (file_limit w <= live (files w))%nat ->
  socketpair_af_local SOCK_STREAM 0 sv w
  = Done (-1, sv)
         (mk_world (buffers w ++ [None; None]) (pairs w ++ [None; None])
                   (files w) (fdtable w) (file_limit w) (fd_limit w) ENFILE)
         [MtxLock; MtxUnlock; MtxLock; MtxUnlock; MtxLock; MtxUnlock; MtxLock; MtxUnlock].
Proof.
  intros Hf. destruct w as [B P F D fl dl e].
  cbn [buffers pairs files fdtable file_limit fd_limit errno] in *.
  allocs.
  erewrite bind_done.
  2: { erewrite try_catch_thrown.
       2: { erewrite bind_thrown; [reflexivity|].
            apply falloc_fails. cbn [files file_limit]. exact Hf. }
       rewrite after_nil. deletes. reflexivity. }
  reflexivity.
Qed.

Lemma socketpair_one_file (sv : Z * Z) (w : world) :
  (live (files w) < file_limit w)%nat ->
  (file_limit w <= live (files w) + 1)%nat ->
  socketpair_af_local SOCK_STREAM 0 sv w
  = Done (-1, sv)
         (mk_world (buffers w ++ [None; None]) (pairs w ++ [None; None])
                   (files w ++ [None]) (fdtable w) (file_limit w) (fd_limit w) ENFILE)
         [MtxLock; MtxUnlock; MtxLock; MtxUnlock; MtxLock; MtxUnlock; MtxLock; MtxUnlock].
Proof.
  intros Hf Hf'. destruct w as [B P F D fl dl e].
  cbn [buffers pairs files fdtable file_limit fd_limit errno] in *.
  allocs.
  erewrite bind_done.
  2: { erewrite try_catch_thrown.
       2: { erewrite bind_done; [|apply falloc_run; cbn [files file_limit]; lia]. heaps.
            erewrite bind_thrown; [reflexivity|].
            eapply unwinding_thrown.
            - apply falloc_fails. cbn [files file_limit]. rewrite live_app.
              cbn [live filter is_null negb length]. lia.
            - eapply fdrop_fresh; [here|reflexivity]. }
       heaps. deletes. reflexivity. }
  reflexivity.
Qed.

Ltac two_files Hf :=
  erewrite bind_done;
  [|erewrite try_catch_done; [reflexivity|];
    (erewrite bind_done; [|apply falloc_run; cbn [files file_limit]; lia]); heaps;
    (erewrite bind_done;
     [|eapply unwinding_done; apply falloc_run; cbn [files file_limit];
       rewrite live_app; cbn [live filter is_null negb length]; lia]);
    heaps; reflexivity];
  heaps.

Ltac two_finits :=
  (erewrite bind_done;
   [|eapply finit_run; try here; try reflexivity; cbn; apply Nat.neq_succ_diag_r]);
  heaps;
  (erewrite bind_done;
   [|eapply finit_run; try here; try reflexivity; cbn; apply Nat.neq_succ_diag_l]);
  heaps; counted.

Ltac two_fdrops :=
  (erewrite bind_done;
   [|eapply fdrop_run;
     [here|reflexivity|here|here|here|cbn; apply Nat.neq_succ_diag_l]]);
  heaps; settle;
  (erewrite fdrop_run;
   [|here|reflexivity|here|here|here|cbn; apply Nat.neq_succ_diag_r]);
  heaps; settle.

Lemma socketpair_no_descriptor (sv : Z * Z) (w : world) :
  (live (files w) + 2 <= file_limit w)%nat ->
  (fd_limit w <= live (fdtable w))%nat ->
  socketpair_af_local SOCK_STREAM 0 sv w
  = Done (-1, sv)
         (mk_world (buffers w ++ [None; None]) (pairs w ++ [None; None])
                   (files w ++ [None; None]) (fdtable w)
                   (file_limit w) (fd_limit w) EMFILE)
         [MtxLock; PollWake (Some (length (files w))) POLLRDHUP; WakeAll may_read;
          MtxUnlock;
          MtxLock; PollWake (Some (length (files w))) POLLHUP; WakeAll may_write;
          MtxUnlock;
          MtxLock; WakeAll may_read; MtxUnlock;
          MtxLock; WakeAll may_write; MtxUnlock].
Proof.
  intros Hf Hd. destruct w as [B P F D fl dl e].
  cbn [buffers pairs files fdtable file_limit fd_limit errno] in *.
  allocs. two_files Hf.
  erewrite try_catch_thrown.
  2: { two_finits.
       eapply unwinding_thrown.
       - erewrite bind_thrown; [reflexivity|].
         apply fdesc_fails. cbn [fdtable fd_limit]. exact Hd.
       - two_fdrops. reflexivity. }
  reflexivity.
Qed.

Lemma socketpair_one_descriptor (sv : Z * Z) (w : world) :
  (live (files w) + 2 <= file_limit w)%nat ->
  (live (fdtable w) < fd_limit w)%nat ->
  (fd_limit w <= live (fdtable w) + 1)%nat ->
  socketpair_af_local SOCK_STREAM 0 sv w
  = Done (-1, sv)
         (mk_world (buffers w ++ [None; None]) (pairs w ++ [None; None])
                   (files w ++ [None; None]) (fdtable w ++ [None])
                   (file_limit w) (fd_limit w) EMFILE)
         [MtxLock; PollWake (Some (length (files w))) POLLRDHUP; WakeAll may_read;
          MtxUnlock;
          MtxLock; PollWake (Some (length (files w))) POLLHUP; WakeAll may_write;
          MtxUnlock;
          MtxLock; WakeAll may_read; MtxUnlock;
          MtxLock; WakeAll may_write; MtxUnlock].
Proof.
  intros Hf Hd Hd'. destruct w as [B P F D fl dl e].
  cbn [buffers pairs files fdtable file_limit fd_limit errno] in *.
  allocs. two_files Hf.
  erewrite try_catch_thrown.
  2: { two_finits.
       eapply unwinding_thrown.
       - erewrite bind_done; [|apply fdesc_run; cbn [fdtable fd_limit]; exact Hd].
         heaps.
         eapply unwinding_thrown.
         + erewrite bind_thrown; [reflexivity|].
           apply fdesc_fails. cbn [fdtable fd_limit]. rewrite live_app.
           cbn [live filter is_null negb length]. lia.
         + unfold fdesc_free. rewrite Nat2Z.id. 
           cbn [bind gets modify after app fdtable set_fdtable]. heaps. reflexivity.
       - two_fdrops. reflexivity. }
  reflexivity.
Qed.


(** * Properties of the specification *)

(** C3. In every channel state the readiness masks are exactly these: the
    read mask has POLLIN iff the queue is not empty and POLLRDHUP iff the
    sender is detached; the write mask has POLLOUT iff the receiver is
    attached and the queue is below capacity, and POLLHUP iff the receiver is
    detached; neither mask has any other bit, and the two locked queries
    return these masks and leave the channel as it was. *)
Theorem readiness_masks (b : af_local_buffer) :
  (Z.land (read_events_unlocked b) POLLIN <> 0 <-> q b <> [])
  /\ (Z.land (read_events_unlocked b) POLLRDHUP <> 0 <-> sender b = None)
  /\ (Z.land (write_events_unlocked b) POLLOUT <> 0
      <-> receiver b <> None /\ q_size b < max_buf)
  /\ (Z.land (write_events_unlocked b) POLLHUP <> 0 <-> receiver b = None)
  /\ Z.land (read_events_unlocked b) (Z.lnot (Z.lor POLLIN POLLRDHUP)) = 0
  /\ Z.land (write_events_unlocked b) (Z.lnot (Z.lor POLLOUT POLLHUP)) = 0
  /\ read_events b = Done (read_events_unlocked b) b [MtxLock; MtxUnlock]
  /\ write_events b = Done (write_events_unlocked b) b [MtxLock; MtxUnlock].
Proof.
  split; [apply read_events_pollin|].
  split; [apply read_events_pollrdhup|].
  split; [apply write_events_pollout|].
  split; [apply write_events_pollhup|].
  split.
  { rewrite read_events_cases.
    destruct (q_empty b), (is_null (sender b)); reflexivity. }
  split.
  { rewrite write_events_cases.
    destruct (is_null (receiver b)), (q_size b <? max_buf); reflexivity. }
  split; reflexivity.
Qed.

(** C9. A [read] or a [write] whose request is of length zero returns 0 at
    once: it does not wait, calls no collaborator, and leaves the channel
    (queue, sender, receiver) and the descriptor as they were. *)
Theorem zero_length_is_a_no_op (fuel : nat) (data : uio) (b : af_local_buffer) :
  uio_resid data = 0 ->
  read fuel data b = Done (0, data) b []
  /\ write fuel data b = Done (0, data) b [].
Proof.
  intros H. split; [now apply read_zero | now apply write_zero].
Qed.

Lemma zero_length_is_a_no_op_witness :
  read 0 (uio_of []) (channel [x61; x62]) = Done (0, uio_of []) (channel [x61; x62]) []
  /\ write 0 (uio_of []) (channel [x61; x62]) = Done (0, uio_of []) (channel [x61; x62]) [].
Proof.
  apply (@zero_length_is_a_no_op 0 (uio_of []) (channel [x61; x62])). reflexivity.
Defined.

(** C10. A zero-length [write] returns 0, not EPIPE, on a channel whose
    receiver is detached, and a zero-length [read] returns 0 on a channel
    whose sender is detached: the test of the length comes before the lock
    and before the masks are looked at, so the trace of the call is empty,
    whereas a request of one byte or more takes the lock and meets the
    hang-up (EPIPE for the write, end of stream with a wake-up of the writers
    for the read of an empty queue). *)
Theorem zero_length_precedes_hangup (fuel : nat) (data data' : uio)
        (bw br : af_local_buffer) :
  uio_resid data = 0 ->
  uio_resid data' <> 0 ->
  receiver bw = None ->
  sender br = None ->
  q br = [] ->
  (write fuel data bw = Done (0, data) bw []
   /\ write fuel data' bw = Done (EPIPE, data') bw [MtxLock; MtxUnlock; WakeAll may_read])
  /\ (read fuel data br = Done (0, data) br []
      /\ Z.land (read_events_unlocked br) POLLRDHUP <> 0
      /\ read fuel data' br = Done (0, data') br [MtxLock; MtxUnlock; WakeAll may_write]).
Proof.
  intros Hz Hnz Hr Hs Hq. repeat split.
  - now apply write_zero.
  - now apply write_epipe.
  - now apply read_zero.
  - apply read_events_pollrdhup. exact Hs.
  - now apply read_eof.
Qed.

Lemma zero_length_precedes_hangup_witness :
  (write 2 (uio_of []) (mk_buffer [x61] None (Some 1%nat) 1)
   = Done (0, uio_of []) (mk_buffer [x61] None (Some 1%nat) 1) []
   /\ write 2 (uio_of [x62]) (mk_buffer [x61] None (Some 1%nat) 1)
      = Done (EPIPE, uio_of [x62]) (mk_buffer [x61] None (Some 1%nat) 1)
             [MtxLock; MtxUnlock; WakeAll may_read])
  /\ (read 2 (uio_of []) (mk_buffer [] (Some 2%nat) None 1)
      = Done (0, uio_of []) (mk_buffer [] (Some 2%nat) None 1) []
      /\ Z.land (read_events_unlocked (mk_buffer [] (Some 2%nat) None 1)) POLLRDHUP <> 0
      /\ read 2 (uio_of [x62]) (mk_buffer [] (Some 2%nat) None 1)
         = Done (0, uio_of [x62]) (mk_buffer [] (Some 2%nat) None 1)
                [MtxLock; MtxUnlock; WakeAll may_write]).
Proof.
  apply (@zero_length_precedes_hangup 2 (uio_of []) (uio_of [x62])
           (mk_buffer [x61] None (Some 1%nat) 1) (mk_buffer [] (Some 2%nat) None 1));
    try reflexivity.
  cbn. discriminate.
Defined.

(** C4. On a channel whose receiver is detached every write of one byte or
    more fails with EPIPE, takes nothing from the source and leaves the
    channel as it was; that holds for the channel [detach_receiver] leaves,
    whatever calls follow.  A writer parked in the wait for write-readiness
    (receiver attached, queue full) is woken by [detach_receiver], which wakes
    all waiters of [may_write], and its write then fails with EPIPE, the queue
    untouched.  EPIPE is the one error [write] returns, only on a detached
    receiver, as an ordinary result: no assertion fails and nothing is
    thrown. *)
Theorem half_close_write (fuel : nat) (data : uio) (ops : list op)
        (b0 bd bf : af_local_buffer) :
  uio_resid data <> 0 ->
  forallb no_attach ops = true ->
  receiver bd = None ->
  receiver bf <> None ->
  max_buf <= q_size bf ->
  write fuel data bd = Done (EPIPE, data) bd [MtxLock; MtxUnlock; WakeAll may_read]
  /\ write fuel data (run ops (state_of (detach_receiver b0)))
     = Done (EPIPE, data) (run ops (state_of (detach_receiver b0)))
            [MtxLock; MtxUnlock; WakeAll may_read]
  /\ (write fuel data bf = Blocked may_write bf [MtxLock]
      /\ In (WakeAll may_write) (trace_of (detach_receiver bf))
      /\ q (state_of (detach_receiver bf)) = q bf
      /\ write fuel data (state_of (detach_receiver bf))
         = Done (EPIPE, data) (state_of (detach_receiver bf))
                [MtxLock; MtxUnlock; WakeAll may_read])
  /\ (forall (fuel' : nat) (data' : uio) (b : af_local_buffer),
         match write fuel' data' b with
         | Done (err, _) _ _ => err = 0 \/ (err = EPIPE /\ receiver b = None)
         | Blocked cv _ _ => cv = may_write
         | Thrown _ _ _ => False
         | Halted h _ _ => h <> AssertionFailed
         end).
Proof.
  intros Hnz Hops Hd Hf Hfull.
  assert (Hdet : forall b, receiver (state_of (detach_receiver b)) = None).
  { intros b. rewrite detach_receiver_run. destruct (receiver b) eqn:E; cbn; auto. }
  split; [now apply write_epipe|].
  split.
  { apply write_epipe; [exact Hnz|].
    apply (proj2 (@run_ends ops (state_of (detach_receiver b0)) Hops)).
    apply Hdet. }
  split.
  { split; [now apply write_blocks|].
    split.
    - rewrite detach_receiver_run. destruct (receiver bf); [|congruence].
      cbn [trace_of]. apply in_cons, in_or_app. right. now left.
    - split.
      + rewrite detach_receiver_run. destruct (receiver bf); reflexivity.
      + apply write_epipe; [exact Hnz|apply Hdet]. }
  intros fuel' data' b. pose proof (write_outcomes fuel' data' b) as H.
  destruct (write fuel' data' b) as [[err d] b' t|cv b' t|e b' t|h b' t].
  - destruct H as [[H _]|(H & _ & _ & _ & Hr)]; auto.
  - apply H.
  - exact H.
  - exact H.
Qed.

Lemma half_close_write_witness :
  write 2 (uio_of [x62]) (mk_buffer [x61] None (Some 1%nat) 1)
  = Done (EPIPE, uio_of [x62]) (mk_buffer [x61] None (Some 1%nat) 1)
         [MtxLock; MtxUnlock; WakeAll may_read]
  /\ write 2 (uio_of [x62])
           (run [OpRead 2 (uio_of (blank 1)); OpWrite 2 (uio_of [x63])]
                (state_of (detach_receiver (channel [x61]))))
     = Done (EPIPE, uio_of [x62])
            (run [OpRead 2 (uio_of (blank 1)); OpWrite 2 (uio_of [x63])]
                 (state_of (detach_receiver (channel [x61]))))
            [MtxLock; MtxUnlock; WakeAll may_read]
  /\ write 2 (uio_of [x62]) (channel full_queue)
     = Blocked may_write (channel full_queue) [MtxLock]
  /\ In (WakeAll may_write) (trace_of (detach_receiver (channel full_queue)))
  /\ q (state_of (detach_receiver (channel full_queue))) = q (channel full_queue)
  /\ write 2 (uio_of [x62]) (state_of (detach_receiver (channel full_queue)))
     = Done (EPIPE, uio_of [x62]) (state_of (detach_receiver (channel full_queue)))
            [MtxLock; MtxUnlock; WakeAll may_read].
Proof.
  assert (H1 : uio_resid (uio_of [x62]) <> 0) by (cbn; discriminate).
  assert (H2 : forallb no_attach [OpRead 2 (uio_of (blank 1)); OpWrite 2 (uio_of [x63])]
               = true) by reflexivity.
  assert (H3 : receiver (mk_buffer [x61] None (Some 1%nat) 1) = None) by reflexivity.
  assert (H4 : receiver (channel full_queue) <> None) by (cbn; discriminate).
  assert (H5 : max_buf <= q_size (channel full_queue))
    by (apply Z.leb_le; vm_compute; reflexivity).
  destruct (@half_close_write 2 (uio_of [x62])
              [OpRead 2 (uio_of (blank 1)); OpWrite 2 (uio_of [x63])]
              (channel [x61]) (mk_buffer [x61] None (Some 1%nat) 1)
              (channel full_queue) H1 H2 H3 H4 H5)
    as (Ha & Hb & (Hc & Hd & He & Hf) & _).
  repeat split; assumption.
Defined.

(** C5. On a channel whose sender is detached and whose queue is empty a read
    of one byte or more returns at once with nothing consumed: the result is
    0, no error, and the call is not parked.  After [detach_sender], whatever
    calls drain the queue, the read that finds it empty gets this end of
    stream. *)
Theorem half_close_read (fuel : nat) (data : uio) (ops : list op)
        (b0 bd : af_local_buffer) :
  uio_resid data <> 0 ->
  forallb no_attach ops = true ->
  sender bd = None ->
  q bd = [] ->
  q (run ops (state_of (detach_sender b0))) = [] ->
  (read fuel data bd = Done (0, data) bd [MtxLock; MtxUnlock; WakeAll may_write]
   /\ count data data = 0)
  /\ read fuel data (run ops (state_of (detach_sender b0)))
     = Done (0, data) (run ops (state_of (detach_sender b0)))
            [MtxLock; MtxUnlock; WakeAll may_write].
Proof.
  intros Hnz Hops Hs Hq Hdrained.
  split; [split; [now apply read_eof | unfold count; lia]|].
  apply read_eof; [exact Hnz|exact Hdrained|].
  apply (proj1 (@run_ends ops (state_of (detach_sender b0)) Hops)).
  rewrite detach_sender_run. destruct (sender b0) eqn:E; cbn; auto.
Qed.

Lemma half_close_read_witness :
  (read 2 (uio_of (blank 2)) (mk_buffer [] (Some 2%nat) None 1)
   = Done (0, uio_of (blank 2)) (mk_buffer [] (Some 2%nat) None 1)
          [MtxLock; MtxUnlock; WakeAll may_write]
   /\ count (uio_of (blank 2)) (uio_of (blank 2)) = 0)
  /\ read 2 (uio_of (blank 2))
          (run [OpRead 2 (uio_of (blank 2)); OpRead 2 (uio_of (blank 2))]
               (state_of (detach_sender (channel [x61; x62; x63]))))
     = Done (0, uio_of (blank 2))
            (run [OpRead 2 (uio_of (blank 2)); OpRead 2 (uio_of (blank 2))]
                 (state_of (detach_sender (channel [x61; x62; x63]))))
            [MtxLock; MtxUnlock; WakeAll may_write].
Proof.
  apply (@half_close_read 2 (uio_of (blank 2))
           [OpRead 2 (uio_of (blank 2)); OpRead 2 (uio_of (blank 2))]
           (channel [x61; x62; x63]) (mk_buffer [] (Some 2%nat) None 1));
    try reflexivity.
  cbn. discriminate.
Defined.

(** C2. Whatever sequence of calls is made on a channel, its queue never holds
    more than [max_buf] = 8192 bytes; no single call takes a queue within
    capacity beyond it, not even one stopped half-way.  A write whose source
    exceeds the room left is cut short: it returns with the queue filled to
    capacity, having taken exactly the room left off the source (it returns
    whenever the segment the loop copies from holds a byte; and every write
    that returns from such a state, whatever its segments, has done so). *)
Theorem capacity_invariant :
  max_buf = 8192
  /\ (forall ops : list op, q_size (run ops af_local_buffer_new) <= max_buf)
  /\ (forall (o : op) (b : af_local_buffer),
         q_size b <= max_buf -> q_size (exec_op o b) <= max_buf)
  /\ (forall (fuel : nat) (data : uio) (b : af_local_buffer) (v : iovec),
         write_ready b = true ->
         nth_error (uio_iov data) 0 = Some v ->
         0 < iov_len v <= Z.of_nat (length (iov_base v)) ->
         max_buf - q_size b < uio_resid data < 2 ^ 63 ->
         (Z.to_nat (max_buf - q_size b) < fuel)%nat ->
         exists (d : uio) (b' : af_local_buffer) (w : list byte) (t : list event),
           write fuel data b = Done (0, d) b' t
           /\ q b' = q b ++ w
           /\ q_size b' = max_buf
           /\ count data d = max_buf - q_size b)
  /\ (forall (fuel : nat) (data d : uio) (b b' : af_local_buffer) (err : Z)
             (t : list event) (v : iovec),
         write fuel data b = Done (err, d) b' t ->
         write_ready b = true ->
         nth_error (uio_iov data) 0 = Some v ->
         0 <= iov_len v <= Z.of_nat (length (iov_base v)) ->
         max_buf - q_size b < uio_resid data < 2 ^ 63 ->
         err = 0 /\ q_size b' = max_buf /\ count data d = max_buf - q_size b).
Proof.
  split; [reflexivity|].
  split.
  { intros ops. apply (run_capacity ops af_local_buffer_new).
    unfold within_capacity. cbn. discriminate. }
  split.
  { intros o b. apply exec_op_capacity. }
  split.
  { intros fuel data b v Hw Hn Hv Hr Hf.
    destruct (write_short fuel data b v Hw Hn Hv Hr Hf)
      as (d & b' & w & H1 & H2 & H3 & _ & H5 & _).
    exists d, b', w. eexists. repeat split; eassumption. }
  exact write_fills.
Qed.

Lemma capacity_invariant_witness :
  q_size (run [OpAttachSender 1%nat; OpAttachReceiver 2%nat;
               OpWrite 3 (uio_of [x61; x62]); OpRead 3 (uio_of (blank 1))]
              af_local_buffer_new) <= max_buf
  /\ exists (d : uio) (b' : af_local_buffer) (w : list byte) (t : list event),
      write 4 (uio_of [x62; x63; x64; x65; x66]) (channel nearly_full_queue)
      = Done (0, d) b' t
      /\ q b' = q (channel nearly_full_queue) ++ w
      /\ q_size b' = max_buf
      /\ count (uio_of [x62; x63; x64; x65; x66]) d
         = max_buf - q_size (channel nearly_full_queue).
Proof.
  destruct capacity_invariant as (_ & Hseq & _ & Hshort & _).
  split; [apply Hseq|].
  apply (Hshort 4%nat (uio_of [x62; x63; x64; x65; x66]) (channel nearly_full_queue)
                (mk_iovec [x62; x63; x64; x65; x66] 5)).
  - vm_compute. reflexivity.
  - reflexivity.
  - cbn. lia.
  - split; apply Z.ltb_lt; vm_compute; reflexivity.
  - apply Nat.ltb_lt. vm_compute. reflexivity.
Defined.

(** C6. One write of 10000 bytes into an empty channel of capacity 8192 takes
    exactly the first 8192 bytes and returns, with a residual of 1808, without
    waiting inside the call; the rest needs a second call, which waits while
    the queue is full and goes through once the reader has taken the 8192
    bytes.  In general a write that fills the queue before its source is
    used up stops there and returns what it took. *)
Theorem short_write_scenario :
  (forall (fuel : nat) (mem : list byte) (b : af_local_buffer),
      (2 <= fuel)%nat ->
      Z.of_nat (length mem) = 10000 ->
      q b = [] ->
      receiver b <> None ->
      exists (d1 d2 d3 : uio) (b1 b2 b3 : af_local_buffer),
        write fuel (uio_of mem) b
        = Done (0, d1) b1 [MtxLock; PollWake (receiver b) POLLIN; MtxUnlock; WakeAll may_read]
        /\ count (uio_of mem) d1 = 8192
        /\ uio_resid d1 = 1808
        /\ transferred (uio_of mem) d1 = firstn (Z.to_nat max_buf) mem
        /\ q b1 = firstn (Z.to_nat max_buf) mem
        /\ write fuel (uio_of (skipn (Z.to_nat max_buf) mem)) b1
           = Blocked may_write b1 [MtxLock]
        /\ read fuel (uio_of (blank (Z.to_nat max_buf))) b1
           = Done (0, d2) b2 [MtxLock; PollWake (sender b) POLLOUT; MtxUnlock; WakeAll may_write]
        /\ transferred (uio_of (blank (Z.to_nat max_buf))) d2 = firstn (Z.to_nat max_buf) mem
        /\ q b2 = []
        /\ write fuel (uio_of (skipn (Z.to_nat max_buf) mem)) b2
           = Done (0, d3) b3 [MtxLock; PollWake (receiver b) POLLIN; MtxUnlock; WakeAll may_read]
        /\ count (uio_of (skipn (Z.to_nat max_buf) mem)) d3 = 1808
        /\ q b3 = skipn (Z.to_nat max_buf) mem)
  /\ (forall (fuel : nat) (data : uio) (b : af_local_buffer) (v : iovec),
         write_ready b = true ->
         nth_error (uio_iov data) 0 = Some v ->
         0 < iov_len v <= Z.of_nat (length (iov_base v)) ->
         max_buf - q_size b < uio_resid data < 2 ^ 63 ->
         (Z.to_nat (max_buf - q_size b) < fuel)%nat ->
         exists (d : uio) (b' : af_local_buffer) (w : list byte),
           write fuel data b
           = Done (0, d) b' [MtxLock; PollWake (receiver b) POLLIN; MtxUnlock; WakeAll may_read]
           /\ q b' = q b ++ w
           /\ q_size b' = max_buf
           /\ count data d = Z.of_nat (length w)
           /\ 0 < uio_resid d).
Proof.
  split.
  - intros fuel mem b Hf Hlen Hq Hrc.
    apply short_write_steps; try assumption.
    apply Z2Nat.id. discriminate.
  - intros fuel data b v Hw Hn Hv Hr Hf.
    destruct (write_short fuel data b v Hw Hn Hv Hr Hf)
      as (d & b' & w & H1 & H2 & H3 & H4 & H5 & H6).
    exists d, b', w. repeat split; try assumption. congruence.
Qed.

Lemma short_write_scenario_witness :
  exists (d1 d2 d3 : uio) (b1 b2 b3 : af_local_buffer),
    write 2 (uio_of ten_thousand) (channel [])
    = Done (0, d1) b1
           [MtxLock; PollWake (receiver (channel [])) POLLIN; MtxUnlock; WakeAll may_read]
    /\ count (uio_of ten_thousand) d1 = 8192
    /\ uio_resid d1 = 1808
    /\ transferred (uio_of ten_thousand) d1 = firstn (Z.to_nat max_buf) ten_thousand
    /\ q b1 = firstn (Z.to_nat max_buf) ten_thousand
    /\ write 2 (uio_of (skipn (Z.to_nat max_buf) ten_thousand)) b1
       = Blocked may_write b1 [MtxLock]
    /\ read 2 (uio_of (blank (Z.to_nat max_buf))) b1
       = Done (0, d2) b2
              [MtxLock; PollWake (sender (channel [])) POLLOUT; MtxUnlock; WakeAll may_write]
    /\ transferred (uio_of (blank (Z.to_nat max_buf))) d2
       = firstn (Z.to_nat max_buf) ten_thousand
    /\ q b2 = []
    /\ write 2 (uio_of (skipn (Z.to_nat max_buf) ten_thousand)) b2
       = Done (0, d3) b3
              [MtxLock; PollWake (receiver (channel [])) POLLIN; MtxUnlock; WakeAll may_read]
    /\ count (uio_of (skipn (Z.to_nat max_buf) ten_thousand)) d3 = 1808
    /\ q b3 = skipn (Z.to_nat max_buf) ten_thousand.
Proof.
  destruct short_write_scenario as [H _].
  apply (H 2%nat ten_thousand (channel [])).
  - apply le_n.
  - vm_compute. reflexivity.
  - reflexivity.
  - cbn. discriminate.
Defined.

(** C7, as the code has it.  A read that moves bytes (a request of one byte
    or more that meets a queue that is not empty), on a channel whose receiver
    is attached, notifies the sender's polling observer of write-readiness,
    once, and write-readiness holds after it, whether or not it held before;
    a read of length zero and a read that finds the queue empty (end of stream
    or a wait) notify nobody.  A write that moves bytes (a request of one byte
    or more on a channel that is write-ready) notifies the receiver's polling
    observer of read-readiness, once, whether or not the queue was empty
    before; a write of length zero and a write on a channel that is not
    write-ready (EPIPE or a wait) notify nobody. *)
Theorem notifications_follow_transfers :
  (forall (fuel : nat) (data : uio) (b : af_local_buffer) (v : iovec),
      within_capacity b ->
      receiver b <> None ->
      uio_resid data <> 0 ->
      q b <> [] ->
      nth_error (uio_iov data) 0 = Some v ->
      0 < iov_len v ->
      (length (q b) < fuel)%nat ->
      exists (d : uio) (b' : af_local_buffer),
        read fuel data b
        = Done (0, d) b' [MtxLock; PollWake (sender b) POLLOUT; MtxUnlock; WakeAll may_write]
        /\ write_ready b' = true)
  /\ (forall (fuel : nat) (data : uio) (b : af_local_buffer),
         uio_resid data = 0 \/ q b = [] ->
         notified POLLOUT (trace_of (read fuel data b)) = false)
  /\ (forall (fuel : nat) (data : uio) (b : af_local_buffer) (v : iovec),
         write_ready b = true ->
         uio_resid data <> 0 ->
         nth_error (uio_iov data) 0 = Some v ->
         0 < iov_len v <= Z.of_nat (length (iov_base v)) ->
         (Z.to_nat (max_buf - q_size b) < fuel)%nat ->
         exists (d : uio) (b' : af_local_buffer),
           write fuel data b
           = Done (0, d) b' [MtxLock; PollWake (receiver b) POLLIN; MtxUnlock; WakeAll may_read]
           /\ read_ready b' = true)
  /\ (forall (fuel : nat) (data : uio) (b : af_local_buffer),
         uio_resid data = 0 \/ write_ready b = false ->
         notified POLLIN (trace_of (write fuel data b)) = false).
Proof.
  split; [|split; [|split]].
  - intros fuel data b v Hc Hrc Hnz Hq Hn Hv Hf.
    destruct (read_transfer fuel data b v Hc Hnz Hq Hn Hv Hf) as (d & b' & H & He & Hlt).
    exists d, b'. split; [exact H|].
    apply write_ready_true. destruct He as (Hr & _). rewrite Hr.
    unfold within_capacity in Hc. split; [exact Hrc|lia].
  - intros fuel data b [Hz|Hq].
    + now rewrite read_zero.
    + destruct (Z.eq_dec (uio_resid data) 0) as [Hz|Hnz]; [now rewrite read_zero|].
      destruct (sender b) eqn:Hs.
      * rewrite read_blocks; [reflexivity|exact Hnz|exact Hq|congruence].
      * now rewrite read_eof.
  - intros fuel data b v Hw Hnz Hn Hv Hf.
    destruct (write_transfer fuel data b v Hw Hnz Hn Hv Hf)
      as (d & b' & H & _ & Hlt & _).
    exists d, b'. split; [exact H|].
    apply read_ready_true. intros E. unfold q_size in Hlt. rewrite E in Hlt.
    cbn [length] in Hlt. lia.
  - intros fuel data b [Hz|Hw].
    + now rewrite write_zero.
    + destruct (Z.eq_dec (uio_resid data) 0) as [Hz|Hnz]; [now rewrite write_zero|].
      destruct (receiver b) eqn:Hrc.
      * rewrite write_blocks; [reflexivity|exact Hnz|congruence|].
        destruct (Z_lt_le_dec (q_size b) max_buf) as [Hlt|Hge]; [|exact Hge].
        assert (write_ready b = true) by (apply write_ready_true; split; congruence).
        congruence.
      * now rewrite write_epipe.
Qed.

Lemma notifications_follow_transfers_witness :
  (exists (d : uio) (b' : af_local_buffer),
      read 3 two_by_two (channel [x61; x62])
      = Done (0, d) b' [MtxLock; PollWake (sender (channel [x61; x62])) POLLOUT;
                        MtxUnlock; WakeAll may_write]
      /\ write_ready b' = true)
  /\ notified POLLOUT (trace_of (read 3 two_by_two (mk_buffer [] (Some 2%nat) None 1)))
     = false
  /\ (exists (d : uio) (b' : af_local_buffer),
         write ample ab_cd (channel [x61])
         = Done (0, d) b' [MtxLock; PollWake (receiver (channel [x61])) POLLIN;
                           MtxUnlock; WakeAll may_read]
         /\ read_ready b' = true)
  /\ notified POLLIN (trace_of (write 3 ab_cd (mk_buffer [x61] None (Some 1%nat) 1)))
     = false.
Proof.
  destruct notifications_follow_transfers as (H1 & H2 & H3 & H4).
  split; [|split; [|split]].
  - apply (H1 3%nat two_by_two (channel [x61; x62]) (mk_iovec (blank 2) 2)).
    + apply Z.leb_le. reflexivity.
    + cbn. discriminate.
    + cbn. discriminate.
    + cbn. discriminate.
    + reflexivity.
    + reflexivity.
    + cbn. apply le_n.
  - apply H2. right. reflexivity.
  - apply (H3 ample ab_cd (channel [x61]) (mk_iovec [x61; x62] 2)).
    + reflexivity.
    + cbn. discriminate.
    + reflexivity.
    + cbn. lia.
    + apply Nat.ltb_lt. vm_compute. reflexivity.
  - apply H4. right. reflexivity.
Defined.

(** Counterexample to C7 as an equivalence with a transition: a read notifies
    the sender although the channel was write-ready before the read and after
    it, and a write notifies the receiver although the queue was not empty
    before the write. *)
Lemma notification_without_transition :
  write_ready (channel [x61; x62]) = true
  /\ read 2 (uio_of (blank 1)) (channel [x61; x62])
     = Done (0, set_resid (uio_of [x61]) 0) (channel [x62])
            [MtxLock; PollWake (Some 1%nat) POLLOUT; MtxUnlock; WakeAll may_write]
  /\ write_ready (channel [x62]) = true
  /\ notified POLLOUT
       [MtxLock; PollWake (Some 1%nat) POLLOUT; MtxUnlock; WakeAll may_write] = true
  /\ q (channel [x61]) <> []
  /\ write 2 (uio_of [x62]) (channel [x61])
     = Done (0, set_resid (uio_of [x62]) 0) (channel [x61; x62])
            [MtxLock; PollWake (Some 2%nat) POLLIN; MtxUnlock; WakeAll may_read]
  /\ notified POLLIN
       [MtxLock; PollWake (Some 2%nat) POLLIN; MtxUnlock; WakeAll may_read] = true.
Proof.
  repeat split; try reflexivity. cbn. discriminate.
Qed.

(** C8, as the code has it.  A request whose kind is not SOCK_STREAM or whose
    protocol is not 0 stops [socketpair_af_local] at its first assertions:
    the call halts there, before any channel, pair, file or descriptor is
    allocated, with the system as it was and no call made; nothing is
    returned to the caller, no error code either. *)
Theorem socketpair_asserts_its_arguments (type proto : Z) (sv : Z * Z) (w : world) :
  type <> SOCK_STREAM \/ proto <> 0 ->
  socketpair_af_local type proto sv w = Halted AssertionFailed w [].
Proof.
  intros H. unfold socketpair_af_local, bind at 1.
  destruct (Z.eqb_spec type SOCK_STREAM) as [Ht|Ht].
  - cbn [assert ret after]. unfold bind at 1.
    destruct (Z.eqb_spec proto 0) as [Hp|Hp].
    + destruct H; congruence.
    + reflexivity.
  - reflexivity.
Qed.

Lemma socketpair_asserts_its_arguments_witness :
  socketpair_af_local SOCK_DGRAM 0 (0, 0) (boot 8 8)
  = Halted AssertionFailed (boot 8 8) [].
Proof.
  apply (socketpair_asserts_its_arguments SOCK_DGRAM 0 (0, 0) (boot 8 8)).
  left. discriminate.
Defined.

(** Counterexample to C8 as a returned error: a datagram request, and a
    stream request with a protocol, end in a failed assertion and return
    nothing, while the supported request returns 0 and two descriptors. *)
Lemma socketpair_returns_no_error :
  socketpair_af_local SOCK_DGRAM 0 (0, 0) (boot 8 8)
  = Halted AssertionFailed (boot 8 8) []
  /\ socketpair_af_local SOCK_STREAM 1 (0, 0) (boot 8 8)
     = Halted AssertionFailed (boot 8 8) []
  /\ (forall (r : Z * (Z * Z)) (w : world) (t : list event),
         socketpair_af_local SOCK_DGRAM 0 (0, 0) (boot 8 8) <> Done r w t)
  /\ value_of (socketpair_af_local SOCK_STREAM 0 (-1, -1) (boot 8 8))
     = Some (0, (0, 1)).
Proof.
  split; [reflexivity|]. split; [reflexivity|]. split.
  - intros r w t. discriminate.
  - vm_compute. reflexivity.
Qed.

(** C1.  The order of the bytes is lost by calls that pass more than one
    segment: the copy loops never leave the first one.  A gathered write of "ab" and "cd"
    reports four bytes written and queues "abab"; the reader then receives
    "abab" where "abcd" was written.  A scattered read of "abcd" into two
    segments of two bytes reports four bytes read and leaves "cd" in the first
    segment and nothing in the second.  A gathered write whose first segment
    is empty never returns, whatever the fuel. *)
Theorem segments_beyond_the_first_are_ignored :
  wf_uio ab_cd = true
  /\ memory ab_cd = [x61; x62; x63; x64]
  /\ write 3 ab_cd (channel [])
     = Done (0, set_resid ab_cd 0) (channel [x61; x62; x61; x62])
            [MtxLock; PollWake (Some 2%nat) POLLIN; MtxUnlock; WakeAll may_read]
  /\ run_io [OpWrite 3 ab_cd; OpRead 3 (uio_of (blank 4))] (channel [])
     = (channel [], ([x61; x62; x63; x64], [x61; x62; x61; x62]))
  /\ wf_uio two_by_two = true
  /\ (exists d : uio,
         read 3 two_by_two (channel [x61; x62; x63; x64])
         = Done (0, d) (channel [])
                [MtxLock; PollWake (Some 1%nat) POLLOUT; MtxUnlock; WakeAll may_write]
         /\ count two_by_two d = 4
         /\ memory d = [x63; x64; x00; x00])
  /\ wf_uio empty_then_c = true
  /\ (forall fuel : nat,
         write fuel empty_then_c (channel []) = Halted OutOfFuel (channel []) [MtxLock]).
Proof.
  split; [reflexivity|]. split; [reflexivity|]. split; [reflexivity|].
  split; [reflexivity|]. split; [reflexivity|].
  split; [eexists; split; [reflexivity|split; reflexivity]|].
  split; [reflexivity|].
  intros fuel. rewrite write_nonzero by (cbn; discriminate).
  change (write_events_unlocked (channel []) =? 0) with false. cbv iota.
  change (write_ready (channel [])) with true. cbv iota.
  rewrite (write_loop_spins fuel empty_then_c (channel []) (mk_iovec [] 0)).
  - reflexivity.
  - reflexivity.
  - reflexivity.
  - cbn. lia.
  - reflexivity.
Qed.

(** X1. First in, first out, for calls that pass one segment each (as
    [read(2)] and [write(2)] do): whatever the calls on a channel and however
    they cut the stream, the bytes the writes were told were accepted are the
    bytes the reads were told were delivered, in the same order, followed by
    the bytes still queued. *)
Theorem fifo_one_segment (ops : list op) :
  forall b : af_local_buffer,
    forallb one_segment ops = true ->
    within_capacity b ->
    let '(b', (ws, rs)) := run_io ops b in
    q b ++ ws = rs ++ q b'.
Proof.
  induction ops as [|o ops IH]; intros b Ho Hc.
  - cbn. now rewrite app_nil_r.
  - cbn [forallb] in Ho. apply andb_true_iff in Ho. destruct Ho as [Ho Hops].
    pose proof (@io_op_fifo o b Ho Hc) as Hstep.
    cbn [run_io]. destruct (io_op o b) as [w r]. cbn [fst snd] in Hstep.
    specialize (IH (exec_op o b) Hops (exec_op_capacity o b Hc)).
    destruct (run_io ops (exec_op o b)) as [b' [ws rs]].
    rewrite app_assoc, Hstep, <- app_assoc, IH, app_assoc. reflexivity.
Qed.

Lemma fifo_one_segment_witness :
  let '(b', (ws, rs)) :=
    run_io [OpWrite 2 (uio_of [x61; x62; x63]); OpRead 2 (uio_of (blank 2));
            OpWrite 2 (uio_of [x64]); OpDetachSender; OpRead 2 (uio_of (blank 1));
            OpRead 2 (uio_of (blank 5)); OpRead 2 (uio_of (blank 5))]
           (channel [])
  in q (channel []) ++ ws = rs ++ q b'.
Proof.
  apply (fifo_one_segment
           [OpWrite 2 (uio_of [x61; x62; x63]); OpRead 2 (uio_of (blank 2));
            OpWrite 2 (uio_of [x64]); OpDetachSender; OpRead 2 (uio_of (blank 1));
            OpRead 2 (uio_of (blank 5)); OpRead 2 (uio_of (blank 5))]
           (channel [])).
  - reflexivity.
  - apply Z.leb_le. reflexivity.
Defined.

(** X2. End to end through a connected pair: what endpoint A writes, endpoint
    B reads ("hello", five bytes); once A is closed, B reads what is left,
    then gets end of stream, and B's write fails with EPIPE. *)
Theorem hello_crosses_the_pair :
  value_of ((socketpair_af_local SOCK_STREAM 0 (-1, -1) ;;
             af_local_write 2 0%nat (uio_of hello) 0 ;;
             af_local_read 2 1%nat (uio_of (blank 5)) 0) (boot 8 8))
  = Some (0, set_resid (uio_of hello) 0)
  /\ value_of ((socketpair_af_local SOCK_STREAM 0 (-1, -1) ;;
                af_local_write 2 0%nat (uio_of hello) 0 ;;
                af_local_close 0%nat ;;
                x <- af_local_read 2 1%nat (uio_of (blank 5)) 0 ;;
                y <- af_local_read 2 1%nat (uio_of (blank 5)) 0 ;;
                z <- af_local_write 2 1%nat (uio_of hello) 0 ;;
                ret (x, y, z)) (boot 8 8))
     = Some ((0, set_resid (uio_of hello) 0),
             (0, uio_of (blank 5)),
             (EPIPE, uio_of hello)).
Proof.
  split; vm_compute; reflexivity.
Qed.

(** * Further properties of the code *)

(** X3. [detach_sender] and [detach_receiver] are idempotent and touch
    nothing but their own role: the role is null afterwards, the queue, the
    other role and the reference count are as before, and a second call does
    nothing beyond taking and releasing the lock.  The first call notifies
    the peer of the hang-up exactly when both roles were attached, and wakes
    the waiters of its condition variable exactly when its role was
    attached. *)
Theorem detach_is_idempotent (b : af_local_buffer) :
  (sender (state_of (detach_sender b)) = None
   /\ q (state_of (detach_sender b)) = q b
   /\ receiver (state_of (detach_sender b)) = receiver b
   /\ refs (state_of (detach_sender b)) = refs b
   /\ detach_sender (state_of (detach_sender b))
      = Done tt (state_of (detach_sender b)) [MtxLock; MtxUnlock]
   /\ (notified POLLRDHUP (trace_of (detach_sender b)) = true
       <-> sender b <> None /\ receiver b <> None)
   /\ (In (WakeAll may_read) (trace_of (detach_sender b)) <-> sender b <> None))
  /\ (receiver (state_of (detach_receiver b)) = None
      /\ q (state_of (detach_receiver b)) = q b
      /\ sender (state_of (detach_receiver b)) = sender b
      /\ refs (state_of (detach_receiver b)) = refs b
      /\ detach_receiver (state_of (detach_receiver b))
         = Done tt (state_of (detach_receiver b)) [MtxLock; MtxUnlock]
      /\ (notified POLLHUP (trace_of (detach_receiver b)) = true
          <-> sender b <> None /\ receiver b <> None)
      /\ (In (WakeAll may_write) (trace_of (detach_receiver b))
          <-> receiver b <> None)).
Proof.
  destruct b as [l [r|] [s|] n]; cbn;
    repeat split; try reflexivity; try congruence; try tauto;
    try (intros [? ?]; congruence);
    try (intros H; repeat (destruct H as [H|H]; try discriminate H); contradiction);
    try (intros _; auto 6).
Qed.

(** X4. A role is attached without the lock and only when it is free:
    [attach_sender] and [attach_receiver] set their role on a channel where
    it is null and change nothing else; on a channel where it is set the
    assertion fails and the channel is as it was, so an attach that follows
    an attach always fails.  The code asks for nothing more: after a detach
    the role can be attached again. *)
Theorem attach_needs_a_free_role (f g : file_ptr) (b : af_local_buffer) :
  attach_sender f b
  = (if is_null (sender b) then Done tt (set_sender (Some f) b) []
     else Halted AssertionFailed b [])
  /\ attach_receiver f b
     = (if is_null (receiver b) then Done tt (set_receiver (Some f) b) []
        else Halted AssertionFailed b [])
  /\ attach_sender g (state_of (attach_sender f b))
     = Halted AssertionFailed (state_of (attach_sender f b)) []
  /\ attach_receiver g (state_of (attach_receiver f b))
     = Halted AssertionFailed (state_of (attach_receiver f b)) []
  /\ attach_sender f (state_of (detach_sender b))
     = Done tt (set_sender (Some f) (state_of (detach_sender b))) []
  /\ attach_receiver f (state_of (detach_receiver b))
     = Done tt (set_receiver (Some f) (state_of (detach_receiver b))) [].
Proof.
  destruct b as [l [r|] [s|] n]; repeat split; reflexivity.
Qed.

(** X5. Whatever the descriptor and however the call ends, [read] and
    [write] touch nothing of the channel but its queue: sender, receiver and
    reference count stay.  [read] only removes bytes from the front of the
    queue and [write] only appends at its back; a [write] that returns has
    left the caller's segments, lengths and memory, as they were. *)
Theorem transfers_touch_only_the_queue (fuel : nat) (data : uio) (b : af_local_buffer) :
  (same_ends b (state_of (read fuel data b))
   /\ exists n : nat, q (state_of (read fuel data b)) = skipn n (q b))
  /\ (same_ends b (state_of (write fuel data b))
      /\ exists w : list byte, q (state_of (write fuel data b)) = q b ++ w)
  /\ (forall (err : Z) (d : uio) (b' : af_local_buffer) (t : list event),
         write fuel data b = Done (err, d) b' t -> uio_iov d = uio_iov data).
Proof.
  split; [apply read_state|]. split; [split; apply write_state|].
  intros err d b' t H.
  destruct (Z.eq_dec (uio_resid data) 0) as [Hz|Hz].
  - rewrite write_zero in H by exact Hz. now inversion H.
  - rewrite write_nonzero in H by exact Hz.
    destruct (write_events_unlocked b =? 0); [discriminate H|].
    destruct (write_ready b).
    + destruct (write_loop fuel 0 data b) as [d0 b0 t0| | |] eqn:Hl; try discriminate H.
      inversion H; subst. exact (write_loop_iov _ _ _ _ _ _ _ Hl).
    + destruct (truthy (Z.land (write_events_unlocked b) POLLHUP));
        [now inversion H|discriminate H].
Qed.

(** X6. A call that passes one segment moves exactly as many bytes as both
    sides allow and does not wait for more.  A read of [n] bytes from a queue
    of [m] bytes returns min(m, n) bytes, the front of the queue, in the
    front of the destination, whose remaining bytes and the rest of the queue
    stay as they were.  A write of [n] bytes into a queue with room for [r]
    appends the first min(r, n) bytes of the source. *)
Theorem one_segment_moves_what_fits (fuel : nat) (mem : list byte) (b : af_local_buffer) :
  (2 <= fuel)%nat ->
  mem <> [] ->
  Z.of_nat (length mem) < 2 ^ 63 ->
  within_capacity b ->
  (read_ready b = true ->
   exists d : uio,
     read fuel (uio_of mem) b
     = Done (0, d) (set_q (skipn (Z.to_nat (Z.min (q_size b) (Z.of_nat (length mem)))) (q b)) b)
            [MtxLock; PollWake (sender b) POLLOUT; MtxUnlock; WakeAll may_write]
     /\ count (uio_of mem) d = Z.min (q_size b) (Z.of_nat (length mem))
     /\ memory d
        = firstn (Z.to_nat (Z.min (q_size b) (Z.of_nat (length mem)))) (q b)
          ++ skipn (Z.to_nat (Z.min (q_size b) (Z.of_nat (length mem)))) mem)
  /\ (write_ready b = true ->
      exists d : uio,
        write fuel (uio_of mem) b
        = Done (0, d)
               (set_q (q b ++ firstn (Z.to_nat (Z.min (max_buf - q_size b)
                                                      (Z.of_nat (length mem)))) mem) b)
               [MtxLock; PollWake (receiver b) POLLIN; MtxUnlock; WakeAll may_read]
        /\ count (uio_of mem) d = Z.min (max_buf - q_size b) (Z.of_nat (length mem))
        /\ memory d = mem).
Proof.
  intros Hf Hm Hl Hc. split.
  - intros Hr. eexists. split; [apply read_one; assumption|].
    unfold count, memory, copy_to.
    cbn [set_resid uio_resid uio_of uio_iov map iov_base concat]. split; [lia|].
    rewrite app_nil_r. f_equal. f_equal. rewrite length_firstn.
    pose proof (q_size_nonneg b). unfold q_size in *. lia.
  - intros Hw. eexists. split; [apply write_one; assumption|].
    unfold count, memory.
    cbn [set_resid uio_resid uio_of uio_iov map iov_base concat]. split; [lia|].
    apply app_nil_r.
Qed.

Lemma one_segment_moves_what_fits_witness :
  (exists d : uio,
      read 2 (uio_of (blank 5)) (channel [x61; x62; x63])
      = Done (0, d) (channel [])
             [MtxLock; PollWake (Some 1%nat) POLLOUT; MtxUnlock; WakeAll may_write]
      /\ count (uio_of (blank 5)) d = 3
      /\ memory d = [x61; x62; x63; x00; x00])
  /\ (exists d : uio,
         write 2 (uio_of (blank 5)) (channel [x61; x62; x63])
         = Done (0, d) (channel [x61; x62; x63; x00; x00; x00; x00; x00])
                [MtxLock; PollWake (Some 2%nat) POLLIN; MtxUnlock; WakeAll may_read]
         /\ count (uio_of (blank 5)) d = 5
         /\ memory d = blank 5).
Proof.
  assert (H1 : (2 <= 2)%nat) by apply le_n.
  assert (H2 : blank 5 <> []) by discriminate.
  assert (H3 : Z.of_nat (length (blank 5)) < 2 ^ 63) by reflexivity.
  assert (H4 : within_capacity (channel [x61; x62; x63])) by discriminate.
  destruct (one_segment_moves_what_fits 2 (blank 5) (channel [x61; x62; x63])
              H1 H2 H3 H4) as [Hr Hw].
  split; [apply Hr|apply Hw]; reflexivity.
Defined.

(** X7. When a call waits, and what ends the wait.  A read of one byte or
    more is parked (on [may_read], holding nothing, the channel untouched)
    exactly when the queue is empty and the sender attached; a write of one
    byte or more is parked (on [may_write]) exactly when the receiver is
    attached and the queue is full.  A read that takes bytes from a full
    queue wakes the waiters of [may_write], and the parked write then goes
    through; a write that puts bytes into an empty queue wakes the waiters of
    [may_read], and the parked read then goes through. *)
Theorem waiting_and_waking :
  (forall (fuel : nat) (data : uio) (b : af_local_buffer),
      uio_resid data <> 0 ->
      ((exists (cv : condvar) (b' : af_local_buffer) (t : list event),
           read fuel data b = Blocked cv b' t)
       <-> q b = [] /\ sender b <> None)
      /\ (q b = [] /\ sender b <> None ->
          read fuel data b = Blocked may_read b [MtxLock])
      /\ ((exists (cv : condvar) (b' : af_local_buffer) (t : list event),
              write fuel data b = Blocked cv b' t)
          <-> receiver b <> None /\ max_buf <= q_size b)
      /\ (receiver b <> None /\ max_buf <= q_size b ->
          write fuel data b = Blocked may_write b [MtxLock]))
  /\ (forall (fuel : nat) (rd wd : uio) (b : af_local_buffer) (vr vw : iovec),
         receiver b <> None ->
         q_size b = max_buf ->
         uio_resid rd <> 0 ->
         nth_error (uio_iov rd) 0 = Some vr ->
         0 < iov_len vr ->
         uio_resid wd <> 0 ->
         nth_error (uio_iov wd) 0 = Some vw ->
         0 < iov_len vw <= Z.of_nat (length (iov_base vw)) ->
         (Z.to_nat max_buf < fuel)%nat ->
         write fuel wd b = Blocked may_write b [MtxLock]
         /\ exists (d1 d2 : uio) (b1 b2 : af_local_buffer),
             read fuel rd b
             = Done (0, d1) b1
                    [MtxLock; PollWake (sender b) POLLOUT; MtxUnlock; WakeAll may_write]
             /\ write fuel wd b1
                = Done (0, d2) b2
                       [MtxLock; PollWake (receiver b) POLLIN; MtxUnlock; WakeAll may_read]
             /\ q_size b1 < q_size b2)
  /\ (forall (fuel : nat) (rd wd : uio) (b : af_local_buffer) (vr vw : iovec),
         sender b <> None ->
         receiver b <> None ->
         q b = [] ->
         uio_resid rd <> 0 ->
         nth_error (uio_iov rd) 0 = Some vr ->
         0 < iov_len vr ->
         uio_resid wd <> 0 ->
         nth_error (uio_iov wd) 0 = Some vw ->
         0 < iov_len vw <= Z.of_nat (length (iov_base vw)) ->
         (Z.to_nat max_buf < fuel)%nat ->
         read fuel rd b = Blocked may_read b [MtxLock]
         /\ exists (d1 d2 : uio) (b1 b2 : af_local_buffer),
             write fuel wd b
             = Done (0, d1) b1
                    [MtxLock; PollWake (receiver b) POLLIN; MtxUnlock; WakeAll may_read]
             /\ read fuel rd b1
                = Done (0, d2) b2
                       [MtxLock; PollWake (sender b) POLLOUT; MtxUnlock; WakeAll may_write]
             /\ q_size b2 < q_size b1).
Proof.
  split; [|split].
  - intros fuel data b Hnz.
    assert (Hrb : q b = [] /\ sender b <> None ->
                  read fuel data b = Blocked may_read b [MtxLock])
      by (intros [Hq Hs]; now apply read_blocks).
    assert (Hwb : receiver b <> None /\ max_buf <= q_size b ->
                  write fuel data b = Blocked may_write b [MtxLock])
      by (intros [Hr Hq]; now apply write_blocks).
    split; [|split; [exact Hrb|split; [|exact Hwb]]].
    + split.
      * intros (cv & b' & t & H). pose proof (read_outcomes fuel data b) as Ho.
        rewrite H in Ho. tauto.
      * intros H. rewrite (Hrb H). eauto.
    + split.
      * intros (cv & b' & t & H). pose proof (write_outcomes fuel data b) as Ho.
        rewrite H in Ho. tauto.
      * intros H. rewrite (Hwb H). eauto.
  - intros fuel rd wd b vr vw Hrc Hfull Hrnz Hrn Hrv Hwnz Hwn Hwv Hf.
    split; [apply write_blocks; [assumption|assumption|lia]|].
    assert (Hc : within_capacity b) by (unfold within_capacity; lia).
    assert (Hq : q b <> []).
    { intros E. unfold q_size in Hfull. rewrite E in Hfull. discriminate Hfull. }
    destruct (read_transfer fuel rd b vr Hc Hrnz Hq Hrn Hrv) as (d1 & b1 & H1 & He & Hlt).
    { unfold q_size in Hfull. lia. }
    assert (Hw1 : write_ready b1 = true).
    { apply write_ready_true. destruct He as (-> & _). split; [exact Hrc|lia]. }
    destruct (write_transfer fuel wd b1 vw Hw1 Hwnz Hwn Hwv)
      as (d2 & b2 & H2 & _ & Hgrow & _).
    { pose proof (q_size_nonneg b1). lia. }
    exists d1, d2, b1, b2. destruct He as (Hr1 & _). rewrite Hr1 in H2.
    split; [exact H1|]. split; [exact H2|lia].
  - intros fuel rd wd b vr vw Hs Hrc Hq Hrnz Hrn Hrv Hwnz Hwn Hwv Hf.
    split; [now apply read_blocks|].
    assert (Hqs : q_size b = 0) by (unfold q_size; now rewrite Hq).
    assert (Hw : write_ready b = true).
    { apply write_ready_true. split; [exact Hrc|]. rewrite Hqs. reflexivity. }
    destruct (write_transfer fuel wd b vw Hw Hwnz Hwn Hwv)
      as (d1 & b1 & H1 & He & Hgrow & _).
    { rewrite Hqs, Z.sub_0_r. exact Hf. }
    assert (Hc1 : within_capacity b1) by (unfold within_capacity; lia).
    assert (Hq1 : q b1 <> []).
    { intros E. unfold q_size in Hgrow. rewrite E in Hgrow. cbn [length] in Hgrow. lia. }
    destruct (read_transfer fuel rd b1 vr Hc1 Hrnz Hq1 Hrn Hrv)
      as (d2 & b2 & H2 & _ & Hlt).
    { unfold q_size in Hgrow. lia. }
    exists d1, d2, b1, b2. destruct He as (_ & Hs1 & _). rewrite Hs1 in H2.
    split; [exact H1|]. split; [exact H2|exact Hlt].
Qed.

Lemma waiting_and_waking_witness :
  write ample (uio_of [x62; x63]) (channel full_queue)
  = Blocked may_write (channel full_queue) [MtxLock]
  /\ exists (d1 d2 : uio) (b1 b2 : af_local_buffer),
      read ample (uio_of (blank 3)) (channel full_queue)
      = Done (0, d1) b1
             [MtxLock; PollWake (sender (channel full_queue)) POLLOUT;
              MtxUnlock; WakeAll may_write]
      /\ write ample (uio_of [x62; x63]) b1
         = Done (0, d2) b2
                [MtxLock; PollWake (receiver (channel full_queue)) POLLIN;
                 MtxUnlock; WakeAll may_read]
      /\ q_size b1 < q_size b2.
Proof.
  destruct waiting_and_waking as (_ & H & _).
  apply (H ample (uio_of (blank 3)) (uio_of [x62; x63]) (channel full_queue)
           (mk_iovec (blank 3) 3) (mk_iovec [x62; x63] 2)).
  - discriminate.
  - unfold q_size, channel, full_queue. cbn [q]. rewrite repeat_length.
    apply Z2Nat.id. discriminate.
  - discriminate.
  - reflexivity.
  - reflexivity.
  - discriminate.
  - reflexivity.
  - split; [reflexivity|discriminate].
  - apply Nat.lt_succ_diag_r.
Defined.

(** X8. The lock and the wake-ups of [read] and [write], for every descriptor
    and every outcome.  A call of length zero calls nothing.  Any other call
    takes the lock once; if it returns, it has released the lock, has made at
    most one notification, while holding it ([read] to the sender's observer,
    [write] to the receiver's), and has then woken the waiters of the other
    side's condition variable, also when it returns end of stream or EPIPE.
    A call that does not return has made no call but the taking of the
    lock. *)
Theorem lock_and_wake_discipline (fuel : nat) (data : uio) (b : af_local_buffer) :
  match read fuel data b with
  | Done _ _ t =>
    (uio_resid data = 0 /\ t = [])
    \/ (uio_resid data <> 0
        /\ (t = [MtxLock; MtxUnlock; WakeAll may_write]
            \/ t = [MtxLock; PollWake (sender b) POLLOUT; MtxUnlock; WakeAll may_write]))
  | Blocked _ _ t | Halted _ _ t | Thrown _ _ t => t = [MtxLock]
  end
  /\ match write fuel data b with
     | Done _ _ t =>
       (uio_resid data = 0 /\ t = [])
       \/ (uio_resid data <> 0
           /\ (t = [MtxLock; MtxUnlock; WakeAll may_read]
               \/ t = [MtxLock; PollWake (receiver b) POLLIN; MtxUnlock; WakeAll may_read]))
     | Blocked _ _ t | Halted _ _ t | Thrown _ _ t => t = [MtxLock]
     end.
Proof.
  split; [apply read_trace|apply write_trace].
Qed.

(** X9.  [socketpair_af_local] succeeds whenever the file table and the
    descriptor table have two free places each, in any system: it returns 0
    with the next two descriptors in [sv], without a lock taken or a
    notification sent; the two new files are the endpoints of a connected
    pair with empty queues, each channel attached at both roles and holding
    two references; the two descriptors name the two files; and what the
    system held before is still there, with [errno] untouched. *)
Theorem socketpair_connects (sv : Z * Z) (w : world) :
  (live (files w) + 2 <= file_limit w)%nat ->
  (live (fdtable w) + 2 <= fd_limit w)%nat ->
  let f1 := length (files w) in
  let fd1 := length (fdtable w) in
  exists w' : world,
    socketpair_af_local SOCK_STREAM 0 sv w
    = Done (0, (Z.of_nat fd1, Z.of_nat (S fd1))) w' []
    /\ connected w' f1 (S f1) (length (pairs w)) (S (length (pairs w)))
                 (length (buffers w)) (S (length (buffers w))) [] []
    /\ nth_error (fdtable w') fd1 = Some (Some f1)
    /\ nth_error (fdtable w') (S fd1) = Some (Some (S f1))
    /\ firstn (length (buffers w)) (buffers w') = buffers w
    /\ firstn (length (pairs w)) (pairs w') = pairs w
    /\ firstn f1 (files w') = files w
    /\ firstn fd1 (fdtable w') = fdtable w
    /\ errno w' = errno w.
Proof.
  intros Hf Hd f1 fd1. subst f1 fd1.
  pose proof (socketpair_leaves_connected sv w Hf Hd) as Hc.
  rewrite (socketpair_run sv w Hf Hd) in Hc |- *.
  cbn [state_of] in Hc.
  eexists. split; [reflexivity|]. split; [exact Hc|].
  cbn [buffers pairs files fdtable errno].
  rewrite !firstn_app, !Nat.sub_diag, !firstn_all. cbn [firstn].
  rewrite !app_nil_r.
  repeat split; try apply nth_error_app_here; apply nth_error_app_next.
Qed.

Lemma socketpair_connects_witness :
  exists w' : world,
    socketpair_af_local SOCK_STREAM 0 (7, 7) (boot 2 2) = Done (0, (0, 1)) w' []
    /\ connected w' 0%nat 1%nat 0%nat 1%nat 0%nat 1%nat [] [].
Proof.
  assert (H1 : (live (files (boot 2 2)) + 2 <= file_limit (boot 2 2))%nat)
    by (cbn; lia).
  assert (H2 : (live (fdtable (boot 2 2)) + 2 <= fd_limit (boot 2 2))%nat)
    by (cbn; lia).
  destruct (socketpair_connects (7, 7) (boot 2 2) H1 H2) as (w' & Hr & Hc & _).
  exists w'. split; [exact Hr|exact Hc].
Defined.

(** X10.  Reads, writes and polls leave a connected pair connected: whatever
    the descriptor, the fuel and the outcome of the call, a write on endpoint
    A and a read on endpoint B act on the one channel from A to B, return
    what that channel's [write] and [read] return with the same trace, and
    change nothing but its queue, which a write extends at the back and a
    read shortens at the front; the channel from B to A, the attachments, the
    reference counts, the pairs and the files stay as they are.  With the
    roles of A and B exchanged the same holds for the other direction. *)
Theorem io_keeps_the_pair_connected (fuel : nat) (data : uio) (flags : Z)
        (w : world) (fa fb : file_ptr) (pa pb c1 c2 : nat) (q1 q2 : list byte) :
  connected w fa fb pa pb c1 c2 q1 q2 ->
  let b1 := mk_buffer q1 (Some fb) (Some fa) 2 in
  let wr := af_local_write fuel fa data flags w in
  let rd := af_local_read fuel fb data flags w in
  connected w fb fa pb pa c2 c1 q2 q1
  /\ value_of wr = value_of (write fuel data b1)
  /\ trace_of wr = trace_of (write fuel data b1)
  /\ connected (state_of wr) fa fb pa pb c1 c2 (q (state_of (write fuel data b1))) q2
  /\ (exists l : list byte, q (state_of (write fuel data b1)) = q1 ++ l)
  /\ value_of rd = value_of (read fuel data b1)
  /\ trace_of rd = trace_of (read fuel data b1)
  /\ connected (state_of rd) fa fb pa pb c1 c2 (q (state_of (read fuel data b1))) q2
  /\ (exists n : nat, q (state_of (read fuel data b1)) = skipn n q1).
Proof.
  intros H b1 wr rd. split; [exact (connected_sym _ _ _ _ _ _ _ _ _ H)|].
  pose proof H as (_ & _ & _ & Ha & Hb & H1 & _).
  subst wr rd.
  rewrite (af_local_write_endpoint fuel fa data flags w pa c1 c2 Ha).
  rewrite (af_local_read_endpoint fuel fb data flags w pb c2 c1 Hb).
  destruct (at_buffer_on c1 (write fuel data) w b1 H1) as (Hs & Ht & Hv).
  destruct (at_buffer_on c1 (read fuel data) w b1 H1) as (Hs' & Ht' & Hv').
  destruct (write_state fuel data b1) as (He & Hq & _).
  destruct (read_state fuel data b1) as (He' & Hq').
  rewrite Hs, Ht, Hv, Hs', Ht', Hv'.
  split; [reflexivity|]. split; [reflexivity|].
  split; [exact (connected_put w fa fb pa pb c1 c2 q1 q2 _ H He)|].
  split; [exact Hq|].
  split; [reflexivity|]. split; [reflexivity|].
  split; [exact (connected_put w fa fb pa pb c1 c2 q1 q2 _ H He')|exact Hq'].
Qed.

Lemma io_keeps_the_pair_connected_witness :
  connected (state_of (af_local_write 2 0%nat (uio_of hello) 0 a_pair))
            0%nat 1%nat 0%nat 1%nat 0%nat 1%nat hello [].
Proof.
  exact (proj1 (proj2 (proj2 (proj2
    (io_keeps_the_pair_connected 2 (uio_of hello) 0 a_pair 0%nat 1%nat 0%nat 1%nat 0%nat 1%nat [] []
       a_pair_connected))))).
Defined.

(** X11.  A round trip through a connected pair, in any system.  A write on
    endpoint A of a non-empty source of one segment that fits behind the
    bytes in flight returns 0 with the residual at 0, notifies B of POLLIN and
    wakes the readers; a read on B into one segment of as many bytes as are
    then queued returns 0 with the residual at 0 and delivers the bytes that
    were in flight followed by the bytes just written, notifies A of POLLOUT
    and wakes the writers.  The pair is connected as before with nothing in
    flight from A to B, and when nothing was in flight before the write the
    whole system is as it was. *)
Theorem pair_round_trip (fuel : nat) (mem : list byte) (flags flags' : Z)
        (w : world) (fa fb : file_ptr) (pa pb c1 c2 : nat) (q1 q2 : list byte) :
  connected w fa fb pa pb c1 c2 q1 q2 ->
  (2 <= fuel)%nat ->
  mem <> [] ->
  Z.of_nat (length q1) + Z.of_nat (length mem) <= max_buf ->
  exists (w1 w2 : world) (d : uio),
    af_local_write fuel fa (uio_of mem) flags w
    = Done (0, set_resid (uio_of mem) 0) w1
           [MtxLock; PollWake (Some fb) POLLIN; MtxUnlock; WakeAll may_read]
    /\ connected w1 fa fb pa pb c1 c2 (q1 ++ mem) q2
    /\ af_local_read fuel fb (uio_of (blank (length (q1 ++ mem)))) flags' w1
       = Done (0, d) w2
              [MtxLock; PollWake (Some fa) POLLOUT; MtxUnlock; WakeAll may_write]
    /\ memory d = q1 ++ mem
    /\ uio_resid d = 0
    /\ connected w2 fa fb pa pb c1 c2 [] q2
    /\ (q1 = [] -> w2 = w).
Proof.
  intros H Hfuel Hmem Hfit.
  pose proof H as (_ & _ & _ & Ha & _ & H1 & _).
  set (b1 := mk_buffer q1 (Some fb) (Some fa) 2) in *.
  assert (Hlen : (0 < length mem)%nat) by (destruct mem; [congruence|cbn; lia]).
  assert (Hw : write fuel (uio_of mem) b1
               = Done (0, set_resid (uio_of mem) 0) (set_q (q1 ++ mem) b1)
                      [MtxLock; PollWake (Some fb) POLLIN; MtxUnlock;
                       WakeAll may_read]).
  { apply (write_one_fits fuel mem b1 Hfuel); [|exact Hmem|].
    - apply write_ready_true. split; [discriminate|]. unfold q_size. cbn [q b1]. lia.
    - unfold q_size. cbn [q b1]. lia. }
  set (b1' := set_q (q1 ++ mem) b1) in *.
  assert (He : same_ends b1 b1') by (repeat split).
  pose proof (connected_put w fa fb pa pb c1 c2 q1 q2 b1' H He) as H'.
  set (w1 := set_buffers (store_at c1 (Some b1') (buffers w)) w) in *.
  cbn [q b1' set_q] in H'.
  pose proof H' as (_ & _ & _ & _ & Hb' & H1' & _).
  assert (Hne : q b1' <> []).
  { cbn [q b1' set_q]. intros E. apply app_eq_nil in E. now apply Hmem. }
  assert (Hcap : within_capacity b1').
  { unfold within_capacity, q_size. cbn [q b1' set_q]. rewrite length_app. lia. }
  exists w1, (set_buffers (store_at c1 (Some (set_q [] b1')) (buffers w1)) w1).
  eexists.
  split.
  { rewrite (af_local_write_endpoint fuel fa (uio_of mem) flags w pa c1 c2 Ha).
    exact (at_buffer_done c1 _ w b1 b1' _ _ H1 Hw). }
  split; [exact H'|].
  split.
  { rewrite (af_local_read_endpoint fuel fb _ flags' w1 pb c2 c1 Hb').
    apply (at_buffer_done c1 _ w1 b1' _ _ _ H1').
    exact (read_exactly fuel b1' Hfuel Hne Hcap). }
  split; [apply app_nil_r|].
  split; [reflexivity|].
  split.
  { apply (connected_put w1 fa fb pa pb c1 c2 (q1 ++ mem) q2 (set_q [] b1') H').
    repeat split. }
  intros Hq. subst w1. cbn [buffers set_buffers].
  rewrite store_at_twice. subst q1.
  rewrite store_at_same by exact H1. destruct w; reflexivity.
Qed.

Lemma pair_round_trip_witness :
  exists (w1 : world) (d : uio),
    af_local_write 2 0%nat (uio_of hello) 0 a_pair
    = Done (0, set_resid (uio_of hello) 0) w1
           [MtxLock; PollWake (Some 1%nat) POLLIN; MtxUnlock; WakeAll may_read]
    /\ af_local_read 2 1%nat (uio_of (blank 5)) 0 w1
       = Done (0, d) a_pair
              [MtxLock; PollWake (Some 0%nat) POLLOUT; MtxUnlock; WakeAll may_write]
    /\ memory d = hello.
Proof.
  assert (H2 : (2 <= 2)%nat) by lia.
  assert (H3 : hello <> []) by discriminate.
  assert (H4 : Z.of_nat (length (@nil byte)) + Z.of_nat (length hello) <= max_buf)
    by (unfold max_buf; cbn; lia).
  destruct (pair_round_trip 2 hello 0 0 a_pair 0%nat 1%nat 0%nat 1%nat 0%nat 1%nat
                            [] [] a_pair_connected H2 H3 H4)
    as (w1 & w2 & d & A & _ & C & D & _ & _ & G).
  rewrite (G eq_refl) in C.
  exists w1, d. split; [exact A|]. split; [exact C|exact D].
Defined.

(** X12.  Closing the two endpoints of a connected pair, one after the
    other.  The first [af_local_close] returns 0; it detaches the closing
    side from both channels, notifies the peer of POLLRDHUP and of POLLHUP,
    wakes readers and writers, deletes the pair of the closing side and
    leaves each channel alive with one reference and its queue intact; the
    peer is still an endpoint.  The second returns 0, notifies no file, and
    deletes the second pair and both channels.  The channels, pairs and files
    of the rest of the system and the descriptor table are untouched. *)
Theorem close_releases_the_pair (w : world) (fa fb : file_ptr)
        (pa pb c1 c2 : nat) (q1 q2 : list byte) :
  connected w fa fb pa pb c1 c2 q1 q2 ->
  exists w1 w2 : world,
    af_local_close fa w
    = Done 0 w1 [MtxLock; PollWake (Some fb) POLLRDHUP; WakeAll may_read; MtxUnlock;
                 MtxLock; PollWake (Some fb) POLLHUP; WakeAll may_write; MtxUnlock]
    /\ channel_at w1 c1 (mk_buffer q1 (Some fb) None 1)
    /\ channel_at w1 c2 (mk_buffer q2 None (Some fb) 1)
    /\ nth_error (pairs w1) pa = Some None
    /\ endpoint w1 fb pb c2 c1
    /\ af_local_close fb w1
       = Done 0 w2 [MtxLock; WakeAll may_read; MtxUnlock;
                    MtxLock; WakeAll may_write; MtxUnlock]
    /\ nth_error (buffers w2) c1 = Some None
    /\ nth_error (buffers w2) c2 = Some None
    /\ nth_error (pairs w2) pa = Some None
    /\ nth_error (pairs w2) pb = Some None
    /\ (forall c : nat, c <> c1 -> c <> c2 ->
                        nth_error (buffers w2) c = nth_error (buffers w) c)
    /\ (forall p : nat, p <> pa -> p <> pb ->
                        nth_error (pairs w2) p = nth_error (pairs w) p)
    /\ (forall f : file_ptr, f <> fa -> f <> fb ->
                             nth_error (files w2) f = nth_error (files w) f)
    /\ fdtable w2 = fdtable w.
Proof.
  intros H. pose proof H as (_ & Hp & Hc & _).
  destruct (close_one_end w fa fb pa pb c1 c2 q1 q2 H)
    as (w1 & E1 & H1 & H2 & Hpa & Hb & Fb & Fp & Ff & Fd).
  destruct (close_other_end w1 fb pb c1 c2 q1 q2 Hc Hb H1 H2)
    as (w2 & E2 & N1 & N2 & Npb & Gb & Gp & Gf & Gd).
  exists w1, w2.
  split; [exact E1|]. split; [exact H1|]. split; [exact H2|].
  split; [exact Hpa|]. split; [exact Hb|]. split; [exact E2|].
  split; [exact N1|]. split; [exact N2|].
  split; [rewrite Gp by exact Hp; exact Hpa|]. split; [exact Npb|].
  split.
  { intros c Hc1 Hc2. rewrite Gb by assumption. now apply Fb. }
  split.
  { intros p Hp1 Hp2. rewrite Gp by assumption. now apply Fp. }
  split; [|now rewrite Gd].
  intros f Hf1 Hf2. rewrite Gf by assumption. now apply Ff.
Qed.

Lemma close_releases_the_pair_witness :
  exists w1 w2 : world,
    af_local_close 0%nat a_pair
    = Done 0 w1 [MtxLock; PollWake (Some 1%nat) POLLRDHUP; WakeAll may_read; MtxUnlock;
                 MtxLock; PollWake (Some 1%nat) POLLHUP; WakeAll may_write; MtxUnlock]
    /\ af_local_close 1%nat w1
       = Done 0 w2 [MtxLock; WakeAll may_read; MtxUnlock;
                    MtxLock; WakeAll may_write; MtxUnlock]
    /\ nth_error (buffers w2) 0 = Some None
    /\ nth_error (buffers w2) 1 = Some None.
Proof.
  destruct (close_releases_the_pair a_pair 0%nat 1%nat 0%nat 1%nat 0%nat 1%nat
                                    [] [] a_pair_connected)
    as (w1 & w2 & E1 & _ & _ & _ & _ & E2 & N1 & N2 & _).
  exists w1, w2. split; [exact E1|]. split; [exact E2|]. split; [exact N1|exact N2].
Defined.

(** X13.  What endpoint B finds after endpoint A of a connected pair was
    closed.  Every write of one byte or more returns EPIPE and changes
    nothing.  With nothing in flight, every read of one byte or more returns 0
    with the residual unchanged (end of stream), where it would have waited
    before the close.  Bytes in flight are not lost: a read into one segment
    of their size delivers them all (the notification of POLLOUT is then
    made with the null sender of the channel); the reads after it find end
    of stream and the writes still EPIPE. *)
Theorem peer_sees_the_close (fuel : nat) (data : uio) (flags : Z) (w : world)
        (fa fb : file_ptr) (pa pb c1 c2 : nat) (q1 q2 : list byte) :
  connected w fa fb pa pb c1 c2 q1 q2 ->
  uio_resid data <> 0 ->
  exists w1 : world,
    state_of (af_local_close fa w) = w1
    /\ af_local_write fuel fb data flags w1
       = Done (EPIPE, data) w1 [MtxLock; MtxUnlock; WakeAll may_read]
    /\ (q1 = [] ->
        af_local_read fuel fb data flags w1
        = Done (0, data) w1 [MtxLock; MtxUnlock; WakeAll may_write])
    /\ (q1 <> [] -> (2 <= fuel)%nat -> Z.of_nat (length q1) <= max_buf ->
        exists w2 : world,
          af_local_read fuel fb (uio_of (blank (length q1))) flags w1
          = Done (0, mk_uio [mk_iovec q1 (Z.of_nat (length q1))] 0) w2
                 [MtxLock; PollWake None POLLOUT; MtxUnlock; WakeAll may_write]
          /\ af_local_read fuel fb data flags w2
             = Done (0, data) w2 [MtxLock; MtxUnlock; WakeAll may_write]
          /\ af_local_write fuel fb data flags w2
             = Done (EPIPE, data) w2 [MtxLock; MtxUnlock; WakeAll may_read]).
Proof.
  intros H Hres. pose proof H as (_ & _ & Hc & _).
  destruct (close_one_end w fa fb pa pb c1 c2 q1 q2 H)
    as (w1 & E1 & H1 & H2 & _ & Hb & _).
  exists w1. rewrite E1. split; [reflexivity|].
  split.
  { rewrite (af_local_write_endpoint fuel fb data flags w1 pb c2 c1 Hb).
    apply (at_buffer_kept c2 _ w1 _ _ _ H2).
    apply write_epipe; [exact Hres|reflexivity]. }
  split.
  { intros Hq. subst q1.
    rewrite (af_local_read_endpoint fuel fb data flags w1 pb c2 c1 Hb).
    apply (at_buffer_kept c1 _ w1 _ _ _ H1).
    apply read_eof; [exact Hres|reflexivity|reflexivity]. }
  intros Hq Hfuel Hcap.
  set (b := mk_buffer q1 (Some fb) None 1) in *.
  exists (set_buffers (store_at c1 (Some (set_q [] b)) (buffers w1)) w1).
  split.
  { rewrite (af_local_read_endpoint fuel fb _ flags w1 pb c2 c1 Hb).
    apply (at_buffer_done c1 _ w1 b _ _ _ H1).
    exact (read_exactly fuel b Hfuel Hq Hcap). }
  assert (Hb' : endpoint (set_buffers (store_at c1 (Some (set_q [] b)) (buffers w1)) w1)
                         fb pb c2 c1) by exact Hb.
  split.
  { rewrite (af_local_read_endpoint fuel fb data flags _ pb c2 c1 Hb').
    apply (at_buffer_kept c1 _ _ (set_q [] b)).
    - cbn [buffers set_buffers]. exact (nth_error_store_at _ c1 _ _ H1).
    - apply read_eof; [exact Hres|reflexivity|reflexivity]. }
  rewrite (af_local_write_endpoint fuel fb data flags _ pb c2 c1 Hb').
  apply (at_buffer_kept c2 _ _ (mk_buffer q2 None (Some fb) 1)).
  - cbn [buffers set_buffers]. rewrite nth_error_store_at_other by congruence. exact H2.
  - apply write_epipe; [exact Hres|reflexivity].
Qed.

Lemma peer_sees_the_close_witness :
  af_local_write 2 1%nat (uio_of hello) 0 (state_of (af_local_close 0%nat a_pair))
  = Done (EPIPE, uio_of hello) (state_of (af_local_close 0%nat a_pair))
         [MtxLock; MtxUnlock; WakeAll may_read].
Proof.
  assert (Hres : uio_resid (uio_of hello) <> 0) by (cbn; lia).
  destruct (peer_sees_the_close 2 (uio_of hello) 0 a_pair 0%nat 1%nat 0%nat 1%nat
                                0%nat 1%nat [] [] a_pair_connected Hres)
    as (w1 & E & W & _).
  rewrite E. exact W.
Defined.

(** X14.  [af_local_poll] on an endpoint changes nothing and returns the
    read mask of the receive channel if POLLIN is asked for, or-ed with the
    write mask of the send channel if POLLOUT is asked for; it takes a
    channel's lock only for a direction that is asked for, and never wakes or
    notifies.  A request with neither bit returns 0 without a lock.  So
    POLLHUP and POLLOUT are reported only to a request with POLLOUT, and
    POLLRDHUP and POLLIN only to a request with POLLIN; to such a request a
    detached receiver always shows as POLLHUP and a detached sender as
    POLLRDHUP, asked for or not. *)
Theorem poll_answers_what_was_asked (f : file_ptr) (events : Z) (w : world)
        (p s r : nat) (bs br : af_local_buffer) :
  endpoint w f p s r ->
  channel_at w s bs ->
  channel_at w r br ->
  exists (revents : Z) (t : list event),
    af_local_poll f events w = Done revents w t
    /\ revents
       = Z.lor (if truthy (Z.land events POLLIN) then read_events_unlocked br else 0)
               (if truthy (Z.land events POLLOUT) then write_events_unlocked bs else 0)
    /\ (forall e : event, In e t -> e = MtxLock \/ e = MtxUnlock)
    /\ (Z.land events (Z.lor POLLIN POLLOUT) = 0 -> revents = 0 /\ t = [])
    /\ (Z.land events POLLOUT = 0 ->
        Z.land revents POLLHUP = 0 /\ Z.land revents POLLOUT = 0)
    /\ (Z.land events POLLIN = 0 ->
        Z.land revents POLLRDHUP = 0 /\ Z.land revents POLLIN = 0)
    /\ (Z.land events POLLOUT <> 0 -> receiver bs = None ->
        Z.land revents POLLHUP = POLLHUP)
    /\ (Z.land events POLLIN <> 0 -> sender br = None ->
        Z.land revents POLLRDHUP = POLLRDHUP).
Proof.
  intros He Hs Hr.
  rewrite (af_local_poll_run f events w p s r bs br He Hs Hr).
  eexists. eexists. split; [reflexivity|]. split; [reflexivity|].
  rewrite read_events_cases, write_events_cases.
  unfold truthy.
  split.
  { intros e Hin. apply in_app_or in Hin.
    destruct (Z.land events POLLIN =? 0), (Z.land events POLLOUT =? 0);
      cbn in Hin; intuition auto. }
  split.
  { intros H0.
    assert (Hin : Z.land events POLLIN = 0).
    { change POLLIN with (Z.land (Z.lor POLLIN POLLOUT) POLLIN).
      now rewrite Z.land_assoc, H0. }
    assert (Hout : Z.land events POLLOUT = 0).
    { change POLLOUT with (Z.land (Z.lor POLLIN POLLOUT) POLLOUT).
      now rewrite Z.land_assoc, H0. }
    rewrite Hin, Hout. split; reflexivity. }
  split.
  { intros Hout. rewrite Hout. cbn [Z.eqb negb].
    destruct (Z.land events POLLIN =? 0), (q_empty br), (is_null (sender br));
      split; reflexivity. }
  split.
  { intros Hin. rewrite Hin. cbn [Z.eqb negb].
    destruct (Z.land events POLLOUT =? 0), (is_null (receiver bs)),
      (q_size bs <? max_buf); split; reflexivity. }
  split.
  { intros Hout Hnull. rewrite Hnull.
    destruct (Z.eqb_spec (Z.land events POLLOUT) 0) as [E|_]; [contradiction|].
    cbn [negb is_null].
    destruct (Z.land events POLLIN =? 0), (q_empty br), (is_null (sender br));
      reflexivity. }
  intros Hin Hnull. rewrite Hnull.
  destruct (Z.eqb_spec (Z.land events POLLIN) 0) as [E|_]; [contradiction|].
  cbn [negb is_null].
  destruct (Z.land events POLLOUT =? 0), (q_empty br), (is_null (receiver bs)),
    (q_size bs <? max_buf); reflexivity.
Qed.

Lemma poll_answers_what_was_asked_witness :
  exists (revents : Z) (t : list event),
    af_local_poll 0%nat (Z.lor POLLIN POLLOUT) a_pair = Done revents a_pair t
    /\ revents = POLLOUT.
Proof.
  destruct a_pair_connected as (_ & _ & _ & He & _ & H1 & H2).
  destruct (poll_answers_what_was_asked 0%nat (Z.lor POLLIN POLLOUT) a_pair
              0%nat 0%nat 1%nat _ _ He H1 H2) as (rev & t & E & R & _).
  exists rev, t. split; [exact E|]. rewrite R. reflexivity.
Defined.

(** X15.  [socketpair_af_local] with a stream type and null protocol in a
    system short of files or of descriptors: it returns -1 and leaves [sv]
    as it was; [errno] is ENFILE when one of the two files cannot be had,
    EMFILE when one of the two descriptors cannot; nothing that was allocated
    on the way survives (the numbers of live channels, pairs, files and
    descriptors are those before the call), nothing that existed before is
    changed, and no file that existed before is notified. *)
Theorem socketpair_failure_leaves_nothing (sv : Z * Z) (w : world) :
  (file_limit w < live (files w) + 2 \/ fd_limit w < live (fdtable w) + 2)%nat ->
  exists (w' : world) (t : list event),
    socketpair_af_local SOCK_STREAM 0 sv w = Done (-1, sv) w' t
    /\ errno w' = (if (file_limit w <? live (files w) + 2)%nat then ENFILE else EMFILE)
    /\ live (buffers w') = live (buffers w)
    /\ live (pairs w') = live (pairs w)
    /\ live (files w') = live (files w)
    /\ live (fdtable w') = live (fdtable w)
    /\ firstn (length (buffers w)) (buffers w') = buffers w
    /\ firstn (length (pairs w)) (pairs w') = pairs w
    /\ firstn (length (files w)) (files w') = files w
    /\ firstn (length (fdtable w)) (fdtable w') = fdtable w
    /\ (forall (f : file_ptr) (events : Z),
           In (PollWake (Some f) events) t -> (length (files w) <= f)%nat).
Proof.
  intros H.
  assert (Hfirst : forall (A : Type) (l r : list A), firstn (length l) (l ++ r) = l).
  { intros A l r. rewrite firstn_app, Nat.sub_diag, firstn_all. cbn [firstn].
    apply app_nil_r. }
  assert (Hlive : forall (A : Type) (l : list (option A)),
             live (l ++ [None; None]) = live l /\ live (l ++ [None]) = live l).
  { intros A l. rewrite !live_app. cbn [live filter is_null negb length]. lia. }
  assert (Hquiet : forall (f : file_ptr) (events : Z),
             In (PollWake (Some f) events)
                [MtxLock; MtxUnlock; MtxLock; MtxUnlock;
                 MtxLock; MtxUnlock; MtxLock; MtxUnlock] ->
             (length (files w) <= f)%nat).
  { intros f events Hin. cbn in Hin.
    repeat (destruct Hin as [Hin|Hin]; [discriminate|]). contradiction. }
  assert (Hnew : forall (f : file_ptr) (events : Z),
             In (PollWake (Some f) events)
                [MtxLock; PollWake (Some (length (files w))) POLLRDHUP;
                 WakeAll may_read; MtxUnlock;
                 MtxLock; PollWake (Some (length (files w))) POLLHUP;
                 WakeAll may_write; MtxUnlock;
                 MtxLock; WakeAll may_read; MtxUnlock;
                 MtxLock; WakeAll may_write; MtxUnlock] ->
             (length (files w) <= f)%nat).
  { intros f events Hin. cbn in Hin.
    repeat (destruct Hin as [Hin|Hin];
            [first [discriminate | inversion Hin; apply le_n]|]).
    contradiction. }
  destruct (Nat.ltb_spec (file_limit w) (live (files w) + 2)) as [Hf|Hf].
  - destruct (Nat.le_gt_cases (file_limit w) (live (files w))) as [H0|H1].
    + rewrite (socketpair_no_file sv w H0).
      eexists. eexists. split; [reflexivity|].
      cbn [buffers pairs files fdtable errno].
      rewrite !Hfirst, ?firstn_all, !(proj1 (Hlive _ _)).
      repeat split. exact Hquiet.
    + rewrite (socketpair_one_file sv w H1) by lia.
      eexists. eexists. split; [reflexivity|].
      cbn [buffers pairs files fdtable errno].
      rewrite !Hfirst, ?firstn_all, !(proj1 (Hlive _ _)), (proj2 (Hlive _ _)).
      repeat split. exact Hquiet.
  - destruct H as [H|Hd]; [lia|].
    destruct (Nat.le_gt_cases (fd_limit w) (live (fdtable w))) as [H0|H1].
    + rewrite (socketpair_no_descriptor sv w Hf H0).
      eexists. eexists. split; [reflexivity|].
      cbn [buffers pairs files fdtable errno].
      rewrite !Hfirst, ?firstn_all, !(proj1 (Hlive _ _)).
      repeat split. exact Hnew.
    + rewrite (socketpair_one_descriptor sv w Hf H1) by lia.
      eexists. eexists. split; [reflexivity|].
      cbn [buffers pairs files fdtable errno].
      rewrite !Hfirst, ?firstn_all, !(proj1 (Hlive _ _)), (proj2 (Hlive _ _)).
      repeat split. exact Hnew.
Qed.

Lemma socketpair_failure_leaves_nothing_witness :
  exists (w' : world) (t : list event),
    socketpair_af_local SOCK_STREAM 0 (7, 7) (boot 1 8) = Done (-1, (7, 7)) w' t
    /\ errno w' = ENFILE
    /\ live (files w') = 0%nat.
Proof.
  assert (H : (file_limit (boot 1 8) < live (files (boot 1 8)) + 2
               \/ fd_limit (boot 1 8) < live (fdtable (boot 1 8)) + 2)%nat)
    by (left; cbn; lia).
  destruct (socketpair_failure_leaves_nothing (7, 7) (boot 1 8) H)
    as (w' & t & E & Herr & _ & _ & Hl & _).
  exists w', t. split; [exact E|]. split; [exact Herr|exact Hl].
Defined.

(** X16.  The close of endpoint A releases a peer that waits.  In a connected
    pair with nothing in flight towards B, a read of one byte or more on B
    waits on [may_read] holding nothing; [af_local_close] on A wakes
    [may_read], and the read run again returns 0 with the residual unchanged.
    With the queue from B to A full, a write of one byte or more on B waits on
    [may_write]; the close on A wakes [may_write], and the write run again
    returns EPIPE. *)
Theorem close_wakes_the_waiting_peer (fuel : nat) (data : uio) (flags : Z)
        (w : world) (fa fb : file_ptr) (pa pb c1 c2 : nat) (q1 q2 : list byte) :
  connected w fa fb pa pb c1 c2 q1 q2 ->
  uio_resid data <> 0 ->
  let closing := af_local_close fa w in
  (q1 = [] ->
   af_local_read fuel fb data flags w = Blocked may_read w [MtxLock]
   /\ In (WakeAll may_read) (trace_of closing)
   /\ af_local_read fuel fb data flags (state_of closing)
      = Done (0, data) (state_of closing) [MtxLock; MtxUnlock; WakeAll may_write])
  /\ (max_buf <= Z.of_nat (length q2) ->
      af_local_write fuel fb data flags w = Blocked may_write w [MtxLock]
      /\ In (WakeAll may_write) (trace_of closing)
      /\ af_local_write fuel fb data flags (state_of closing)
         = Done (EPIPE, data) (state_of closing) [MtxLock; MtxUnlock; WakeAll may_read]).
Proof.
  intros H Hres closing.
  pose proof H as (_ & _ & _ & _ & Hb & H1 & H2).
  destruct (close_one_end w fa fb pa pb c1 c2 q1 q2 H)
    as (w1 & E1 & H1' & H2' & _ & Hb' & _).
  subst closing. rewrite E1. cbn [state_of trace_of].
  split.
  - intros Hq. subst q1. split.
    { rewrite (af_local_read_endpoint fuel fb data flags w pb c2 c1 Hb).
      unfold at_buffer. rewrite H1.
      rewrite read_blocks; [|exact Hres|reflexivity|discriminate].
      rewrite store_at_same by exact H1. now rewrite set_buffers_same. }
    split; [cbn; tauto|].
    rewrite (af_local_read_endpoint fuel fb data flags w1 pb c2 c1 Hb').
    apply (at_buffer_kept c1 _ w1 _ _ _ H1').
    apply read_eof; [exact Hres|reflexivity|reflexivity].
  - intros Hfull. split.
    { rewrite (af_local_write_endpoint fuel fb data flags w pb c2 c1 Hb).
      unfold at_buffer. rewrite H2.
      rewrite write_blocks; [|exact Hres|discriminate|exact Hfull].
      rewrite store_at_same by exact H2. now rewrite set_buffers_same. }
    split; [cbn; tauto|].
    rewrite (af_local_write_endpoint fuel fb data flags w1 pb c2 c1 Hb').
    apply (at_buffer_kept c2 _ w1 _ _ _ H2').
    apply write_epipe; [exact Hres|reflexivity].
Qed.

Lemma close_wakes_the_waiting_peer_witness :
  af_local_read 2 1%nat (uio_of (blank 5)) 0 a_pair = Blocked may_read a_pair [MtxLock]
  /\ In (WakeAll may_read) (trace_of (af_local_close 0%nat a_pair)).
Proof.
  assert (Hres : uio_resid (uio_of (blank 5)) <> 0) by (cbn; lia).
  destruct (close_wakes_the_waiting_peer 2 (uio_of (blank 5)) 0 a_pair
              0%nat 1%nat 0%nat 1%nat 0%nat 1%nat [] [] a_pair_connected Hres)
    as (R & _).
  destruct (R eq_refl) as (B & W & _).
  split; [exact B|exact W].
Defined.

(** X17.  The endpoints of a connected pair cannot be initialised again:
    [af_local_init] fails the assertion of [attach_sender] and halts with the
    system unchanged. *)
Theorem an_endpoint_is_initialised_once (w : world) (fa fb : file_ptr)
        (pa pb c1 c2 : nat) (q1 q2 : list byte) :
  connected w fa fb pa pb c1 c2 q1 q2 ->
  af_local_init fa w = Halted AssertionFailed w []
  /\ af_local_init fb w = Halted AssertionFailed w [].
Proof.
  assert (G : forall fa fb pa pb c1 c2 q1 q2,
             connected w fa fb pa pb c1 c2 q1 q2 ->
             af_local_init fa w = Halted AssertionFailed w []).
  { clear. intros fa fb pa pb c1 c2 q1 q2 (_ & _ & _ & Ha & _ & H1 & _).
    unfold af_local_init.
    erewrite bind_done; [|exact (afl_of_endpoint w fa pa c1 c2 Ha)].
    cbn [send]. rewrite after_nil. unfold bind at 1, at_buffer.
    rewrite H1. cbn [attach_sender]. unfold attach_sender, bind, gets.
    cbn [sender is_null assert stop after app].
    rewrite store_at_same by exact H1. now rewrite set_buffers_same. }
  intros H. split.
  - exact (G _ _ _ _ _ _ _ _ H).
  - exact (G _ _ _ _ _ _ _ _ (connected_sym _ _ _ _ _ _ _ _ _ H)).
Qed.

Lemma an_endpoint_is_initialised_once_witness :
  af_local_init 0%nat a_pair = Halted AssertionFailed a_pair [].
Proof.
  exact (proj1 (an_endpoint_is_initialised_once a_pair 0%nat 1%nat 0%nat 1%nat
                  0%nat 1%nat [] [] a_pair_connected)).
Defined.
